(** * farmLokal backend: coordination primitives

    A shallow embedding of the coordination layer of the backend
    (Backend/src): the webhook idempotency middleware and service, the
    Redis-backed circuit breaker, the sliding-window rate limiter, the
    OAuth token cache with its refresh lock and the axios retry wrapper,
    together with the properties their specification states about them
    and further properties read off the code.

    Layout: the models come first (one module per source file, with the
    two external stores, Redis and the MySQL table, modelled by the
    commands the code issues), the properties follow. *)

From Stdlib Require Import ZArith List String Lia Bool DecimalString DecimalZ DecimalPos
  Sorted.
From stdpp Require Import gmap strings list.

Local Open Scope string_scope.
Local Open Scope Z_scope.

(* ===================================================================== *)
(** * Part I: models                                                     *)
(* ===================================================================== *)

(** ** JavaScript numbers as the code uses them

    Every number the coordination code stores is an integer (millisecond
    instants, counters), so numbers are [Z].  [toString] is
    [Number.prototype.toString] / a template literal on such an integer;
    [parseInt] reads a decimal integer string back, [None] standing for
    [NaN].  They agree with JavaScript on the safe integers ([safe], the
    range in which a double is exact and is printed digit by digit) and
    on their canonical decimal strings, which are the only ones this code
    writes; a number that comes from outside (the provider's
    [expires_in]) is bounded by [safe] where a property depends on it. *)
Module Js.

(** [Number.isSafeInteger] *)
Definition safe (z : Z) : Prop := - 2 ^ 53 < z < 2 ^ 53.

Definition toString (z : Z) : string := NilZero.string_of_int (Z.to_int z).

Definition parseInt (s : string) : option Z :=
  option_map Z.of_int (NilZero.int_of_string s).

(** [Math.ceil (a / b)] for an integer [a] and a positive integer [b]. *)
Definition ceil_div (a b : Z) : Z := - ((- a) / b).

(** [x || d] on a number option: [undefined] and [0] are falsy. *)
Definition num_or (x : option Z) (d : Z) : Z :=
  match x with
  | Some v => if v =? 0 then d else v
  | None => d
  end.

End Js.

(** ** The Redis server, by the commands the code issues

    A key holds a string or a sorted set, and may carry an expiry instant
    (milliseconds).  A key whose expiry instant has been reached is gone
    for every command. *)
Module Redis.

Inductive rdata :=
| RString (s : string)
| RZSet (members : gmap string Z).

Record entry := { data : rdata; expires_at : option Z }.

Abbreviation store := (gmap string entry).

Inductive redis_error :=
| WRONGTYPE
| NOT_AN_INTEGER
| CONNECTION_CLOSED.

(** Replies of the commands used. [RNil] is the null reply. *)
Inductive reply :=
| RNil
| ROk
| RInt (n : Z)
| RBulk (s : string)
| RErr (e : redis_error).

Definition live (now : Z) (e : entry) : bool :=
  match expires_at e with
  | None => true
  | Some t => now <? t
  end.

Definition find (now : Z) (k : string) (db : store) : option entry :=
  match db !! k with
  | Some e => if live now e then Some e else None
  | None => None
  end.

Inductive command :=
| GET (k : string)
| SET (k v : string)
| SET_NX_EX (k v : string) (seconds : Z)
| DEL (k : string)
| EXISTS (k : string)
| INCR (k : string)
| EXPIRE (k : string) (seconds : Z)
| ZREMRANGEBYSCORE (k : string) (lo hi : Z)
| ZADD (k : string) (score : Z) (member : string)
| ZCARD (k : string).

Definition in_range (lo hi : Z) (kv : string * Z) : Prop := lo <= kv.2 <= hi.

Definition zremrange (lo hi : Z) (m : gmap string Z) : gmap string Z :=
  filter (fun kv => ~ in_range lo hi kv) m.

(** One command against the server at instant [now]. *)
Definition run (now : Z) (c : command) (db : store) : reply * store :=
  match c with
  | GET k =>
      match find now k db with
      | None => (RNil, db)
      | Some {| data := RString s |} => (RBulk s, db)
      | Some {| data := RZSet _ |} => (RErr WRONGTYPE, db)
      end
  | SET k v => (ROk, <[k := {| data := RString v; expires_at := None |}]> db)
  | SET_NX_EX k v seconds =>
      match find now k db with
      | Some _ => (RNil, db)
      | None =>
          (ROk, <[k := {| data := RString v;
                          expires_at := Some (now + seconds * 1000) |}]> db)
      end
  | DEL k =>
      match find now k db with
      | Some _ => (RInt 1, delete k db)
      | None => (RInt 0, delete k db)
      end
  | EXISTS k =>
      match find now k db with
      | Some _ => (RInt 1, db)
      | None => (RInt 0, db)
      end
  | INCR k =>
      match find now k db with
      | None =>
          (RInt 1, <[k := {| data := RString (Js.toString 1);
                             expires_at := None |}]> db)
      | Some {| data := RString s; expires_at := ttl |} =>
          match Js.parseInt s with
          | Some n =>
              (RInt (n + 1),
               <[k := {| data := RString (Js.toString (n + 1));
                         expires_at := ttl |}]> db)
          | None => (RErr NOT_AN_INTEGER, db)
          end
      | Some {| data := RZSet _ |} => (RErr WRONGTYPE, db)
      end
  | EXPIRE k seconds =>
      match find now k db with
      | Some e =>
          (RInt 1, <[k := {| data := data e;
                             expires_at := Some (now + seconds * 1000) |}]> db)
      | None => (RInt 0, db)
      end
  | ZREMRANGEBYSCORE k lo hi =>
      match find now k db with
      | None => (RInt 0, db)
      | Some {| data := RZSet m; expires_at := ttl |} =>
          let m' := zremrange lo hi m in
          let removed := Z.of_nat (size m - size m') in
          if decide (m' = ∅) then (RInt removed, delete k db)
          else (RInt removed, <[k := {| data := RZSet m'; expires_at := ttl |}]> db)
      | Some {| data := RString _ |} => (RErr WRONGTYPE, db)
      end
  | ZADD k score member =>
      match find now k db with
      | None =>
          (RInt 1, <[k := {| data := RZSet {[ member := score ]};
                             expires_at := None |}]> db)
      | Some {| data := RZSet m; expires_at := ttl |} =>
          (RInt (match m !! member with Some _ => 0 | None => 1 end),
           <[k := {| data := RZSet (<[member := score]> m); expires_at := ttl |}]> db)
      | Some {| data := RString _ |} => (RErr WRONGTYPE, db)
      end
  | ZCARD k =>
      match find now k db with
      | None => (RInt 0, db)
      | Some {| data := RZSet m |} => (RInt (Z.of_nat (size m)), db)
      | Some {| data := RString _ |} => (RErr WRONGTYPE, db)
      end
  end.

(** A MULTI block: the queued commands run back to back, each on the
    store its predecessor left. *)
Fixpoint run_all (now : Z) (cs : list command) (db : store) : list reply * store :=
  match cs with
  | [] => ([], db)
  | c :: cs' =>
      let '(r, db1) := run now c db in
      let '(rs, db2) := run_all now cs' db1 in
      (r :: rs, db2)
  end.

Fixpoint first_error (rs : list reply) : option redis_error :=
  match rs with
  | [] => None
  | RErr e :: _ => Some e
  | _ :: rs' => first_error rs'
  end.

End Redis.

(** ** The process: world, exceptions and the monad of async code *)
Module Proc.

Export Redis.

Inductive exn :=
| JsError (message : string)
| ReplyError (e : redis_error).

Inductive result (A : Type) :=
| Ok (a : A)
| Throw (e : exn).
Arguments Ok {A} a.
Arguments Throw {A} e.

(** What one worker runs against: the shared Redis server and whether it
    can be reached, the wall clock ([Date.now ()], milliseconds), the
    console, how many times a wrapped operation has been called, and the
    delays handed to [setTimeout] so far, latest first. *)
Record world := {
  redis : store;
  redis_up : bool;
  clock : Z;
  console : list string;
  invoked : nat;
  timers : list Z
}.

Definition with_redis (db : store) (w : world) : world :=
  {| redis := db; redis_up := redis_up w; clock := clock w;
     console := console w; invoked := invoked w; timers := timers w |}.

Definition with_clock (t : Z) (w : world) : world :=
  {| redis := redis w; redis_up := redis_up w; clock := t;
     console := console w; invoked := invoked w; timers := timers w |}.

Definition with_console (lines : list string) (w : world) : world :=
  {| redis := redis w; redis_up := redis_up w; clock := clock w;
     console := lines; invoked := invoked w; timers := timers w |}.

Definition M (A : Type) : Type := world -> result A * world.

Definition ret {A} (a : A) : M A := fun w => (Ok a, w).

Definition throw {A} (e : exn) : M A := fun w => (Throw e, w).

Definition bind {A B} (m : M A) (k : A -> M B) : M B :=
  fun w =>
    match m w with
    | (Ok a, w1) => k a w1
    | (Throw e, w1) => (Throw e, w1)
    end.

(** [try { m } catch (error) { h error }] *)
Definition try_catch {A} (m : M A) (h : exn -> M A) : M A :=
  fun w =>
    match m w with
    | (Ok a, w1) => (Ok a, w1)
    | (Throw e, w1) => h e w1
    end.

(** [try { m } finally { f }]: [f] runs on every exit; its own exception
    replaces the outcome of [m]. *)
Definition try_finally {A} (m : M A) (f : M unit) : M A :=
  fun w =>
    match m w with
    | (r, w1) =>
        match f w1 with
        | (Ok _, w2) => (r, w2)
        | (Throw e, w2) => (Throw e, w2)
        end
    end.

Definition dateNow : M Z := fun w => (Ok (clock w), w).

Definition log (line : string) : M unit :=
  fun w => (Ok tt, with_console (line :: console w) w).

(** [await redisClient.<command>]: the reply, or an exception when the
    server cannot be reached or replies with an error. *)
Definition send (c : command) : M reply :=
  fun w =>
    if redis_up w then
      match run (clock w) c (redis w) with
      | (RErr e, db) => (Throw (ReplyError e), with_redis db w)
      | (r, db) => (Ok r, with_redis db w)
      end
    else (Throw (ReplyError CONNECTION_CLOSED), w).

(** [await redisClient.multi () ... .exec ()] *)
Definition exec (cs : list command) : M (list reply) :=
  fun w =>
    if redis_up w then
      let '(rs, db) := run_all (clock w) cs (redis w) in
      match first_error rs with
      | Some e => (Throw (ReplyError e), with_redis db w)
      | None => (Ok rs, with_redis db w)
      end
    else (Throw (ReplyError CONNECTION_CLOSED), w).

(** [await redisClient.get (k)]: the string, or [null]. *)
Definition get (k : string) : M (option string) :=
  bind (send (GET k))
       (fun r => ret (match r with RBulk s => Some s | _ => None end)).

(** A wrapped unit of work (an outbound call): it sees and may change the
    store and let time pass, and returns or throws. *)
Definition operation : Type := store -> Z -> result string * store * Z.

(** [await fn ()] *)
Definition invoke (fn : operation) : M string :=
  fun w =>
    let '(r, db, t) := fn (redis w) (clock w) in
    (r, {| redis := db; redis_up := redis_up w; clock := t;
           console := console w; invoked := S (invoked w); timers := timers w |}).

(** [await new Promise (resolve => setTimeout (resolve, ms))] followed by
    whatever else delays the worker: [late] more milliseconds. *)
Definition sleep (ms : Z) (late : N) : M unit :=
  fun w =>
    (Ok tt,
     {| redis := redis w; redis_up := redis_up w;
        clock := clock w + ms + Z.of_N late;
        console := console w; invoked := invoked w; timers := ms :: timers w |}).

(** A computation leaves an observation [f] of the world as it found it. *)
Definition stable {A X} (f : world -> X) (m : M A) : Prop :=
  forall w, f (m w).2 = f w.

End Proc.

Declare Scope proc_scope.
Delimit Scope proc_scope with proc.
Notation "x <- c1 ;; c2" := (Proc.bind c1 (fun x => c2))
  (at level 100, c1 at next level, right associativity) : proc_scope.
Notation "c1 ;;; c2" := (Proc.bind c1 (fun _ => c2))
  (at level 100, right associativity) : proc_scope.

(** ** utils/circuitBreaker.js *)
Module CircuitBreaker.

Import Proc.
Local Open Scope proc_scope.

Record options := {
  opt_failureThreshold : option Z;
  opt_resetTimeout : option Z;
  opt_monitoringPeriod : option Z
}.

Record t := {
  name : string;
  failureThreshold : Z;
  resetTimeout : Z;
  monitoringPeriod : Z
}.

Definition constructor (name : string) (o : options) : t :=
  {| name := name;
     failureThreshold := Js.num_or (opt_failureThreshold o) 5;
     resetTimeout := Js.num_or (opt_resetTimeout o) 60000;
     monitoringPeriod := Js.num_or (opt_monitoringPeriod o) 120000 |}.

Definition keyPrefix (cb : t) : string := "circuit:" ++ name cb ++ ":".
Definition stateKey (cb : t) : string := keyPrefix cb ++ "state".
Definition failureKey (cb : t) : string := keyPrefix cb ++ "failures".
Definition lastFailureKey (cb : t) : string := keyPrefix cb ++ "lastFailure".

Definition open_message (cb : t) : string :=
  "Circuit breaker is OPEN for " ++ name cb ++ ". Service unavailable.".

(** [state || 'CLOSED']: [null] and the empty string are falsy. *)
Definition getState (cb : t) : M string :=
  state <- get (stateKey cb) ;;
  ret (match state with
       | Some s => if String.eqb s "" then "CLOSED" else s
       | None => "CLOSED"
       end).

Definition setState (cb : t) (state : string) : M unit :=
  send (SET (stateKey cb) state) ;;; ret tt.

Definition recordSuccess (cb : t) : M unit :=
  send (DEL (failureKey cb)) ;;; ret tt.

Definition recordFailure (cb : t) : M unit :=
  now <- dateNow ;;
  exec [ INCR (failureKey cb);
         SET (lastFailureKey cb) (Js.toString now);
         EXPIRE (failureKey cb) (Js.ceil_div (monitoringPeriod cb) 1000) ] ;;;
  ret tt.

(** [count ? parseInt (count) : 0]; [None] is [NaN]. *)
Definition getFailureCount (cb : t) : M (option Z) :=
  count <- get (failureKey cb) ;;
  ret (match count with
       | Some s => if String.eqb s "" then Some 0 else Js.parseInt s
       | None => Some 0
       end).

Definition open (cb : t) : M unit :=
  log ("⚠️  Circuit breaker OPEN for " ++ name cb) ;;;
  setState cb "OPEN".

Definition close (cb : t) : M unit :=
  log ("✅ Circuit breaker CLOSED for " ++ name cb) ;;;
  setState cb "CLOSED" ;;;
  send (DEL (failureKey cb)) ;;;
  ret tt.

(** [timeSinceLastFailure >= this.resetTimeout]; a comparison with [NaN]
    is false. *)
Definition canAttemptReset (cb : t) : M bool :=
  lastFailure <- get (lastFailureKey cb) ;;
  match lastFailure with
  | None => ret true
  | Some s =>
      if String.eqb s "" then ret true
      else
        now <- dateNow ;;
        ret (match Js.parseInt s with
             | Some t0 => resetTimeout cb <=? now - t0
             | None => false
             end)
  end.

(** [execute], lines 32-45: the gate a call passes before the wrapped
    operation may run.  It yields the state read on entry. *)
Definition gate (cb : t) : M string :=
  state <- getState cb ;;
  (if String.eqb state "OPEN" then
     canRetry <- canAttemptReset cb ;;
     if canRetry then setState cb "HALF_OPEN"
     else throw (JsError (open_message cb))
   else ret tt) ;;;
  ret state.

(** [execute], lines 47-72: the wrapped operation and the bookkeeping of
    its outcome; [state] is the constant read on entry.  [on_success] is
    the rest of the [try] block once [fn] has returned, [on_failure] the
    [catch] block. *)
Definition on_success (cb : t) (state result : string) : M string :=
  (if String.eqb state "HALF_OPEN" then close cb else recordSuccess cb) ;;;
  ret result.

Definition on_failure (cb : t) (error : exn) : M string :=
  recordFailure cb ;;;
  failureCount <- getFailureCount cb ;;
  (match failureCount with
   | Some n => if failureThreshold cb <=? n then open cb else ret tt
   | None => ret tt
   end) ;;;
  throw error.

Definition attempt (cb : t) (state : string) (fn : operation) : M string :=
  try_catch
    (result <- invoke fn ;;
     on_success cb state result)
    (on_failure cb).

Definition execute (cb : t) (fn : operation) : M string :=
  state <- gate cb ;;
  attempt cb state fn.

(** The failure counter as a reader of the store finds it at [now]:
    an absent key counts as 0. *)
Definition stored_count (now : Z) (k : string) (db : store) : option Z :=
  match find now k db with
  | None => Some 0
  | Some {| data := RString s |} => Js.parseInt s
  | Some {| data := RZSet _ |} => None
  end.

(** A stored string value, whatever its expiry. *)
Definition holds (now : Z) (k v : string) (db : store) : Prop :=
  exists ttl, find now k db = Some {| data := RString v; expires_at := ttl |}.

(** The world once [setState ('HALF_OPEN')] has run on [w]. *)
Definition half_open (cb : t) (w : world) : world :=
  with_redis
    (<[stateKey cb := {| data := RString "HALF_OPEN"; expires_at := None |}]>
       (redis w)) w.

(** Sample data: a breaker with the default settings, a store in which
    it opened at instant 1000 after five failures, and two operations. *)
Definition cb0 : t :=
  constructor "api" {| opt_failureThreshold := None; opt_resetTimeout := None;
                       opt_monitoringPeriod := None |}.

Definition opened_at_1000 : store :=
  <[stateKey cb0 := {| data := RString "OPEN"; expires_at := None |}]>
    (<[lastFailureKey cb0 := {| data := RString "1000"; expires_at := None |}]>
       (<[failureKey cb0 := {| data := RString "5"; expires_at := Some 121000 |}]> ∅)).

Definition world_at (now : Z) (db : store) : world :=
  {| redis := db; redis_up := true; clock := now; console := []; invoked := 0%nat;
     timers := [] |}.

Definition op_ok : operation := fun db now => (Ok "res", db, now + 10).

Definition op_fail : operation := fun db now => (Throw (JsError "boom"), db, now + 10).

End CircuitBreaker.

(** ** middlewares/rateLimiter.middleware.js *)
Module RateLimiter.

Import Proc.
Local Open Scope proc_scope.

(** The [options] argument: an absent field takes its default. *)
Record options := {
  opt_windowMs : option Z;
  opt_maxRequests : option Z;
  opt_keyPrefix : option string
}.

Record t := {
  windowMs : Z;
  maxRequests : Z;
  keyPrefix : string
}.

Definition configure (o : options) : t :=
  {| windowMs := default (15 * 60 * 1000) (opt_windowMs o);
     maxRequests := default 100 (opt_maxRequests o);
     keyPrefix := default "ratelimit:" (opt_keyPrefix o) |}.

Definition no_options : options :=
  {| opt_windowMs := None; opt_maxRequests := None; opt_keyPrefix := None |}.

Record request := {
  ip : option string;
  remoteAddress : string
}.

(** [req.ip || req.connection.remoteAddress] *)
Definition clientId (req : request) : string :=
  match ip req with
  | Some a => if String.eqb a "" then remoteAddress req else a
  | None => remoteAddress req
  end.

Definition key (rl : t) (req : request) : string := keyPrefix rl ++ clientId req.

(** A header value: a number, or the ISO string of an instant. *)
Inductive header_value :=
| HNum (n : Z)
| HDate (instant : Z).

Record too_many := {
  success : bool;
  message : string;
  retryAfter : string;
  limit : Z;
  body_windowMs : Z
}.

(** How the middleware leaves the request: [next ()] was called, or a
    response was sent; either way with the headers set so far. *)
Inductive outcome :=
| Next (headers : list (string * header_value))
| Respond (headers : list (string * header_value)) (status : Z) (body : too_many).

(** The four commands queued on the MULTI block, lines 28-38. *)
Definition window_commands (rl : t) (req : request) (now : Z) : list command :=
  let windowStart := now - windowMs rl in
  [ ZREMRANGEBYSCORE (key rl req) 0 windowStart;
    ZADD (key rl req) now (Js.toString now);
    ZCARD (key rl req);
    EXPIRE (key rl req) (Js.ceil_div (windowMs rl) 1000) ].

(** [results[2]], the reply of ZCARD.  [exec] throws unless every command
    of the block replied without error, so the default is never read. *)
Definition zCard_result (results : list reply) : Z :=
  match results !! 2%nat with
  | Some (RInt n) => n
  | _ => 0
  end.

(** Lines 43-61: the headers and the verdict on [requestCount]. *)
Definition verdict (rl : t) (now requestCount : Z) : outcome :=
  let headers :=
    [ ("X-RateLimit-Limit", HNum (maxRequests rl));
      ("X-RateLimit-Remaining", HNum (Z.max 0 (maxRequests rl - requestCount)));
      ("X-RateLimit-Reset", HDate (now + windowMs rl)) ] in
  if maxRequests rl <? requestCount then
    let retryAfter := Js.ceil_div (windowMs rl) 1000 in
    Respond (headers ++ [("Retry-After", HNum retryAfter)]) 429
      {| success := false;
         message := "Too many requests, please try again later";
         retryAfter := Js.toString retryAfter ++ " seconds";
         limit := maxRequests rl;
         body_windowMs := windowMs rl |}
  else Next headers.

Definition rateLimiter (o : options) (req : request) : M outcome :=
  let rl := configure o in
  try_catch
    (now <- dateNow ;;
     results <- exec (window_commands rl req now) ;;
     let requestCount := zCard_result results in
     ret (verdict rl now requestCount))
    (fun error =>
       log "Rate limiter error:" ;;;
       ret (Next [])).

Definition strictRateLimiter : request -> M outcome :=
  rateLimiter {| opt_windowMs := Some (60 * 1000); opt_maxRequests := Some 10;
                 opt_keyPrefix := Some "ratelimit:strict:" |}.

Definition lenientRateLimiter : request -> M outcome :=
  rateLimiter {| opt_windowMs := Some (60 * 60 * 1000); opt_maxRequests := Some 1000;
                 opt_keyPrefix := Some "ratelimit:lenient:" |}.

(** The client's window as a reader of the store finds it at [now]. *)
Definition window_of (now : Z) (k : string) (db : store) : gmap string Z :=
  match find now k db with
  | Some {| data := RZSet m |} => m
  | _ => ∅
  end.

(** The key is free for a sorted set: absent, expired, or a sorted set. *)
Definition zset_or_absent (now : Z) (k : string) (db : store) : Prop :=
  match find now k db with
  | Some {| data := RString _ |} => False
  | _ => True
  end.

(** The window a check at [now] leaves: pruned, then with [now] added. *)
Definition slide (rl : t) (now : Z) (m : gmap string Z) : gmap string Z :=
  <[Js.toString now := now]> (zremrange 0 (now - windowMs rl) m).

(** The same client calling at the given instants, one request after the
    other, nothing else touching the store: the outcomes, first first. *)
Fixpoint serve (o : options) (req : request) (instants : list Z) (w : world)
  : list (result outcome) * world :=
  match instants with
  | [] => ([], w)
  | now :: rest =>
      let '(r, w1) := rateLimiter o req (with_clock now w) in
      let '(rs, w2) := serve o req rest w1 in
      (r :: rs, w2)
  end.

(** Sample data: one client, an empty store, and the instants 1, 2, ... *)
Definition client : request := {| ip := Some "10.0.0.7"; remoteAddress := "10.0.0.7" |}.

Definition fresh : world :=
  {| redis := ∅; redis_up := true; clock := 0; console := []; invoked := 0%nat;
     timers := [] |}.

Definition unreachable : world :=
  {| redis := ∅; redis_up := false; clock := 0; console := []; invoked := 0%nat;
     timers := [] |}.

Definition ticks (n : nat) : list Z := map Z.of_nat (seq 1 n).

(** The options of [strictRateLimiter]; a client that has spent its ten
    requests at instants 1 to 10 and calls again at instant 11; and the
    body of the 429 response of that limiter. *)
Definition strict : options :=
  {| opt_windowMs := Some (60 * 1000); opt_maxRequests := Some 10;
     opt_keyPrefix := Some "ratelimit:strict:" |}.

Definition busy : world := with_clock 11 (serve strict client (ticks 10) fresh).2.

Definition busy_body : too_many :=
  {| success := false;
     message := "Too many requests, please try again later";
     retryAfter := "60 seconds";
     limit := 10;
     body_windowMs := 60000 |}.

End RateLimiter.

(** ** services/oauth.service.js *)
Module OAuthService.

Import Proc.
Local Open Scope proc_scope.

Definition TOKEN_KEY : string := "oauth:access_token".
Definition TOKEN_EXPIRY_KEY : string := "oauth:token_expiry".
Definition LOCK_KEY : string := "oauth:refresh_lock".
Definition LOCK_TTL : Z := 10.

Record tokenData := {
  access_token : string;
  expires_in : Z;
  token_type : string
}.

(** The OAuth provider as the worker meets it: asked at an instant, it
    answers with token data or the request fails (transport error or the
    5000 ms timeout), after some milliseconds. *)
Definition provider : Type := Z -> option tokenData * N.

(** What surrounds a waiting worker: before its [i]-th poll the other
    workers have changed the store by [others i], and each round of the
    loop takes [late i] milliseconds over the delay it asked for (the
    round trip of EXISTS, a late timer). *)
Record surroundings := {
  others : nat -> store -> store;
  late : nat -> N
}.

Definition interfere (f : store -> store) : M unit :=
  fun w => (Ok tt, with_redis (f (redis w)) w).

(** Code with a loop or a recursive call runs on fuel: [None] when the
    fuel is spent before the code has returned or thrown. *)
Definition F (A : Type) : Type := world -> option (result A * world).

Definition timeout_message : string := "Timeout waiting for OAuth token refresh lock".

(** The delay of the [i]-th round: 100 ms, doubling, capped at 1000 ms. *)
Definition backoff (i : nat) : Z := Z.min (100 * 2 ^ Z.of_nat i) 1000.

(** The milliseconds asked of [setTimeout] before the [i]-th poll. *)
Fixpoint slept (i : nat) : Z :=
  match i with
  | O => 0
  | S j => slept j + backoff j
  end.

(** The [while] loop of [_waitForLock], entered for the [i]-th poll. *)
Fixpoint wait_loop (env : surroundings) (fuel i : nat)
  (startTime waitTime maxWaitMs : Z) : F unit :=
  fun w =>
    match fuel with
    | O => None
    | S fuel' =>
        if clock w - startTime <? maxWaitMs then
          match (interfere (others env i) ;;; send (EXISTS LOCK_KEY))%proc w with
          | (Throw e, w1) => Some (Throw e, w1)
          | (Ok (RInt 0), w1) => Some (Ok tt, w1)
          | (Ok _, w1) =>
              let '(_, w2) := sleep waitTime (late env i) w1 in
              wait_loop env fuel' (S i) startTime (Z.min (waitTime * 2) 1000)
                        maxWaitMs w2
          end
        else Some (Throw (JsError timeout_message), w)
    end.

Definition _waitForLock (env : surroundings) (maxWaitMs : Z) (fuel : nat) : F unit :=
  fun w => wait_loop env fuel 0 (clock w) 100 maxWaitMs w.

(** The [catch] of [_fetchTokenFromProvider] turns every failure into a
    mock token, so the function never throws. *)
Definition _fetchTokenFromProvider (p : provider) : M tokenData :=
  fun w =>
    let '(answer, took) := p (clock w) in
    let w1 := with_clock (clock w + Z.of_N took) w in
    match answer with
    | Some data => (Ok data, w1)
    | None =>
        (log "⚠️  OAuth provider unavailable, using mock token" ;;;
         now <- dateNow ;;
         ret {| access_token := "mock_token_" ++ Js.toString now;
                expires_in := 3600;
                token_type := "Bearer" |})%proc w1
    end.

(** [_refreshToken]; [again] is the call [this.getAccessToken ()] of
    line 46. *)
Definition _refreshToken (p : provider) (env : surroundings) (fuel : nat)
  (again : F string) : F string :=
  fun w =>
    match send (SET_NX_EX LOCK_KEY "1" LOCK_TTL) w with
    | (Throw e, w1) => Some (Throw e, w1)
    | (Ok RNil, w1) =>
        match _waitForLock env 5000 fuel w1 with
        | None => None
        | Some (Throw e, w2) => Some (Throw e, w2)
        | Some (Ok _, w2) => again w2
        end
    | (Ok _, w1) =>
        Some (try_finally
                (tokenData <- _fetchTokenFromProvider p ;;
                 send (SET TOKEN_KEY (access_token tokenData)) ;;;
                 now <- dateNow ;;
                 let expiryTime := now + (expires_in tokenData - 60) * 1000 in
                 send (SET TOKEN_EXPIRY_KEY (Js.toString expiryTime)) ;;;
                 ret (access_token tokenData))
                (send (DEL LOCK_KEY) ;;; ret tt) w1)
    end.

(** [cachedToken && tokenExpiry && Date.now () < parseInt (tokenExpiry)]:
    the cached token when the test passes. *)
Definition cached : M (option string) :=
  cachedToken <- get TOKEN_KEY ;;
  tokenExpiry <- get TOKEN_EXPIRY_KEY ;;
  now <- dateNow ;;
  ret (match cachedToken, tokenExpiry with
       | Some token, Some expiry =>
           if String.eqb token "" then None
           else if String.eqb expiry "" then None
           else match Js.parseInt expiry with
                | Some t => if now <? t then Some token else None
                | None => None
                end
       | _, _ => None
       end).

(** [getAccessToken]; [depth] bounds the nesting of the recursive calls
    and the [n]-th nested call waits in the surroundings [envs n]. *)
Fixpoint getAccessToken (p : provider) (envs : nat -> surroundings)
  (fuel depth n : nat) : F string :=
  fun w =>
    match depth with
    | O => None
    | S depth' =>
        match cached w with
        | (Throw e, w1) => Some (Throw e, w1)
        | (Ok (Some token), w1) => Some (Ok token, w1)
        | (Ok None, w1) =>
            _refreshToken p (envs n) fuel
              (getAccessToken p envs fuel depth' (S n)) w1
        end
    end.

(** How a wait that began at [startTime] has ended in the world [w']: it
    returned on a poll that found no lock, or the store failed, or it
    threw the timeout once [maxWaitMs] had elapsed. *)
Definition ended (startTime maxWaitMs : Z) (r : result unit) (w' : world) : Prop :=
  match r with
  | Ok _ => find (clock w') LOCK_KEY (redis w') = None
  | Throw e =>
      (exists re, e = ReplyError re) \/
      (e = JsError timeout_message /\ maxWaitMs <= clock w' - startTime)
  end.

(** Sample data: nobody else touches the store and nothing is late; a
    worker took the lease at instant 0 and never releases it; a provider
    that answers at once. *)
Definition calm : surroundings := {| others := fun _ db => db; late := fun _ => 0%N |}.

Definition leased : world :=
  {| redis := <[LOCK_KEY := {| data := RString "1";
                               expires_at := Some (LOCK_TTL * 1000) |}]> ∅;
     redis_up := true; clock := 0; console := []; invoked := 0%nat; timers := [] |}.

Definition prompt : provider :=
  fun _ => (Some {| access_token := "tok"; expires_in := 3600; token_type := "Bearer" |}, 0%N).

End OAuthService.

(** ** The webhook route: config/init-db.js, routes/webhook.routes.js,
    middlewares/idempotency.middleware.js, controllers/webhook.controller.js
    and services/webhook.service.js

    A request to POST /webhook/callback is served by a worker that runs
    from one [await] to the next; between two of them any other worker may
    run.  A worker is therefore a control point ([pc]) and [step] runs it
    up to its next [await]: one statement against the table, or the
    business logic.  Serving a request alone is stepping until [Done]. *)
Module Webhook.

Inductive event_status := pending | processed | failed.

(** A row of [webhook_events]; [created_at] and [updated_at], which the
    code never reads, are left out. *)
Record webhook_event := {
  id : Z;
  event_id : string;
  event_type : string;
  payload : string;
  status : event_status;
  retry_count : Z;
  processed_at : option Z
}.

(** [error.code] of a rejected query. *)
Inductive db_error :=
| ER_DUP_ENTRY
| ER_DATA_TOO_LONG
| ECONNREFUSED.

(** The text columns of the table are VARCHAR columns of character set
    utf8mb4 under the collation utf8mb4_unicode_ci: two values are equal,
    for [WHERE event_id = ?] and for the UNIQUE index alike, when their
    collation weights are equal, and a column holds a bounded number of
    characters.  The collation is a parameter of the model: [weight s] is
    the weight string of [s] and [characters s] the number of characters
    of [s]. *)
Class Collation := {
  weight : string -> string;
  characters : string -> nat
}.

(** The MySQL server and the process around it: the table with its
    AUTO_INCREMENT counter, whether the pool can reach the server, the
    instant [NOW ()] returns, the console, and how many times the business
    logic of [processEvent] has been entered. *)
Record world := {
  table : list webhook_event;
  auto_increment : Z;
  db_up : bool;
  now : Z;
  console : list string;
  business_runs : nat
}.

Definition with_table (rows : list webhook_event) (w : world) : world :=
  {| table := rows; auto_increment := auto_increment w; db_up := db_up w;
     now := now w; console := console w; business_runs := business_runs w |}.

Definition log (line : string) (w : world) : world :=
  {| table := table w; auto_increment := auto_increment w; db_up := db_up w;
     now := now w; console := line :: console w;
     business_runs := business_runs w |}.

Section Collated.
Context {collation : Collation}.

(** [event_id = ?] *)
Definition has_event_id (eid : string) (r : webhook_event) : bool :=
  String.eqb (weight (event_id r)) (weight eid).

(** [event_id VARCHAR(255)], [event_type VARCHAR(100)] *)
Definition fits (eid etype : string) : bool :=
  (characters eid <=? 255)%nat && (characters etype <=? 100)%nat.

(** [SELECT id, status, processed_at FROM webhook_events WHERE event_id = ?] *)
Definition query_select (eid : string) (w : world)
  : db_error + list webhook_event :=
  if db_up w then inr (filter (fun r => has_event_id eid r = true) (table w))
  else inl ECONNREFUSED.

(** [INSERT INTO webhook_events (event_id, event_type, payload, status)
    VALUES (?, ?, ?, 'pending')]: refused when a value is too long for its
    column (the server runs in strict mode, its default), and by the
    UNIQUE constraint on [event_id] when a row has it; otherwise the row
    takes the next id, [retry_count] 0 and a NULL [processed_at]. *)
Definition query_insert (eid etype json : string) (w : world)
  : (db_error + Z) * world :=
  if db_up w then
    if negb (fits eid etype) then (inl ER_DATA_TOO_LONG, w)
    else if existsb (has_event_id eid) (table w) then (inl ER_DUP_ENTRY, w)
    else
      (inr (auto_increment w),
       {| table := table w ++
                   [ {| id := auto_increment w; event_id := eid;
                        event_type := etype; payload := json;
                        status := pending; retry_count := 0;
                        processed_at := None |} ];
          auto_increment := auto_increment w + 1; db_up := db_up w;
          now := now w; console := console w;
          business_runs := business_runs w |})
  else (inl ECONNREFUSED, w).

(** [WHERE id = ?]: the driver sends [undefined] as NULL, and [id = NULL]
    holds for no row. *)
Definition where_id (key : option Z) (r : webhook_event) : bool :=
  match key with
  | Some k => id r =? k
  | None => false
  end.

(** [UPDATE webhook_events SET ... WHERE id = ?] *)
Definition query_update (set : webhook_event -> webhook_event) (key : option Z)
  (w : world) : (db_error + unit) * world :=
  if db_up w then
    (inr tt,
     with_table (map (fun r => if where_id key r then set r else r) (table w)) w)
  else (inl ECONNREFUSED, w).

(** [SET retry_count = retry_count + 1] *)
Definition bump_retry (r : webhook_event) : webhook_event :=
  {| id := id r; event_id := event_id r; event_type := event_type r;
     payload := payload r; status := status r;
     retry_count := retry_count r + 1; processed_at := processed_at r |}.

(** [SET status = 'processed', processed_at = NOW ()] *)
Definition set_processed (at_instant : Z) (r : webhook_event) : webhook_event :=
  {| id := id r; event_id := event_id r; event_type := event_type r;
     payload := payload r; status := processed;
     retry_count := retry_count r; processed_at := Some at_instant |}.

(** [SET status = 'failed'] *)
Definition set_failed (r : webhook_event) : webhook_event :=
  {| id := id r; event_id := event_id r; event_type := event_type r;
     payload := payload r; status := failed;
     retry_count := retry_count r; processed_at := processed_at r |}.

(** *** Requests and responses *)

(** [req.body.data]: absent, [null], or an object of string fields. *)
Inductive data_field :=
| DataAbsent
| DataNull
| DataObject (fields : list (string * string)).

(** The JSON body: the three fields the code reads ([event_id] and
    [event_type] are strings, [None] when absent or null, which the code
    does not tell apart) and its [JSON.stringify]. *)
Record body := {
  body_event_id : option string;
  body_event_type : option string;
  body_data : data_field;
  body_json : string
}.

(** [req], with the properties the middleware sets on it. *)
Record request := {
  req_body : body;
  eventDbId : option Z;
  isRetry : bool;
  existingEventId : option Z
}.

Inductive jval :=
| JUndefined
| JNull
| JStr (s : string)
| JBool (b : bool)
| JObj (fields : list (string * string)).

Fixpoint prop (key : string) (fields : list (string * string)) : jval :=
  match fields with
  | [] => JUndefined
  | (k, v) :: rest => if String.eqb k key then JStr v else prop key rest
  end.

Definition text (v : jval) : string :=
  match v with
  | JUndefined => "undefined"
  | JNull => "null"
  | JStr s => s
  | JBool true => "true"
  | JBool false => "false"
  | JObj _ => "[object Object]"
  end.

Definition processed_data : Type := list (string * jval).

Inductive exn :=
| TypeError (message : string)
| QueryError (e : db_error).

Definition error_message (e : exn) : string :=
  match e with
  | TypeError m => m
  | QueryError ER_DUP_ENTRY => "Duplicate entry"
  | QueryError ER_DATA_TOO_LONG => "Data too long for column"
  | QueryError ECONNREFUSED => "connect ECONNREFUSED"
  end.

(** The responses of the route, by the [res.status (...).json (...)] that
    sends them. *)
Inductive response :=
| MissingEventId
| AlreadyProcessed (eid : string) (at_instant : option Z)
| BeingProcessed (eid : string)
| DuplicateDetected (eid : string)
| IdempotencyFailed
| Processed (eid : option string) (data : processed_data)
| ProcessingFailed (error : string).

Definition status_code (r : response) : Z :=
  match r with
  | MissingEventId => 400
  | AlreadyProcessed _ _ => 200
  | BeingProcessed _ => 409
  | DuplicateDetected _ => 200
  | IdempotencyFailed => 500
  | Processed _ _ => 200
  | ProcessingFailed _ => 500
  end.

Definition success (r : response) : bool :=
  match r with
  | AlreadyProcessed _ _ | DuplicateDetected _ | Processed _ _ => true
  | _ => false
  end.

Definition message (r : response) : string :=
  match r with
  | MissingEventId => "Missing event_id in webhook payload"
  | AlreadyProcessed _ _ => "Event already processed (idempotent response)"
  | BeingProcessed _ => "Event is currently being processed"
  | DuplicateDetected _ => "Event already processed (duplicate detected)"
  | IdempotencyFailed => "Failed to verify event idempotency"
  | Processed _ _ => "Webhook processed successfully"
  | ProcessingFailed _ => "Failed to process webhook"
  end.

(** *** services/webhook.service.js: the business logic *)

(** [data.<key>] on a [data] that is [undefined] or [null]. *)
Definition reading (what key : string) : exn :=
  TypeError ("Cannot read properties of " ++ what ++ " (reading '" ++ key ++ "')").

(** A handler evaluates [data.<key>] first, which throws on a missing or
    null [data], then logs and returns. *)
Definition _handleOrderCreated (data : data_field) (w : world)
  : (exn + processed_data) * world :=
  match data with
  | DataAbsent => (inl (reading "undefined" "order_id"), w)
  | DataNull => (inl (reading "null" "order_id"), w)
  | DataObject d =>
      (inr [ ("order_id", prop "order_id" d); ("status", JStr "confirmed");
             ("processed", JBool true) ],
       log ("📦 Processing order.created: " ++ text (prop "order_id" d)) w)
  end.

Definition _handleOrderUpdated (data : data_field) (w : world)
  : (exn + processed_data) * world :=
  match data with
  | DataAbsent => (inl (reading "undefined" "order_id"), w)
  | DataNull => (inl (reading "null" "order_id"), w)
  | DataObject d =>
      (inr [ ("order_id", prop "order_id" d); ("status", JStr "updated");
             ("processed", JBool true) ],
       log ("🔄 Processing order.updated: " ++ text (prop "order_id" d)) w)
  end.

Definition _handlePaymentCompleted (data : data_field) (w : world)
  : (exn + processed_data) * world :=
  match data with
  | DataAbsent => (inl (reading "undefined" "payment_id"), w)
  | DataNull => (inl (reading "null" "payment_id"), w)
  | DataObject d =>
      (inr [ ("payment_id", prop "payment_id" d); ("status", JStr "captured");
             ("processed", JBool true) ],
       log ("💳 Processing payment.completed: " ++ text (prop "payment_id" d)) w)
  end.

Definition data_value (data : data_field) : jval :=
  match data with
  | DataObject d => JObj d
  | DataNull => JNull
  | DataAbsent => JUndefined
  end.

(** [processEvent], lines 58-72: the [switch] on [event_type]. *)
Definition business (b : body) (w : world) : (exn + processed_data) * world :=
  let w1 :=
    {| table := table w; auto_increment := auto_increment w; db_up := db_up w;
       now := now w; console := console w;
       business_runs := S (business_runs w) |} in
  let unhandled : (exn + processed_data) * world :=
    (inr [ ("message", JStr "Event type not handled");
           ("data", data_value (body_data b)) ], w1) in
  match body_event_type b with
  | Some event_type =>
      if String.eqb event_type "order.created" then
        _handleOrderCreated (body_data b) w1
      else if String.eqb event_type "order.updated" then
        _handleOrderUpdated (body_data b) w1
      else if String.eqb event_type "payment.completed" then
        _handlePaymentCompleted (body_data b) w1
      else unhandled
  | None => unhandled
  end.

(** *** The worker *)

Inductive pc :=
| AtSelect
| AtInsert
| AtRetryUpdate
| AtBusiness
| AtMarkProcessed (processedData : processed_data)
| AtMarkFailed (error : exn)
| Done (r : response).

Record worker := { req : request; at_ : pc }.

(** [!eventId]: a missing identifier and the empty string are falsy. *)
Definition eventId (r : request) : string := default "" (body_event_id (req_body r)).

Definition falsy (s : option string) : bool :=
  match s with
  | Some s => String.eqb s ""
  | None => true
  end.

(** [req.body.event_type || 'unknown']: a missing type and the empty
    string are falsy. *)
Definition stored_event_type (b : body) : string :=
  match body_event_type b with
  | Some t => if String.eqb t "" then "unknown" else t
  | None => "unknown"
  end.

(** The middleware up to its first [await], lines 15-26. *)
Definition start (b : body) : worker :=
  let r := {| req_body := b; eventDbId := None; isRetry := false;
              existingEventId := None |} in
  {| req := r; at_ := if falsy (body_event_id b) then Done MissingEventId else AtSelect |}.

(** [next ()]: [handleCallback] reads [req.eventDbId] and [req.isRetry]
    and calls [processEvent], which runs up to its first [await]. *)
Definition next (r : request) : worker :=
  {| req := r; at_ := if isRetry r then AtRetryUpdate else AtBusiness |}.

(** The [catch] of the middleware, lines 72-87. *)
Definition middleware_catch (r : request) (e : db_error) (w : world) : worker * world :=
  match e with
  | ER_DUP_ENTRY => ({| req := r; at_ := Done (DuplicateDetected (eventId r)) |}, w)
  | _ => ({| req := r; at_ := Done IdempotencyFailed |},
          log "Idempotency check failed:" w)
  end.

(** The [catch] of [handleCallback]. *)
Definition controller_catch (r : request) (e : exn) (w : world) : worker * world :=
  ({| req := r; at_ := Done (ProcessingFailed (error_message e)) |},
   log "Webhook processing error:" w).

Definition step (t : worker) (w : world) : worker * world :=
  let r := req t in
  match at_ t with
  | AtSelect =>
      (* middleware, lines 26-57 *)
      match query_select (eventId r) w with
      | inl e => middleware_catch r e w
      | inr [] => ({| req := r; at_ := AtInsert |}, w)
      | inr (existingEvent :: _) =>
          match status existingEvent with
          | processed =>
              ({| req := r;
                  at_ := Done (AlreadyProcessed (eventId r)
                                 (processed_at existingEvent)) |}, w)
          | failed =>
              (next {| req_body := req_body r; eventDbId := eventDbId r;
                       isRetry := true;
                       existingEventId := Some (id existingEvent) |}, w)
          | pending => ({| req := r; at_ := Done (BeingProcessed (eventId r)) |}, w)
          end
      end
  | AtInsert =>
      (* middleware, lines 60-71 *)
      match query_insert (eventId r) (stored_event_type (req_body r))
                         (body_json (req_body r)) w with
      | (inl e, w1) => middleware_catch r e w1
      | (inr insertId, w1) =>
          (next {| req_body := req_body r; eventDbId := Some insertId;
                   isRetry := isRetry r;
                   existingEventId := existingEventId r |}, w1)
      end
  | AtRetryUpdate =>
      (* processEvent, lines 51-56 *)
      match query_update bump_retry (eventDbId r) w with
      | (inl e, w1) => ({| req := r; at_ := AtMarkFailed (QueryError e) |}, w1)
      | (inr _, w1) => ({| req := r; at_ := AtBusiness |}, w1)
      end
  | AtBusiness =>
      (* processEvent, lines 58-72 *)
      match business (req_body r) w with
      | (inl e, w1) => ({| req := r; at_ := AtMarkFailed e |}, w1)
      | (inr processedData, w1) =>
          ({| req := r; at_ := AtMarkProcessed processedData |}, w1)
      end
  | AtMarkProcessed processedData =>
      (* processEvent, lines 74-86, then handleCallback, lines 25-30 *)
      match query_update (set_processed (now w)) (eventDbId r) w with
      | (inl e, w1) => ({| req := r; at_ := AtMarkFailed (QueryError e) |}, w1)
      | (inr _, w1) =>
          ({| req := r;
              at_ := Done (Processed (body_event_id (req_body r)) processedData) |},
           w1)
      end
  | AtMarkFailed error =>
      (* processEvent, lines 87-97, then handleCallback, lines 31-39 *)
      match query_update set_failed (eventDbId r) w with
      | (inl e, w1) => controller_catch r (QueryError e) w1
      | (inr _, w1) => controller_catch r error w1
      end
  | Done _ => (t, w)
  end.

Fixpoint steps (n : nat) (t : worker) (w : world) : worker * world :=
  match n with
  | O => (t, w)
  | S m => let '(t1, w1) := step t w in steps m t1 w1
  end.

(** [idempotencyMiddleware] with nothing else running: SELECT, then the
    INSERT when no row was found. *)
Definition idempotencyMiddleware (b : body) (w : world) : worker * world :=
  let '(t1, w1) := step (start b) w in
  match at_ t1 with
  | AtInsert => step t1 w1
  | _ => (t1, w1)
  end.

(** The whole route with nothing else running; no request takes more than
    four statements. *)
Definition serve (b : body) (w : world) : worker * world := steps 4 (start b) w.

Definition response_of (t : worker) : option response :=
  match at_ t with
  | Done r => Some r
  | _ => None
  end.

(** *** Many workers on one table *)

Record system := { shared : world; workers : list worker }.

(** Worker [i] runs up to its next [await]. *)
Definition sys_step (i : nat) (s : system) : system :=
  match workers s !! i with
  | Some t =>
      let '(t1, w1) := step t (shared s) in
      {| shared := w1; workers := <[i := t1]> (workers s) |}
  | None => s
  end.

(** A schedule names the worker that runs next, over and over. *)
Definition run_schedule (schedule : list nat) (s : system) : system :=
  fold_left (fun s i => sys_step i s) schedule s.

(** The turns worker [i] gets in a schedule. *)
Definition turns (i : nat) (schedule : list nat) : nat :=
  count_occ Nat.eq_dec schedule i.

(** [n] deliveries of the same event arrive together. *)
Definition submit (n : nat) (b : body) (w : world) : system :=
  {| shared := w; workers := replicate n (start b) |}.

Definition responses (s : system) : list response := omap response_of (workers s).

Definition all_done (s : system) : Prop :=
  Forall (fun t => is_Some (response_of t)) (workers s).

(** The three answers a delivery can get in the words of the error
    taxonomy. *)
Definition reports_new (r : response) : bool :=
  match r with Processed _ _ => true | _ => false end.

Definition reports_completed (r : response) : bool :=
  match r with AlreadyProcessed _ _ | DuplicateDetected _ => true | _ => false end.

Definition reports_in_flight (r : response) : bool :=
  match r with BeingProcessed _ => true | _ => false end.

(** At most one row per event identifier, as the UNIQUE index compares
    them. *)
Definition unique (rows : list webhook_event) : Prop :=
  NoDup (map (fun r => weight (event_id r)) rows).

(** The values the INSERT of a delivery of [b] sends fit their columns. *)
Definition storable (b : body) : Prop :=
  fits (default "" (body_event_id b)) (stored_event_type b) = true.

(** The business logic returns on this body. *)
Definition business_ok (b : body) : Prop :=
  forall w, exists data w1, business b w = (inr data, w1).

(** The request as the middleware receives it. *)
Definition incoming (b : body) : request :=
  {| req_body := b; eventDbId := None; isRetry := false; existingEventId := None |}.

(** The row a first sighting of [b] inserts in [w]. *)
Definition pending_row (b : body) (w : world) : webhook_event :=
  {| id := auto_increment w;
     event_id := default "" (body_event_id b);
     event_type := stored_event_type b;
     payload := body_json b;
     status := pending; retry_count := 0; processed_at := None |}.

(** The world once that row is inserted. *)
Definition inserted (b : body) (w : world) : world :=
  {| table := table w ++ [pending_row b w];
     auto_increment := auto_increment w + 1; db_up := db_up w;
     now := now w; console := console w;
     business_runs := business_runs w |}.

(** The world once the rows with id [k] are marked processed. *)
Definition marked_processed (k : Z) (w : world) : world :=
  with_table (map (fun r => if where_id (Some k) r then set_processed (now w) r else r)
                  (table w)) w.

(** The rows a SELECT on the identifier of [b] finds in [w]. *)
Definition sightings (b : body) (w : world) : list webhook_event :=
  filter (fun r => has_event_id (default "" (body_event_id b)) r = true) (table w).

(** *** Reading a system of workers that all deliver the body [b]

    A worker owns the event once its INSERT has gone through: it is about
    to run the business logic, has run it, or has answered 200 "Webhook
    processed successfully". *)
Definition tally (f : worker -> nat) (l : list worker) : nat := sum_list (map f l).

Definition owner (t : worker) : nat :=
  match at_ t with
  | AtBusiness | AtMarkProcessed _ | Done (Processed _ _) => 1
  | _ => 0
  end.

Definition ran (t : worker) : nat :=
  match at_ t with
  | AtMarkProcessed _ | Done (Processed _ _) => 1
  | _ => 0
  end.

Definition finished (t : worker) : nat :=
  match at_ t with
  | Done (Processed _ _) => 1
  | _ => 0
  end.

(** The statements a worker still has to run on the way SELECT, INSERT,
    business logic, UPDATE. *)
Definition todo (t : worker) : nat :=
  match at_ t with
  | AtSelect => 4
  | AtInsert | AtRetryUpdate => 3
  | AtBusiness => 2
  | AtMarkProcessed _ | AtMarkFailed _ => 1
  | Done _ => 0
  end.

(** The request of the worker whose INSERT returned [insertId]. *)
Definition claimed (b : body) (insertId : Z) : request :=
  {| req_body := b; eventDbId := Some insertId; isRetry := false;
     existingEventId := None |}.

(** Where a worker delivering [b] can be, given the rows [sel] that carry
    the identifier of [b]. *)
Definition placed (b : body) (sel : list webhook_event) (t : worker) : Prop :=
  match at_ t with
  | AtSelect | AtInsert => req t = incoming b
  | AtBusiness | AtMarkProcessed _ =>
      exists row, sel = [row] /\ req t = claimed b (id row)
  | Done (Processed eid _) => sel <> [] /\ eid = body_event_id b
  | Done (AlreadyProcessed _ _) | Done (BeingProcessed _)
  | Done (DuplicateDetected _) => sel <> []
  | _ => False
  end.

(** What holds of the system at every moment when [n] deliveries of [b],
    whose business logic returns, met a table without the identifier and
    with [runs] earlier runs of the business logic. *)
Record coherent (b : body) (runs : nat) (s : system) : Prop := {
  coherent_up : db_up (shared s) = true;
  coherent_rows : (length (sightings b (shared s)) <= 1)%nat;
  coherent_owner : tally owner (workers s) = length (sightings b (shared s));
  coherent_runs : business_runs (shared s) = (runs + tally ran (workers s))%nat;
  coherent_status :
    Forall (fun row => status row =
                       match tally finished (workers s) with
                       | O => pending
                       | S _ => processed
                       end)
           (sightings b (shared s));
  coherent_workers : Forall (placed b (sightings b (shared s))) (workers s)
}.

End Collated.

(** A collation for the examples: a character is a byte, and the letters A
    to Z weigh as a to z, which is how utf8mb4_unicode_ci compares strings
    of ASCII letters, digits and underscores. *)
Definition lower (c : Ascii.ascii) : Ascii.ascii :=
  let n := Ascii.nat_of_ascii c in
  if (65 <=? n)%nat && (n <=? 90)%nat then Ascii.ascii_of_nat (n + 32) else c.

Fixpoint fold_case (s : string) : string :=
  match s with
  | EmptyString => EmptyString
  | String c rest => String (lower c) (fold_case rest)
  end.

Definition ascii_ci : Collation :=
  {| weight := fold_case; characters := String.length |}.

(** Sample data: the event of the README, the same event with its [data]
    missing, with a null [data] and with an identifier too long for its
    column, an empty table, and a table whose only row is that event. *)
Definition evt_1 : body :=
  {| body_event_id := Some "evt_1";
     body_event_type := Some "order.created";
     body_data := DataObject [("order_id", "ORD-001"); ("customer", "John Doe")];
     body_json := "{...}" |}.

Definition evt_1_no_data : body :=
  {| body_event_id := Some "evt_1";
     body_event_type := Some "order.created";
     body_data := DataAbsent;
     body_json := "{...}" |}.

Definition evt_1_null_data : body :=
  {| body_event_id := Some "evt_1";
     body_event_type := Some "order.created";
     body_data := DataNull;
     body_json := "{...}" |}.

(** The event with an identifier of 256 characters. *)
Definition evt_long : body :=
  {| body_event_id := Some (String.concat "" (replicate 256 "e"));
     body_event_type := Some "order.created";
     body_data := DataObject [("order_id", "ORD-001"); ("customer", "John Doe")];
     body_json := "{...}" |}.

Definition empty_table : world :=
  {| table := []; auto_increment := 1; db_up := true; now := 1000;
     console := []; business_runs := 0%nat |}.

Definition evt_1_row (s : event_status) : webhook_event :=
  {| id := 1; event_id := "evt_1"; event_type := "order.created";
     payload := "{...}"; status := s; retry_count := 0; processed_at := None |}.

Definition evt_1_in (s : event_status) : world :=
  {| table := [evt_1_row s]; auto_increment := 2; db_up := true; now := 1000;
     console := []; business_runs := 0%nat |}.

Definition evt_1_failed : world := evt_1_in failed.

End Webhook.

(** ** utils/circuitBreaker.js: [getStats], and calls in a row *)
Module CircuitBreakerStats.

Import Proc CircuitBreaker.
Local Open Scope proc_scope.

(** The object [getStats] returns; [lastFailure] is the instant whose ISO
    string the code returns, [failureCount] is [None] for [NaN]. *)
Record stats := {
  stats_name : string;
  stats_state : string;
  stats_failureCount : option Z;
  stats_failureThreshold : Z;
  stats_lastFailure : option Z;
  stats_resetTimeout : Z;
  stats_monitoringPeriod : Z
}.

Definition make_stats (cb : t) (state : string) (failureCount lastFailure : option Z)
  : stats :=
  {| stats_name := name cb;
     stats_state := state;
     stats_failureCount := failureCount;
     stats_failureThreshold := failureThreshold cb;
     stats_lastFailure := lastFailure;
     stats_resetTimeout := resetTimeout cb;
     stats_monitoringPeriod := monitoringPeriod cb |}.

(** [new Date (NaN).toISOString ()] throws a RangeError. *)
Definition getStats (cb : t) : M stats :=
  state <- getState cb ;;
  failureCount <- getFailureCount cb ;;
  lastFailure <- get (lastFailureKey cb) ;;
  match lastFailure with
  | None => ret (make_stats cb state failureCount None)
  | Some s =>
      if String.eqb s "" then ret (make_stats cb state failureCount None)
      else match Js.parseInt s with
           | Some instant => ret (make_stats cb state failureCount (Some instant))
           | None => throw (JsError "Invalid time value")
           end
  end.

(** [k] calls of [execute] on the same operation, one after the other:
    the outcomes, first first. *)
Fixpoint execute_times (cb : t) (fn : operation) (k : nat) (w : world)
  : list (result string) * world :=
  match k with
  | O => ([], w)
  | S k' =>
      let '(r, w1) := execute cb fn w in
      let '(rs, w2) := execute_times cb fn k' w1 in
      (r :: rs, w2)
  end.

(** An operation that leaves the store alone and throws [e] after [d]
    milliseconds. *)
Definition failing (d : Z) (e : exn) : operation :=
  fun db now => (Throw e, db, now + d).

(** A store without the breaker's three keys. *)
Definition untouched (cb : t) (now : Z) (db : store) : Prop :=
  find now (stateKey cb) db = None /\
  find now (failureKey cb) db = None /\
  find now (lastFailureKey cb) db = None.

(** The breaker's keys after [k] failures counted, the last of them at the
    present instant, none of which opened the breaker: no state stored,
    and for [k > 0] a counter at [k] that expires one (rounded-up)
    monitoring period from now. *)
Definition counted (cb : t) (k : Z) (w : world) : Prop :=
  redis_up w = true /\
  find (clock w) (stateKey cb) (redis w) = None /\
  find (clock w) (failureKey cb) (redis w) =
    if k =? 0 then None
    else Some {| data := RString (Js.toString k);
                 expires_at :=
                   Some (clock w + Js.ceil_div (monitoringPeriod cb) 1000 * 1000) |}.

(** The count after one more failure, [d] milliseconds after a count of
    [k]: the counter has expired when [d] reaches its time to live. *)
Definition next_count (cb : t) (d k : Z) : Z :=
  if d <? Js.ceil_div (monitoringPeriod cb) 1000 * 1000 then k + 1 else 1.

End CircuitBreakerStats.

(** ** utils/axiosRetry.js *)
Module AxiosRetry.

(** What a rejected call throws, by the fields the wrapper reads. *)
Record error := {
  response_status : option Z;
  message : string
}.

(** [error.response?.status >= 400 && error.response?.status < 500]; a
    comparison with [undefined] is false. *)
Definition is_client_error (e : error) : bool :=
  match response_status e with
  | Some status => (400 <=? status) && (status <? 500)
  | None => false
  end.

(** What the wrapper leaves behind: how many times it has called
    [axiosConfig], the delays handed to [setTimeout] and the lines logged,
    latest first. *)
Record trace := {
  calls : nat;
  timers : list Z;
  console : list string
}.

Definition called (s : trace) : trace :=
  {| calls := S (calls s); timers := timers s; console := console s |}.

Definition retrying (line : string) (delayMs : Z) (s : trace) : trace :=
  {| calls := calls s; timers := delayMs :: timers s; console := line :: console s |}.

Definition retry_line (attempt maxRetries delayMs : Z) : string :=
  "Retry attempt " ++ Js.toString (attempt + 1) ++ "/" ++ Js.toString maxRetries
    ++ " after " ++ Js.toString delayMs ++ "ms".

(** [axiosConfig]: the call number [k] (from 0) resolves with a response
    or rejects with an error.  The wrapper returns a response or throws
    [lastError], which is [undefined] ([None]) until a call has failed. *)
Definition request : Type := nat -> string + error.

Definition outcome : Type := string + option error.

(** The [for] loop entered at [attempt], and the [throw] after it; [None]
    when the fuel is spent before the loop has ended. *)
Fixpoint attempts (axiosConfig : request) (maxRetries : Z) (fuel : nat)
  (attempt : Z) (lastError : option error) (s : trace) : option (outcome * trace) :=
  match fuel with
  | O => None
  | S fuel' =>
      if attempt <? maxRetries then
        match axiosConfig (calls s) with
        | inl response => Some (inl response, called s)
        | inr error =>
            if is_client_error error || (attempt =? maxRetries - 1) then
              Some (inr (Some error), called s)
            else
              let delayMs := 2 ^ attempt * 1000 in
              attempts axiosConfig maxRetries fuel' (attempt + 1) (Some error)
                (retrying (retry_line attempt maxRetries delayMs) delayMs (called s))
        end
      else Some (inr lastError, s)
  end.

(** [axiosWithRetry (axiosConfig, maxRetries = 3)] *)
Definition axiosWithRetry (axiosConfig : request) (maxRetries : option Z) (fuel : nat)
  (s : trace) : option (outcome * trace) :=
  attempts axiosConfig (default 3 maxRetries) fuel 0 None s.

(** The outcome of a call as the wrapper passes it on. *)
Definition passed_on (o : string + error) : outcome :=
  match o with
  | inl response => inl response
  | inr error => inr (Some error)
  end.

(** The call with this outcome is the last one the loop makes at
    [attempt]: it succeeded, or failed with a 4xx status, or was the last
    attempt allowed. *)
Definition last_call (maxRetries attempt : Z) (o : string + error) : Prop :=
  match o with
  | inl _ => True
  | inr error => is_client_error error = true \/ attempt = maxRetries - 1
  end.

(** The delays before the attempts [1 .. i]: 1000 ms doubling. *)
Definition delays (i : nat) : list Z :=
  map (fun j => 2 ^ Z.of_nat j * 1000) (seq 0 i).

(** Sample data: a service that is down for two calls (one timeout, one
    503) and then answers, and one that rejects the request with a 404. *)
Definition idle : trace := {| calls := 0; timers := []; console := [] |}.

Definition timed_out : error := {| response_status := None; message := "timeout" |}.

Definition unavailable : error :=
  {| response_status := Some 503; message := "Service Unavailable" |}.

Definition not_found : error := {| response_status := Some 404; message := "Not Found" |}.

Definition recovering : request :=
  fun k => match k with
           | O => inr timed_out
           | 1%nat => inr unavailable
           | _ => inl "products"
           end.

End AxiosRetry.

Create HintDb stable.

(* ===================================================================== *)
(** * Part II: properties                                                *)
(* ===================================================================== *)

(** ** Numbers and their decimal strings *)
Module JsFacts.

Import Js.

Lemma to_int_proper (z : Z) :
  Z.to_int z <> Decimal.Pos Decimal.Nil /\ Z.to_int z <> Decimal.Neg Decimal.Nil.
Proof.
  destruct z as [|p|p]; simpl; split; try discriminate;
    intros [= H]; exact (Unsigned.to_uint_nonnil p H).
Qed.

Lemma parseInt_toString (z : Z) : parseInt (toString z) = Some z.
Proof.
  unfold parseInt, toString.
  destruct (to_int_proper z) as [Hp Hn].
  rewrite (NilZero.isi _ Hp Hn). simpl. f_equal. apply DecimalZ.of_to.
Qed.

Lemma toString_inj (a b : Z) : toString a = toString b -> a = b.
Proof.
  intros H. apply (f_equal parseInt) in H.
  rewrite !parseInt_toString in H. congruence.
Qed.

Lemma toString_nonempty (z : Z) : String.eqb (toString z) "" = false.
Proof.
  destruct (String.eqb_spec (toString z) "") as [E|]; [|reflexivity].
  pose proof (parseInt_toString z) as H. rewrite E in H. discriminate.
Qed.

Lemma ceil_div_pos (a b : Z) : 0 < a -> 0 < b -> 0 < ceil_div a b.
Proof.
  intros Ha Hb. unfold ceil_div.
  assert ((- a) / b < 0); [|lia].
  apply Z.div_lt_upper_bound; lia.
Qed.

End JsFacts.

(** ** The Redis model *)
Module RedisFacts.
Import Redis.

Lemma find_insert_eq now k e (db : store) :
  live now e = true -> find now k (<[k := e]> db) = Some e.
Proof. intros H. unfold find. rewrite lookup_insert_eq, H. reflexivity. Qed.

Lemma find_insert_ne now k k' e (db : store) :
  k <> k' -> find now k' (<[k := e]> db) = find now k' db.
Proof. intros H. unfold find. rewrite lookup_insert_ne by exact H. reflexivity. Qed.

Lemma find_delete_eq now k (db : store) : find now k (delete k db) = None.
Proof. unfold find. rewrite lookup_delete_eq. reflexivity. Qed.

Lemma find_delete_ne now k k' (db : store) :
  k <> k' -> find now k' (delete k db) = find now k' db.
Proof. intros H. unfold find. rewrite lookup_delete_ne by exact H. reflexivity. Qed.

Lemma append_cancel (p a b : string) : p ++ a = p ++ b -> a = b.
Proof. induction p as [|c p IH]; simpl; [tauto|]. intros [= H]. auto. Qed.

End RedisFacts.

(** ** The monad *)
Module ProcFacts.
Import Proc.
Local Open Scope proc_scope.

Section Stable.
Context {X : Type} (f : world -> X).
Hypothesis f_redis : forall db w, f (with_redis db w) = f w.
Hypothesis f_console : forall l w, f (with_console l w) = f w.

Lemma stable_ret {A} (a : A) : stable f (ret a).
Proof. intros w. reflexivity. Qed.

Lemma stable_throw {A} e : stable f (@throw A e).
Proof. intros w. reflexivity. Qed.

Lemma stable_bind {A B} (m : M A) (k : A -> M B) :
  stable f m -> (forall a, stable f (k a)) -> stable f (bind m k).
Proof.
  intros Hm Hk w. unfold bind. specialize (Hm w).
  destruct (m w) as [[a|e] w1]; simpl in *; [rewrite Hk|]; exact Hm.
Qed.

Lemma stable_try_catch {A} (m : M A) (h : exn -> M A) :
  stable f m -> (forall e, stable f (h e)) -> stable f (try_catch m h).
Proof.
  intros Hm Hh w. unfold try_catch. specialize (Hm w).
  destruct (m w) as [[a|e] w1]; simpl in *; [|rewrite Hh]; exact Hm.
Qed.

Lemma stable_send c : stable f (send c).
Proof.
  intros w. unfold send. destruct (redis_up w); [|reflexivity].
  destruct (run (clock w) c (redis w)) as [[] db]; simpl; apply f_redis.
Qed.

Lemma stable_exec cs : stable f (exec cs).
Proof.
  intros w. unfold exec. destruct (redis_up w); [|reflexivity].
  destruct (run_all (clock w) cs (redis w)) as [rs db].
  destruct (first_error rs); simpl; apply f_redis.
Qed.

Lemma stable_log s : stable f (log s).
Proof. intros w. unfold log. simpl. apply f_console. Qed.

Lemma stable_dateNow : stable f dateNow.
Proof. intros w. reflexivity. Qed.

Lemma stable_get k : stable f (get k).
Proof. apply stable_bind; [apply stable_send|intros; apply stable_ret]. Qed.

End Stable.

End ProcFacts.

#[export] Hint Resolve ProcFacts.stable_ret ProcFacts.stable_throw ProcFacts.stable_bind
  ProcFacts.stable_try_catch ProcFacts.stable_send ProcFacts.stable_exec
  ProcFacts.stable_log ProcFacts.stable_dateNow ProcFacts.stable_get : stable.

(** ** utils/circuitBreaker.js *)
Module CircuitBreakerProps.
Import Proc CircuitBreaker RedisFacts JsFacts ProcFacts.

Lemma stable_setState {X} (f : world -> X) cb s :
  (forall db w, f (with_redis db w) = f w) -> stable f (setState cb s).
Proof. intros. unfold setState. auto with stable. Qed.

Lemma stable_close cb : stable invoked (close cb).
Proof. unfold close, setState. auto 10 with stable. Qed.

Lemma stable_open cb : stable invoked (open cb).
Proof. unfold open, setState. auto 10 with stable. Qed.

Lemma stable_recordSuccess cb : stable invoked (recordSuccess cb).
Proof. unfold recordSuccess. auto with stable. Qed.

Lemma stable_recordFailure cb : stable invoked (recordFailure cb).
Proof. unfold recordFailure. auto 10 with stable. Qed.

Lemma stable_getFailureCount cb : stable invoked (getFailureCount cb).
Proof. unfold getFailureCount. auto 10 with stable. Qed.

Lemma stable_getState cb : stable invoked (getState cb).
Proof. unfold getState. auto 10 with stable. Qed.

#[local] Hint Resolve stable_close stable_open stable_recordSuccess
  stable_recordFailure stable_getFailureCount stable_getState : stable.

Lemma state_ne_failure cb : stateKey cb <> failureKey cb.
Proof. unfold stateKey, failureKey. intros H. apply append_cancel in H. discriminate. Qed.

Lemma state_ne_last cb : stateKey cb <> lastFailureKey cb.
Proof. unfold stateKey, lastFailureKey. intros H. apply append_cancel in H. discriminate. Qed.

Lemma failure_ne_last cb : failureKey cb <> lastFailureKey cb.
Proof. unfold failureKey, lastFailureKey. intros H. apply append_cancel in H. discriminate. Qed.

(** Reading a key that holds a string. *)
Lemma get_holds k v w :
  redis_up w = true -> holds (clock w) k v (redis w) ->
  get k w = (Ok (Some v), w).
Proof.
  intros Hup [ttl Hf]. unfold get, bind, send, ret. rewrite Hup. simpl.
  rewrite Hf. simpl. destruct w; reflexivity.
Qed.

Lemma get_absent k w :
  redis_up w = true -> find (clock w) k (redis w) = None ->
  get k w = (Ok None, w).
Proof.
  intros Hup Hf. unfold get, bind, send, ret. rewrite Hup. simpl.
  rewrite Hf. simpl. destruct w; reflexivity.
Qed.

Lemma getState_holds cb v w :
  redis_up w = true -> holds (clock w) (stateKey cb) v (redis w) ->
  v <> "" ->
  getState cb w = (Ok v, w).
Proof.
  intros Hup Hh Hv. unfold getState, bind. rewrite (get_holds _ _ _ Hup Hh).
  unfold ret. destruct (String.eqb_spec v ""); congruence.
Qed.

Lemma canAttemptReset_recorded cb t0 w :
  redis_up w = true ->
  holds (clock w) (lastFailureKey cb) (Js.toString t0) (redis w) ->
  canAttemptReset cb w = (Ok (resetTimeout cb <=? clock w - t0), w).
Proof.
  intros Hup Hh. unfold canAttemptReset, bind. rewrite (get_holds _ _ _ Hup Hh).
  rewrite toString_nonempty. unfold dateNow, ret. rewrite parseInt_toString. reflexivity.
Qed.

Lemma gate_open cb t0 w :
  redis_up w = true ->
  holds (clock w) (stateKey cb) "OPEN" (redis w) ->
  holds (clock w) (lastFailureKey cb) (Js.toString t0) (redis w) ->
  gate cb w =
    if resetTimeout cb <=? clock w - t0 then (Ok "OPEN", half_open cb w)
    else (Throw (JsError (open_message cb)), w).
Proof.
  intros Hup Hs Hl. unfold gate, bind.
  rewrite (getState_holds _ _ _ Hup Hs) by discriminate. simpl.
  rewrite (canAttemptReset_recorded _ _ _ Hup Hl).
  destruct (resetTimeout cb <=? clock w - t0); [|reflexivity].
  unfold setState, bind, send, throw, ret. rewrite Hup. simpl. reflexivity.
Qed.

Lemma stable_on_success cb st v : stable invoked (on_success cb st v).
Proof. unfold on_success. destruct (String.eqb st "HALF_OPEN"); auto with stable. Qed.

Lemma stable_on_failure cb e : stable invoked (on_failure cb e).
Proof.
  unfold on_failure. apply stable_bind; auto with stable.
  intros _. apply stable_bind; auto with stable.
  intros [n|]; [destruct (failureThreshold cb <=? n)|]; auto with stable.
Qed.

Lemma attempt_step cb st fn w :
  attempt cb st fn w =
    match invoke fn w with
    | (Ok v, w1) => try_catch (on_success cb st v) (on_failure cb) w1
    | (Throw e, w1) => on_failure cb e w1
    end.
Proof.
  unfold attempt, try_catch, bind. destruct (invoke fn w) as [[v|e] w1]; reflexivity.
Qed.

Lemma attempt_invokes_once cb st fn w :
  invoked (attempt cb st fn w).2 = S (invoked w).
Proof.
  rewrite attempt_step.
  assert (Hi : invoked (invoke fn w).2 = S (invoked w)).
  { unfold invoke. destruct (fn _ _) as [[r db] t']. reflexivity. }
  destruct (invoke fn w) as [[v|e] w1]; simpl in Hi; rewrite <- Hi.
  - apply (stable_try_catch invoked); auto using stable_on_success, stable_on_failure.
  - apply stable_on_failure.
Qed.

Lemma holds_insert_eq now k v ttl (db : store) :
  live now {| data := RString v; expires_at := ttl |} = true ->
  holds now k v (<[k := {| data := RString v; expires_at := ttl |}]> db).
Proof. intros H. exists ttl. apply find_insert_eq. exact H. Qed.

Lemma holds_insert_ne now k k' v e (db : store) :
  k <> k' -> holds now k' v db -> holds now k' v (<[k := e]> db).
Proof. intros Hne [ttl H]. exists ttl. rewrite find_insert_ne; assumption. Qed.

Lemma gate_passes cb v w :
  redis_up w = true -> holds (clock w) (stateKey cb) v (redis w) ->
  v <> "" -> v <> "OPEN" ->
  gate cb w = (Ok v, w).
Proof.
  intros Hup Hs Hne Hno. unfold gate, bind.
  rewrite (getState_holds _ _ _ Hup Hs Hne).
  destruct (String.eqb_spec v "OPEN"); [contradiction|reflexivity].
Qed.

Lemma gate_blocks cb t0 w fn :
  redis_up w = true ->
  holds (clock w) (stateKey cb) "OPEN" (redis w) ->
  holds (clock w) (lastFailureKey cb) (Js.toString t0) (redis w) ->
  clock w - t0 < resetTimeout cb ->
  execute cb fn w = (Throw (JsError (open_message cb)), w).
Proof.
  intros Hup Hs Hl Hlt. unfold execute, bind.
  rewrite (gate_open _ _ _ Hup Hs Hl).
  destruct (Z.leb_spec (resetTimeout cb) (clock w - t0)); [lia|reflexivity].
Qed.

Lemma recordFailure_counts cb n w :
  redis_up w = true -> 0 < monitoringPeriod cb ->
  stored_count (clock w) (failureKey cb) (redis w) = Some n ->
  exists db,
    recordFailure cb w = (Ok tt, with_redis db w) /\
    holds (clock w) (failureKey cb) (Js.toString (n + 1)) db /\
    holds (clock w) (lastFailureKey cb) (Js.toString (clock w)) db /\
    (forall k, k <> failureKey cb -> k <> lastFailureKey cb ->
               find (clock w) k db = find (clock w) k (redis w)).
Proof.
  intros Hup Hmp Hc.
  pose proof (ceil_div_pos _ 1000 Hmp ltac:(lia)) as Hsec.
  set (secs := Js.ceil_div (monitoringPeriod cb) 1000) in *.
  assert (Hlive : forall s, live (clock w)
            {| data := RString s; expires_at := Some (clock w + secs * 1000) |} = true).
  { intros s. unfold live. simpl. apply Z.ltb_lt. lia. }
  unfold recordFailure, bind, dateNow, exec, ret. rewrite Hup. fold secs.
  unfold run_all, run. unfold stored_count in Hc.
  destruct (find (clock w) (failureKey cb) (redis w)) as [[[s|m] ttl]|] eqn:Hf;
    [ rewrite Hc | discriminate | injection Hc as <- ].
  - assert (Hl : live (clock w) {| data := RString (Js.toString (n + 1)); expires_at := ttl |} = true).
    { unfold find in Hf. destruct (redis w !! failureKey cb) as [e|]; [|discriminate].
      destruct (live (clock w) e) eqn:He; [|discriminate]. injection Hf as ->. exact He. }
    rewrite find_insert_ne by (apply not_eq_sym, failure_ne_last).
    rewrite find_insert_eq by exact Hl. simpl.
    eexists; split; [reflexivity|]. repeat split.
    + apply holds_insert_eq, Hlive.
    + apply holds_insert_ne; [apply failure_ne_last|]. apply holds_insert_eq. reflexivity.
    + intros k Hk1 Hk2. rewrite !find_insert_ne by congruence. reflexivity.
  - rewrite find_insert_ne by (apply not_eq_sym, failure_ne_last).
    rewrite find_insert_eq by reflexivity. simpl.
    eexists; split; [reflexivity|]. repeat split.
    + apply holds_insert_eq, Hlive.
    + apply holds_insert_ne; [apply failure_ne_last|]. apply holds_insert_eq. reflexivity.
    + intros k Hk1 Hk2. rewrite !find_insert_ne by congruence. reflexivity.
Qed.

Lemma getFailureCount_holds cb n w :
  redis_up w = true ->
  holds (clock w) (failureKey cb) (Js.toString n) (redis w) ->
  getFailureCount cb w = (Ok (Some n), w).
Proof.
  intros Hup Hh. unfold getFailureCount, bind. rewrite (get_holds _ _ _ Hup Hh).
  unfold ret. rewrite toString_nonempty, parseInt_toString. reflexivity.
Qed.

Lemma stored_count_holds now k n db :
  holds now k (Js.toString n) db -> stored_count now k db = Some n.
Proof. intros [ttl H]. unfold stored_count. rewrite H. apply parseInt_toString. Qed.

(** A GET changes nothing. *)
Lemma get_frame k w : (get k w).2 = w.
Proof.
  unfold get, bind, send, ret. destruct (redis_up w); [|reflexivity].
  cbn [run]. destruct (find (clock w) k (redis w)) as [[[s|m] ttl]|];
    cbn; destruct w; reflexivity.
Qed.

Lemma getState_frame cb w : (getState cb w).2 = w.
Proof.
  unfold getState, bind. pose proof (get_frame (stateKey cb) w) as H.
  destruct (get (stateKey cb) w) as [[s|e] w1]; cbn [snd] in *; subst; reflexivity.
Qed.

Lemma getFailureCount_frame cb w : (getFailureCount cb w).2 = w.
Proof.
  unfold getFailureCount, bind. pose proof (get_frame (failureKey cb) w) as H.
  destruct (get (failureKey cb) w) as [[s|e] w1]; cbn [snd] in *; subst; reflexivity.
Qed.

Lemma gate_passes_read cb v w :
  redis_up w = true -> getState cb w = (Ok v, w) -> v <> "OPEN" ->
  gate cb w = (Ok v, w).
Proof.
  intros Hup Hs Hno. unfold gate, bind. rewrite Hs.
  destruct (String.eqb_spec v "OPEN"); [contradiction|reflexivity].
Qed.

Lemma getState_absent cb w :
  redis_up w = true -> find (clock w) (stateKey cb) (redis w) = None ->
  getState cb w = (Ok "CLOSED", w).
Proof.
  intros Hup Hf. unfold getState, bind. rewrite (get_absent _ _ Hup Hf). reflexivity.
Qed.

(** The bookkeeping of a returned operation when the state read on entry
    is not HALF_OPEN: the failure counter is deleted, nothing else. *)
Lemma attempt_success cb st fn w res db' t' :
  redis_up w = true -> st <> "HALF_OPEN" ->
  fn (redis w) (clock w) = (Ok res, db', t') ->
  exists w',
    attempt cb st fn w = (Ok res, w') /\ redis_up w' = true /\ clock w' = t' /\
    redis w' = delete (failureKey cb) db'.
Proof.
  intros Hup Hst Hfn. rewrite attempt_step. unfold invoke. rewrite Hfn.
  unfold try_catch, on_success.
  destruct (String.eqb_spec st "HALF_OPEN"); [contradiction|].
  unfold recordSuccess, bind, send, ret. cbn [redis_up clock redis run]. rewrite Hup.
  destruct (find t' (failureKey cb) db'); cbn;
    (eexists; split; [reflexivity|]; cbn; auto).
Qed.

Lemma recordFailure_entry cb n w :
  redis_up w = true -> 0 < monitoringPeriod cb ->
  stored_count (clock w) (failureKey cb) (redis w) = Some n ->
  exists db,
    recordFailure cb w = (Ok tt, with_redis db w) /\
    find (clock w) (failureKey cb) db =
      Some {| data := RString (Js.toString (n + 1));
              expires_at :=
                Some (clock w + Js.ceil_div (monitoringPeriod cb) 1000 * 1000) |} /\
    holds (clock w) (lastFailureKey cb) (Js.toString (clock w)) db /\
    (forall k, k <> failureKey cb -> k <> lastFailureKey cb ->
               find (clock w) k db = find (clock w) k (redis w)).
Proof.
  intros Hup Hmp Hc.
  pose proof (ceil_div_pos _ 1000 Hmp ltac:(lia)) as Hsec.
  set (secs := Js.ceil_div (monitoringPeriod cb) 1000) in *.
  assert (Hlive : forall s, live (clock w)
            {| data := RString s; expires_at := Some (clock w + secs * 1000) |} = true).
  { intros s. unfold live. simpl. apply Z.ltb_lt. lia. }
  unfold recordFailure, bind, dateNow, exec, ret. rewrite Hup. fold secs.
  unfold run_all, run. unfold stored_count in Hc.
  destruct (find (clock w) (failureKey cb) (redis w)) as [[[s|m] ttl]|] eqn:Hf;
    [ rewrite Hc | discriminate | injection Hc as <- ].
  - assert (Hl : live (clock w) {| data := RString (Js.toString (n + 1)); expires_at := ttl |} = true).
    { unfold find in Hf. destruct (redis w !! failureKey cb) as [e|]; [|discriminate].
      destruct (live (clock w) e) eqn:He; [|discriminate]. injection Hf as ->. exact He. }
    rewrite find_insert_ne by (apply not_eq_sym, failure_ne_last).
    rewrite find_insert_eq by exact Hl. simpl.
    eexists; split; [reflexivity|]. repeat split.
    + apply find_insert_eq, Hlive.
    + apply holds_insert_ne; [apply failure_ne_last|]. apply holds_insert_eq. reflexivity.
    + intros k Hk1 Hk2. rewrite !find_insert_ne by congruence. reflexivity.
  - rewrite find_insert_ne by (apply not_eq_sym, failure_ne_last).
    rewrite find_insert_eq by reflexivity. simpl.
    eexists; split; [reflexivity|]. repeat split.
    + apply find_insert_eq, Hlive.
    + apply holds_insert_ne; [apply failure_ne_last|]. apply holds_insert_eq. reflexivity.
    + intros k Hk1 Hk2. rewrite !find_insert_ne by congruence. reflexivity.
Qed.

(** The [catch] block, whatever state was read on entry: the counter goes
    from [n] to [n + 1] under a fresh expiry, the instant is recorded, and
    OPEN is stored exactly when [n + 1] reaches the threshold. *)
Lemma attempt_failure cb st fn w e db' t' n :
  redis_up w = true -> 0 < monitoringPeriod cb ->
  fn (redis w) (clock w) = (Throw e, db', t') ->
  stored_count t' (failureKey cb) db' = Some n ->
  exists w',
    attempt cb st fn w = (Throw e, w') /\ redis_up w' = true /\ clock w' = t' /\
    find t' (failureKey cb) (redis w') =
      Some {| data := RString (Js.toString (n + 1));
              expires_at := Some (t' + Js.ceil_div (monitoringPeriod cb) 1000 * 1000) |} /\
    holds t' (lastFailureKey cb) (Js.toString t') (redis w') /\
    if failureThreshold cb <=? n + 1 then
      holds t' (stateKey cb) "OPEN" (redis w') /\
      forall k, k <> failureKey cb -> k <> lastFailureKey cb -> k <> stateKey cb ->
                find t' k (redis w') = find t' k db'
    else
      forall k, k <> failureKey cb -> k <> lastFailureKey cb ->
                find t' k (redis w') = find t' k db'.
Proof.
  intros Hup Hmp Hfn Hc. rewrite attempt_step. unfold invoke. rewrite Hfn.
  set (w1 := {| redis := db'; redis_up := redis_up w; clock := t';
                console := console w; invoked := S (invoked w); timers := timers w |}).
  assert (Hup1 : redis_up w1 = true) by exact Hup.
  destruct (recordFailure_entry cb n w1 Hup1 Hmp Hc) as (db & Hrf & Hfk & Hlk & Hoth).
  cbn [clock redis w1] in Hfk, Hlk, Hoth.
  assert (Hfh : holds t' (failureKey cb) (Js.toString (n + 1)) db) by (eexists; exact Hfk).
  unfold on_failure, bind. rewrite Hrf.
  rewrite (getFailureCount_holds cb (n + 1) (with_redis db w1) Hup1 Hfh).
  destruct (failureThreshold cb <=? n + 1) eqn:Hth.
  - unfold open, setState, log, bind, send, ret, throw. simpl. rewrite Hup. simpl.
    eexists; split; [reflexivity|]. simpl.
    split; [first [reflexivity | exact Hup]|]. split; [reflexivity|].
    split; [rewrite find_insert_ne by apply state_ne_failure; exact Hfk|].
    split; [apply holds_insert_ne; [apply state_ne_last|exact Hlk]|].
    split; [apply holds_insert_eq; reflexivity|].
    intros k H1 H2 H3. rewrite find_insert_ne by congruence. apply Hoth; assumption.
  - unfold ret, throw. eexists; split; [reflexivity|]. simpl.
    split; [first [reflexivity | exact Hup]|]. split; [reflexivity|].
    split; [exact Hfk|]. split; [exact Hlk|]. exact Hoth.
Qed.

Lemma canAttemptReset_frame cb w : (canAttemptReset cb w).2 = w.
Proof.
  unfold canAttemptReset, bind. pose proof (get_frame (lastFailureKey cb) w) as H.
  destruct (get (lastFailureKey cb) w) as [[[s|]|e] w1]; cbn [snd] in *; subst;
    try reflexivity.
  destruct (String.eqb s ""); reflexivity.
Qed.

(** What the gate did when it let a call through: it read OPEN and stored
    HALF_OPEN, or read another state and changed nothing. *)
Lemma gate_inv cb st w w1 :
  redis_up w = true -> gate cb w = (Ok st, w1) ->
  (st = "OPEN" /\ w1 = half_open cb w) \/
  (st <> "OPEN" /\ w1 = w /\ getState cb w = (Ok st, w)).
Proof.
  intros Hup. unfold gate, bind.
  pose proof (getState_frame cb w) as Hs.
  destruct (getState cb w) as [[s|e] w0]; cbn [snd] in Hs; subst w0; [|discriminate].
  destruct (String.eqb_spec s "OPEN") as [->|Hne].
  - pose proof (canAttemptReset_frame cb w) as Hc.
    destruct (canAttemptReset cb w) as [[[]|e] w0]; cbn [snd] in Hc; subst w0;
      try discriminate.
    unfold setState, bind, send, ret, throw. rewrite Hup. cbn [run].
    intros [= <- <-]. left. split; reflexivity.
  - unfold ret. intros [= <- <-]. right. auto.
Qed.

(** The bookkeeping of a returned operation when the state read on entry
    is HALF_OPEN: [close] stores CLOSED and deletes the failure counter. *)
Lemma attempt_closes cb fn w v db' t' :
  redis_up w = true ->
  fn (redis w) (clock w) = (Ok v, db', t') ->
  exists w',
    attempt cb "HALF_OPEN" fn w = (Ok v, w') /\ redis_up w' = true /\ clock w' = t' /\
    holds t' (stateKey cb) "CLOSED" (redis w') /\
    find t' (failureKey cb) (redis w') = None.
Proof.
  intros Hup Hfn. rewrite attempt_step. unfold invoke. rewrite Hfn.
  unfold try_catch, on_success, close, setState, log, bind, send, ret. simpl.
  rewrite Hup. simpl.
  destruct (find t' (failureKey cb) _); simpl;
    (eexists; split; [reflexivity|]; simpl; split; [first [reflexivity|exact Hup]|];
     split; [reflexivity|]; split;
     [ destruct (holds_insert_eq t' (stateKey cb) "CLOSED" None db' eq_refl) as [ttl H];
       exists ttl; rewrite find_delete_ne by (apply not_eq_sym, state_ne_failure); exact H
     | apply find_delete_eq ]).
Qed.

(** A call that finds HALF_OPEN stored is let through to its operation. *)
Lemma half_open_lets_through cb fn w v db' t' :
  redis_up w = true ->
  holds (clock w) (stateKey cb) "HALF_OPEN" (redis w) ->
  fn (redis w) (clock w) = (Ok v, db', t') ->
  exists w', execute cb fn w = (Ok v, w') /\ invoked w' = S (invoked w).
Proof.
  intros Hup Hs Hfn.
  destruct (attempt_closes cb fn w v db' t' Hup Hfn) as (w' & He & _).
  exists w'. unfold execute, bind.
  rewrite (gate_passes _ _ _ Hup Hs) by discriminate.
  split; [exact He|].
  pose proof (attempt_invokes_once cb "HALF_OPEN" fn w) as Hi. rewrite He in Hi. exact Hi.
Qed.

(** Claim C5, as amended.  A call that finds the stored state OPEN with a
    recorded last-failure instant [t0].  While less than [resetTimeout]
    has elapsed since [t0] it throws the circuit-open error and leaves the
    world as it was, whatever the wrapped operation is: the operation is
    not invoked.  Once [resetTimeout] has elapsed the gate stores
    HALF_OPEN and lets this call through: the operation is applied once,
    to the store that reads HALF_OPEN, and the call returns what the
    operation returns and throws what it throws.  The trial is not
    exclusive: a call that finds HALF_OPEN stored while the trial's
    operation is still running is let through to its operation too. *)
Theorem open_call_outcome cb fn t0 w r db' t' :
  redis_up w = true -> 0 < monitoringPeriod cb ->
  holds (clock w) (stateKey cb) "OPEN" (redis w) ->
  holds (clock w) (lastFailureKey cb) (Js.toString t0) (redis w) ->
  fn (redis (half_open cb w)) (clock w) = (r, db', t') ->
  (clock w - t0 < resetTimeout cb ->
     execute cb fn w = (Throw (JsError (open_message cb)), w)) /\
  (resetTimeout cb <= clock w - t0 ->
     gate cb w = (Ok "OPEN", half_open cb w) /\
     getState cb (half_open cb w) = (Ok "HALF_OPEN", half_open cb w) /\
     invoked (execute cb fn w).2 = S (invoked w) /\
     match r with
     | Ok v =>
         exists w',
           execute cb fn w = (Ok v, w') /\ clock w' = t' /\
           redis w' = delete (failureKey cb) db'
     | Throw e =>
         forall n, stored_count t' (failureKey cb) db' = Some n ->
         exists w',
           execute cb fn w = (Throw e, w') /\ clock w' = t' /\
           forall k, k <> failureKey cb -> k <> lastFailureKey cb -> k <> stateKey cb ->
                     find t' k (redis w') = find t' k db'
     end /\
     forall fn2 v2 db2 t2,
       fn2 (redis (half_open cb w)) (clock w) = (Ok v2, db2, t2) ->
       exists w2,
         execute cb fn2 (half_open cb w) = (Ok v2, w2) /\
         invoked w2 = S (invoked w)).
Proof.
  intros Hup Hmp Hs Hl Hfn. split; [apply gate_blocks; assumption|].
  intros Hge.
  assert (Hg : gate cb w = (Ok "OPEN", half_open cb w)).
  { rewrite (gate_open _ _ _ Hup Hs Hl).
    destruct (Z.leb_spec (resetTimeout cb) (clock w - t0)); [reflexivity|lia]. }
  assert (He : execute cb fn w = attempt cb "OPEN" fn (half_open cb w)).
  { unfold execute, bind. rewrite Hg. reflexivity. }
  assert (Hup1 : redis_up (half_open cb w) = true) by exact Hup.
  assert (Hh : holds (clock (half_open cb w)) (stateKey cb) "HALF_OPEN"
                 (redis (half_open cb w))).
  { apply holds_insert_eq. reflexivity. }
  split; [exact Hg|].
  split; [apply getState_holds; [exact Hup|exact Hh|discriminate]|].
  split; [rewrite He, attempt_invokes_once; reflexivity|].
  split.
  - rewrite He. destruct r as [v|e].
    + destruct (attempt_success cb "OPEN" fn (half_open cb w) v db' t' Hup1
                  ltac:(discriminate) Hfn) as (w' & Ha & _ & Hc & Hr).
      exists w'. auto.
    + intros n Hn.
      destruct (attempt_failure cb "OPEN" fn (half_open cb w) e db' t' n Hup1 Hmp Hfn Hn)
        as (w' & Ha & _ & Hc & _ & _ & Hrest).
      exists w'. split; [exact Ha|]. split; [exact Hc|].
      intros k H1 H2 H3. destruct (failureThreshold cb <=? n + 1).
      * apply Hrest; assumption.
      * apply Hrest; assumption.
  - intros fn2 v2 db2 t2 Hfn2.
    exact (half_open_lets_through cb fn2 (half_open cb w) v2 db2 t2 Hup1 Hh Hfn2).
Qed.

Lemma open_call_outcome_witness :
  let w0 := world_at 30000 opened_at_1000 in
  let w := world_at 61000 opened_at_1000 in
  (* 29 seconds after the failure: refused *)
  (redis_up w0 = true /\ 0 < monitoringPeriod cb0 /\
   holds (clock w0) (stateKey cb0) "OPEN" (redis w0) /\
   holds (clock w0) (lastFailureKey cb0) (Js.toString 1000) (redis w0) /\
   op_ok (redis (half_open cb0 w0)) (clock w0) = (Ok "res", redis (half_open cb0 w0), 30010) /\
   clock w0 - 1000 < resetTimeout cb0 /\
   execute cb0 op_ok w0 = (Throw (JsError (open_message cb0)), w0)) /\
  (* 60 seconds after the failure: the trial *)
  (redis_up w = true /\ 0 < monitoringPeriod cb0 /\
   holds (clock w) (stateKey cb0) "OPEN" (redis w) /\
   holds (clock w) (lastFailureKey cb0) (Js.toString 1000) (redis w) /\
   op_ok (redis (half_open cb0 w)) (clock w) = (Ok "res", redis (half_open cb0 w), 61010) /\
   resetTimeout cb0 <= clock w - 1000 /\
   gate cb0 w = (Ok "OPEN", half_open cb0 w) /\
   getState cb0 (half_open cb0 w) = (Ok "HALF_OPEN", half_open cb0 w) /\
   invoked (execute cb0 op_ok w).2 = S (invoked w) /\
   (exists w',
      execute cb0 op_ok w = (Ok "res", w') /\ clock w' = 61010 /\
      redis w' = delete (failureKey cb0) (redis (half_open cb0 w))) /\
   forall fn2 v2 db2 t2,
     fn2 (redis (half_open cb0 w)) (clock w) = (Ok v2, db2, t2) ->
     exists w2,
       execute cb0 fn2 (half_open cb0 w) = (Ok v2, w2) /\
       invoked w2 = S (invoked w)).
Proof.
  intros w0 w.
  assert (H1 : holds (clock w0) (stateKey cb0) "OPEN" (redis w0)).
  { exists None. vm_compute. reflexivity. }
  assert (H2 : holds (clock w0) (lastFailureKey cb0) (Js.toString 1000) (redis w0)).
  { exists None. vm_compute. reflexivity. }
  assert (H3 : holds (clock w) (stateKey cb0) "OPEN" (redis w)).
  { exists None. vm_compute. reflexivity. }
  assert (H4 : holds (clock w) (lastFailureKey cb0) (Js.toString 1000) (redis w)).
  { exists None. vm_compute. reflexivity. }
  assert (Hearly : clock w0 - 1000 < resetTimeout cb0) by (vm_compute; reflexivity).
  assert (Hlate : resetTimeout cb0 <= clock w - 1000) by (vm_compute; discriminate).
  split.
  - split; [reflexivity|]. split; [reflexivity|]. split; [exact H1|]. split; [exact H2|].
    split; [reflexivity|]. split; [exact Hearly|].
    exact (proj1 (open_call_outcome cb0 op_ok 1000 w0 (Ok "res") (redis (half_open cb0 w0))
                    30010 eq_refl eq_refl H1 H2 eq_refl) Hearly).
  - split; [reflexivity|]. split; [reflexivity|]. split; [exact H3|]. split; [exact H4|].
    split; [reflexivity|]. split; [exact Hlate|].
    exact (proj2 (open_call_outcome cb0 op_ok 1000 w (Ok "res") (redis (half_open cb0 w))
                    61010 eq_refl eq_refl H3 H4 eq_refl) Hlate).
Defined.

(** Claim C5 as stated does not hold: the trial call is not the only one
    let through.  The breaker opened at instant 1000; at 61000 a call finds
    the reset timeout elapsed, stores HALF_OPEN and starts its operation.
    A second call that arrives now, before the first has returned, finds
    HALF_OPEN, which the gate does not stop: its operation is invoked as
    well and its result returned. *)
Lemma trial_is_not_exclusive :
  let w := world_at 61000 opened_at_1000 in
  let w1 := half_open cb0 w in
  gate cb0 w = (Ok "OPEN", w1) /\
  exists w2,
    execute cb0 op_ok w1 = (Ok "res", w2) /\ invoked w2 = S (invoked w1).
Proof. split; [vm_compute; reflexivity|]. eexists. vm_compute. split; reflexivity. Qed.

(** Claim C6, as amended.  A trial call: one that the gate lets through
    with HALF_OPEN stored, because it found HALF_OPEN ([st] is HALF_OPEN)
    or because it found OPEN after the reset timeout and stored HALF_OPEN
    itself ([st] is OPEN).  When the operation returns, the call returns
    its result and the failure counter is deleted; a call that had found
    HALF_OPEN also stores CLOSED.  When the operation throws, the call
    throws the same, and the counter, standing at [n] when the failure is
    recorded, becomes [n + 1]; the breaker is OPEN, and every next call at
    that instant refused, exactly when [n + 1] reaches the threshold;
    below the threshold the state stays HALF_OPEN and a next call is let
    through to its operation. *)
Theorem trial_outcome_decides_state cb fn w st w1 r db' t' :
  redis_up w = true -> 0 < monitoringPeriod cb -> 0 < resetTimeout cb ->
  gate cb w = (Ok st, w1) ->
  getState cb w1 = (Ok "HALF_OPEN", w1) ->
  fn (redis w1) (clock w1) = (r, db', t') ->
  match r with
  | Ok v =>
      exists w',
        execute cb fn w = (Ok v, w') /\ clock w' = t' /\
        find t' (failureKey cb) (redis w') = None /\
        (st = "HALF_OPEN" -> holds t' (stateKey cb) "CLOSED" (redis w'))
  | Throw e =>
      forall n, stored_count t' (failureKey cb) db' = Some n ->
      exists w',
        execute cb fn w = (Throw e, w') /\ clock w' = t' /\
        stored_count t' (failureKey cb) (redis w') = Some (n + 1) /\
        if failureThreshold cb <=? n + 1 then
          holds t' (stateKey cb) "OPEN" (redis w') /\
          forall fn', execute cb fn' w' = (Throw (JsError (open_message cb)), w')
        else
          holds t' (stateKey cb) "HALF_OPEN" db' ->
          holds t' (stateKey cb) "HALF_OPEN" (redis w') /\
          forall fn' v' db2 t2,
            fn' (redis w') (clock w') = (Ok v', db2, t2) ->
            exists w2, execute cb fn' w' = (Ok v', w2) /\ invoked w2 = S (invoked w')
  end.
Proof.
  intros Hup Hmp Hrt Hg Hhalf Hfn.
  assert (Hex : execute cb fn w = attempt cb st fn w1).
  { unfold execute, bind. rewrite Hg. reflexivity. }
  assert (Hup1 : redis_up w1 = true).
  { destruct (gate_inv cb st w w1 Hup Hg) as [[_ ->]|(_ & -> & _)]; exact Hup. }
  rewrite Hex. destruct r as [v|e].
  - destruct (String.eqb_spec st "HALF_OPEN") as [->|Hne].
    + destruct (attempt_closes cb fn w1 v db' t' Hup1 Hfn)
        as (w' & Ha & _ & Hc & Hcl & Hf).
      exists w'. auto.
    + destruct (attempt_success cb st fn w1 v db' t' Hup1 Hne Hfn)
        as (w' & Ha & _ & Hc & Hr).
      exists w'. split; [exact Ha|]. split; [exact Hc|].
      split; [rewrite Hr; apply find_delete_eq|]. intros ->. contradiction.
  - intros n Hn.
    destruct (attempt_failure cb st fn w1 e db' t' n Hup1 Hmp Hfn Hn)
      as (w' & Ha & Hup' & Hc & Hfk & Hlk & Hrest).
    exists w'. split; [exact Ha|]. split; [exact Hc|].
    split; [apply stored_count_holds; eexists; exact Hfk|].
    destruct (failureThreshold cb <=? n + 1).
    + destruct Hrest as [Hop _]. split; [exact Hop|].
      intros fn'. apply (gate_blocks _ t'); rewrite ?Hc; try assumption. lia.
    + intros [ttl Hh].
      assert (Hst : holds t' (stateKey cb) "HALF_OPEN" (redis w')).
      { exists ttl. rewrite Hrest; [exact Hh|apply state_ne_failure|apply state_ne_last]. }
      split; [exact Hst|].
      intros fn' v' db2 t2 Hfn'. rewrite <- Hc in Hst.
      exact (half_open_lets_through cb fn' w' v' db2 t2 Hup' Hst Hfn').
Qed.

Lemma trial_outcome_decides_state_witness :
  let early := world_at 61000 opened_at_1000 in
  let late := world_at 130000 opened_at_1000 in
  (* a trial that found HALF_OPEN and succeeds: CLOSED, counter cleared *)
  (let w := half_open cb0 early in
   redis_up w = true /\ 0 < monitoringPeriod cb0 /\ 0 < resetTimeout cb0 /\
   gate cb0 w = (Ok "HALF_OPEN", w) /\
   getState cb0 w = (Ok "HALF_OPEN", w) /\
   op_ok (redis w) (clock w) = (Ok "res", redis w, 61010) /\
   exists w',
     execute cb0 op_ok w = (Ok "res", w') /\ clock w' = 61010 /\
     find 61010 (failureKey cb0) (redis w') = None /\
     ("HALF_OPEN" = "HALF_OPEN" -> holds 61010 (stateKey cb0) "CLOSED" (redis w'))) /\
  (* a trial that found OPEN and fails with the counter at 5: OPEN again *)
  (let w := early in
   let w1 := half_open cb0 w in
   redis_up w = true /\ 0 < monitoringPeriod cb0 /\ 0 < resetTimeout cb0 /\
   gate cb0 w = (Ok "OPEN", w1) /\
   getState cb0 w1 = (Ok "HALF_OPEN", w1) /\
   op_fail (redis w1) (clock w1) = (Throw (JsError "boom"), redis w1, 61010) /\
   stored_count 61010 (failureKey cb0) (redis w1) = Some 5 /\
   exists w',
     execute cb0 op_fail w = (Throw (JsError "boom"), w') /\ clock w' = 61010 /\
     stored_count 61010 (failureKey cb0) (redis w') = Some 6 /\
     holds 61010 (stateKey cb0) "OPEN" (redis w') /\
     forall fn', execute cb0 fn' w' = (Throw (JsError (open_message cb0)), w')) /\
  (* a trial that found OPEN and fails with the counter expired: HALF_OPEN stays *)
  (let w := late in
   let w1 := half_open cb0 w in
   redis_up w = true /\ 0 < monitoringPeriod cb0 /\ 0 < resetTimeout cb0 /\
   gate cb0 w = (Ok "OPEN", w1) /\
   getState cb0 w1 = (Ok "HALF_OPEN", w1) /\
   op_fail (redis w1) (clock w1) = (Throw (JsError "boom"), redis w1, 130010) /\
   stored_count 130010 (failureKey cb0) (redis w1) = Some 0 /\
   holds 130010 (stateKey cb0) "HALF_OPEN" (redis w1) /\
   exists w',
     execute cb0 op_fail w = (Throw (JsError "boom"), w') /\ clock w' = 130010 /\
     stored_count 130010 (failureKey cb0) (redis w') = Some 1 /\
     holds 130010 (stateKey cb0) "HALF_OPEN" (redis w') /\
     forall fn' v' db2 t2,
       fn' (redis w') (clock w') = (Ok v', db2, t2) ->
       exists w2, execute cb0 fn' w' = (Ok v', w2) /\ invoked w2 = S (invoked w')).
Proof.
  intros early late.
  split; [|split].
  - intros w.
    assert (Hg : gate cb0 w = (Ok "HALF_OPEN", w)) by (vm_compute; reflexivity).
    split; [reflexivity|]. split; [reflexivity|]. split; [reflexivity|].
    split; [exact Hg|]. split; [exact Hg|]. split; [reflexivity|].
    exact (trial_outcome_decides_state cb0 op_ok w "HALF_OPEN" w (Ok "res") (redis w) 61010
             eq_refl eq_refl eq_refl Hg Hg eq_refl).
  - intros w w1.
    assert (Hg : gate cb0 w = (Ok "OPEN", w1)) by (vm_compute; reflexivity).
    assert (Hs : getState cb0 w1 = (Ok "HALF_OPEN", w1)) by (vm_compute; reflexivity).
    assert (Hn : stored_count 61010 (failureKey cb0) (redis w1) = Some 5)
      by (vm_compute; reflexivity).
    split; [reflexivity|]. split; [reflexivity|]. split; [reflexivity|].
    split; [exact Hg|]. split; [exact Hs|]. split; [reflexivity|]. split; [exact Hn|].
    exact (trial_outcome_decides_state cb0 op_fail w "OPEN" w1 (Throw (JsError "boom"))
             (redis w1) 61010 eq_refl eq_refl eq_refl Hg Hs eq_refl 5 Hn).
  - intros w w1.
    assert (Hg : gate cb0 w = (Ok "OPEN", w1)) by (vm_compute; reflexivity).
    assert (Hs : getState cb0 w1 = (Ok "HALF_OPEN", w1)) by (vm_compute; reflexivity).
    assert (Hn : stored_count 130010 (failureKey cb0) (redis w1) = Some 0)
      by (vm_compute; reflexivity).
    assert (Hh : holds 130010 (stateKey cb0) "HALF_OPEN" (redis w1)).
    { exists None. vm_compute. reflexivity. }
    split; [reflexivity|]. split; [reflexivity|]. split; [reflexivity|].
    split; [exact Hg|]. split; [exact Hs|]. split; [reflexivity|]. split; [exact Hn|].
    split; [exact Hh|].
    destruct (trial_outcome_decides_state cb0 op_fail w "OPEN" w1 (Throw (JsError "boom"))
                (redis w1) 130010 eq_refl eq_refl eq_refl Hg Hs eq_refl 0 Hn)
      as (w' & He & Hc & Hcount & Hrest).
    exists w'. split; [exact He|]. split; [exact Hc|]. split; [exact Hcount|].
    exact (Hrest Hh).
Defined.

(** Claim C6 as stated does not hold.  The breaker opened at instant 1000;
    at 130000 its failure counter has expired.  The trial call fails and
    leaves the state HALF_OPEN with the counter at 1; the next call finds
    HALF_OPEN, fails, and leaves HALF_OPEN with the counter at 2, under
    the threshold of 5; the call after that is not refused: its operation
    is invoked and its result returned. *)
Lemma half_open_failure_keeps_passing :
  let w0 := world_at 130000 opened_at_1000 in
  let '(r1, w1) := execute cb0 op_fail w0 in
  let '(r2, w2) := execute cb0 op_fail w1 in
  let '(r3, w3) := execute cb0 op_ok w2 in
  r1 = Throw (JsError "boom") /\
  getState cb0 w1 = (Ok "HALF_OPEN", w1) /\
  r2 = Throw (JsError "boom") /\
  getFailureCount cb0 w1 = (Ok (Some 1), w1) /\
  getFailureCount cb0 w2 = (Ok (Some 2), w2) /\
  getState cb0 w2 = (Ok "HALF_OPEN", w2) /\
  r3 = Ok "res" /\ invoked w3 = S (invoked w2).
Proof. vm_compute. repeat split. Qed.

(** The call that moves OPEN to HALF_OPEN tests the constant [state] it
    read on entry, which is still OPEN: when its operation succeeds it runs
    [recordSuccess], not [close], and the stored state stays HALF_OPEN. *)
Example trial_success_leaves_half_open :
  let w0 := world_at 61000 opened_at_1000 in
  let '(r1, w1) := execute cb0 op_ok w0 in
  r1 = Ok "res" /\ getState cb0 w1 = (Ok "HALF_OPEN", w1).
Proof. vm_compute. repeat split. Qed.

End CircuitBreakerProps.
(** ** middlewares/rateLimiter.middleware.js *)
Module RateLimiterProps.
Import Proc RateLimiter RedisFacts JsFacts.

Lemma live_find now k e (db : store) : find now k db = Some e -> live now e = true.
Proof.
  unfold find. destruct (db !! k) as [e'|]; [|discriminate].
  destruct (live now e') eqn:H; [|discriminate]. intros [= <-]. exact H.
Qed.

(** The MULTI block of one admission check, on a key that is free for a
    sorted set: the window slides, ZCARD replies with its size, and the
    key expires one window from now. *)
Lemma run_window rl req now (db : store) :
  zset_or_absent now (key rl req) db ->
  let s1 := slide rl now (window_of now (key rl req) db) in
  exists r0 r1,
    run_all now (window_commands rl req now) db =
      ([RInt r0; RInt r1; RInt (Z.of_nat (size s1)); RInt 1],
       <[key rl req := {| data := RZSet s1;
                          expires_at := Some (now + Js.ceil_div (windowMs rl) 1000 * 1000) |}]> db).
Proof.
  unfold zset_or_absent, window_of, slide. intros Hz.
  set (k := key rl req) in *. unfold window_commands, run_all, run. fold k.
  destruct (find now k db) as [[[s|m] ttl]|] eqn:Hf; [contradiction| |].
  - pose proof (live_find _ _ _ _ Hf) as Hl.
    destruct (decide (zremrange 0 (now - windowMs rl) m = ∅)) as [He|Hne].
    + rewrite find_delete_eq. rewrite !find_insert_eq by reflexivity. simpl.
      rewrite He. do 2 eexists. f_equal.
      rewrite !insert_insert_eq. apply insert_delete_eq.
    + rewrite !find_insert_eq by exact Hl. simpl.
      do 2 eexists. f_equal. rewrite !insert_insert_eq. reflexivity.
  - rewrite Hf. simpl. rewrite !find_insert_eq by reflexivity. simpl.
    unfold zremrange. rewrite map_filter_empty.
    do 2 eexists. f_equal. rewrite !insert_insert_eq. reflexivity.
Qed.

(** One admission check, lines 16-62, when the store answers. *)
Lemma rateLimiter_admission o req w :
  let rl := configure o in
  redis_up w = true ->
  zset_or_absent (clock w) (key rl req) (redis w) ->
  let s1 := slide rl (clock w) (window_of (clock w) (key rl req) (redis w)) in
  rateLimiter o req w =
    (Ok (verdict rl (clock w) (Z.of_nat (size s1))),
     with_redis
       (<[key rl req := {| data := RZSet s1;
            expires_at := Some (clock w + Js.ceil_div (windowMs rl) 1000 * 1000) |}]>
          (redis w)) w).
Proof.
  intros rl Hup Hz s1.
  destruct (run_window rl req (clock w) (redis w) Hz) as (r0 & r1 & Hrun).
  unfold rateLimiter, try_catch, bind, dateNow, exec. fold rl.
  rewrite Hup, Hrun. reflexivity.
Qed.

Lemma ceil_div_covers (a : Z) : a <= Js.ceil_div a 1000 * 1000.
Proof.
  unfold Js.ceil_div.
  pose proof (Z.div_mod (- a) 1000 ltac:(lia)).
  pose proof (Z.mod_pos_bound (- a) 1000 ltac:(lia)). lia.
Qed.

Lemma window_of_insert now k m ttl (db : store) :
  live now {| data := RZSet m; expires_at := ttl |} = true ->
  window_of now k (<[k := {| data := RZSet m; expires_at := ttl |}]> db) = m.
Proof. intros H. unfold window_of. rewrite find_insert_eq by exact H. reflexivity. Qed.

(** Claim C8.  Whenever the MULTI block of an admission check throws,
    whatever the exception (the server unreachable, an error reply), the
    middleware logs the error on the console and calls [next ()]: the
    request proceeds, it is neither answered 429 nor failed. *)
Theorem rateLimiter_fails_open o req w e w1 :
  exec (window_commands (configure o) req (clock w)) w = (Throw e, w1) ->
  rateLimiter o req w = (Ok (Next []), (log "Rate limiter error:" w1).2) /\
  console (rateLimiter o req w).2 = "Rate limiter error:" :: console w.
Proof.
  intros He.
  assert (Hr : rateLimiter o req w = (Ok (Next []), (log "Rate limiter error:" w1).2)).
  { unfold rateLimiter, try_catch, bind, dateNow. rewrite He. reflexivity. }
  split; [exact Hr|]. rewrite Hr. simpl. f_equal.
  change (console w1) with (console (Throw (A := list reply) e, w1).2).
  rewrite <- He. apply ProcFacts.stable_exec. reflexivity.
Qed.

Lemma rateLimiter_fails_open_witness :
  exec (window_commands (configure no_options) client (clock unreachable)) unreachable
    = (Throw (ReplyError CONNECTION_CLOSED), unreachable) /\
  rateLimiter no_options client unreachable
    = (Ok (Next []), (log "Rate limiter error:" unreachable).2) /\
  console (rateLimiter no_options client unreachable).2
    = "Rate limiter error:" :: console unreachable.
Proof.
  split; [reflexivity|].
  exact (rateLimiter_fails_open no_options client unreachable
           (ReplyError CONNECTION_CLOSED) unreachable eq_refl).
Defined.

(** Claim C10, at the input on which the code departs from it.  A client
    of [strictRateLimiter] (ten requests a minute) sends ten requests at
    the instants 1 to 10, then two requests in the same millisecond,
    50000, and one more at 60002.  The two requests at 50000 are both
    answered 429; they carry the same member [`${now}`], so the second
    ZADD adds nothing and the two share one slot.  At 60002 the window
    still covers both of them with the requests of instants 3 to 10, eleven
    requests with the new one, but the sorted set holds ten members: the
    request is let through.  The member is the timestamp, as in claim
    C7. *)
Theorem rejected_requests_in_a_shared_millisecond :
  let '(rs, w) := serve strict client (ticks 10 ++ [50000; 50000; 60002]) fresh in
  (exists hs, rs !! 10%nat = Some (Ok (Respond hs 429 busy_body))) /\
  (exists hs, rs !! 11%nat = Some (Ok (Respond hs 429 busy_body))) /\
  rs !! 12%nat =
    Some (Ok (Next [ ("X-RateLimit-Limit", HNum 10);
                     ("X-RateLimit-Remaining", HNum 0);
                     ("X-RateLimit-Reset", HDate 120002) ])) /\
  window_of 60002 (key (configure strict) client) (redis w) =
    list_to_map (map (fun t => (Js.toString t, t))
                     [3; 4; 5; 6; 7; 8; 9; 10; 50000; 60002]).
Proof.
  vm_compute.
  split; [eexists; reflexivity|]. split; [eexists; reflexivity|].
  split; reflexivity.
Qed.

(** The same requests with the two rejected ones a millisecond apart:
    each takes a slot, the sorted set holds eleven members at 60002 and
    the request is answered 429. *)
Example rejected_requests_a_millisecond_apart :
  exists hs,
    (serve strict client (ticks 10 ++ [50000; 50001; 60002]) fresh).1 !! 12%nat =
      Some (Ok (Respond hs 429 busy_body)).
Proof. eexists. vm_compute. reflexivity. Qed.

(** Claim C7, at the input on which the code departs from it.  One client
    sends 101 requests inside one 15-minute window under the default limit
    of 100: the first hundred at the instants 1 to 100, the last one in
    the same millisecond as the hundredth.  Its member [`${now}`] is
    already in the sorted set, so ZADD adds nothing, ZCARD replies 100, and
    the 101st request is let through with a remaining quota of 0. *)
Theorem hundred_first_request_in_a_shared_millisecond :
  let '(rs, w) := serve no_options client (ticks 100 ++ [100]) fresh in
  length rs = 101%nat /\
  rs !! 100%nat =
    Some (Ok (Next [ ("X-RateLimit-Limit", HNum 100);
                     ("X-RateLimit-Remaining", HNum 0);
                     ("X-RateLimit-Reset", HDate 900100) ])) /\
  size (window_of 100 (key (configure no_options) client) (redis w)) = 100%nat.
Proof. vm_compute. repeat split. Qed.

(** With 101 distinct instants the 101st request is answered 429 with a
    Retry-After of 900 seconds, the window length. *)
Example hundred_first_request_at_distinct_instants :
  (serve no_options client (ticks 101) fresh).1 !! 100%nat =
    Some (Ok (Respond [ ("X-RateLimit-Limit", HNum 100);
                        ("X-RateLimit-Remaining", HNum 0);
                        ("X-RateLimit-Reset", HDate 900101);
                        ("Retry-After", HNum 900) ]
                      429
                      {| success := false;
                         message := "Too many requests, please try again later";
                         retryAfter := "900 seconds";
                         limit := 100;
                         body_windowMs := 900000 |})).
Proof. vm_compute. reflexivity. Qed.

End RateLimiterProps.
(** ** services/oauth.service.js *)
Module OAuthServiceProps.
Import Proc OAuthService.

Lemma backoff_bounds i : 100 <= backoff i <= 1000.
Proof.
  unfold backoff.
  assert (1 <= 2 ^ Z.of_nat i) by (apply Z.pow_le_mono_r with (b := 0); lia).
  lia.
Qed.

(** [Math.min (waitTime * 2, 1000)] takes one delay to the next. *)
Lemma backoff_next i : Z.min (backoff i * 2) 1000 = backoff (S i).
Proof.
  unfold backoff. rewrite Nat2Z.inj_succ, Z.pow_succ_r by lia. lia.
Qed.

Lemma slept_8 : slept 8 = 5500.
Proof. reflexivity. Qed.

Lemma slept_mono i j : (i <= j)%nat -> slept i <= slept j.
Proof.
  induction 1 as [|j _ IH]; [lia|]. simpl. pose proof (backoff_bounds j). lia.
Qed.

(** One poll: the other workers' changes, then EXISTS. *)
Lemma poll_step env i w :
  (interfere (others env i) ;;; send (EXISTS LOCK_KEY))%proc w =
    let w1 := with_redis (others env i (redis w)) w in
    if redis_up w then
      match find (clock w) LOCK_KEY (redis w1) with
      | Some _ => (Ok (RInt 1), w1)
      | None => (Ok (RInt 0), w1)
      end
    else (Throw (ReplyError CONNECTION_CLOSED), w1).
Proof.
  unfold bind, interfere, send. simpl.
  destruct (redis_up w); [|reflexivity].
  destruct (find (clock w) LOCK_KEY (others env i (redis w))); reflexivity.
Qed.

(** The loop entered for its [i]-th poll with the delay [backoff i], at
    least [slept i] ms after the start, under the default maximum wait:
    it ends within the polls that remain up to the eighth. *)
Lemma wait_loop_bounded env startTime :
  forall fuel i w,
    (i <= 8)%nat -> (9 <= fuel + i)%nat -> slept i <= clock w - startTime ->
    exists r w' n,
      wait_loop env fuel i startTime (backoff i) 5000 w = Some (r, w') /\
      (i + n <= 8)%nat /\
      timers w' = (rev (map backoff (seq i n)) ++ timers w)%list /\
      ended startTime 5000 r w'.
Proof.
  induction fuel as [|fuel IH]; intros i w Hi Hfuel Hslept; [lia|].
  cbn [wait_loop].
  destruct (Z.ltb_spec (clock w - startTime) 5000) as [Hlt|Hge].
  - assert (Hi7 : (i <= 7)%nat).
    { destruct (decide (i = 8%nat)) as [->|]; [rewrite slept_8 in Hslept|]; lia. }
    rewrite poll_step. cbv zeta.
    destruct (redis_up w).
    + destruct (find (clock w) LOCK_KEY _) eqn:Hf.
      * cbn [sleep]. rewrite backoff_next.
        match goal with |- context [wait_loop _ _ _ _ _ _ ?W] => set (w2 := W) end.
        destruct (IH (S i) w2) as (r & w' & n & Hrun & Hn & Ht & He).
        { lia. } { lia. }
        { cbn [slept]. subst w2. cbn [clock with_redis]. lia. }
        exists r, w', (S n). rewrite Hrun. repeat split; [lia| |exact He].
        rewrite Ht. subst w2. cbn [timers with_redis seq map rev].
        rewrite <- app_assoc. reflexivity.
      * exists (Ok tt), (with_redis (others env i (redis w)) w), 0%nat.
        repeat split; [lia|]. exact Hf.
    + exists (Throw (ReplyError CONNECTION_CLOSED)),
             (with_redis (others env i (redis w)) w), 0%nat.
      repeat split; [lia|]. left. eauto.
  - exists (Throw (JsError timeout_message)), w, 0%nat.
    repeat split; [lia|]. right. split; [reflexivity|exact Hge].
Qed.

(** The loop ends for every maximum wait: each round takes at least 100
    ms, so one unit of fuel per started 100 ms, and one more, is enough. *)
Lemma wait_loop_terminates env startTime maxWaitMs :
  forall fuel i waitTime w,
    100 <= waitTime ->
    (Z.to_nat ((maxWaitMs - (clock w - startTime) + 99) / 100) + 1 <= fuel)%nat ->
    exists r w',
      wait_loop env fuel i startTime waitTime maxWaitMs w = Some (r, w') /\
      ended startTime maxWaitMs r w'.
Proof.
  induction fuel as [|fuel IH]; intros i waitTime w Hw Hfuel; [lia|].
  cbn [wait_loop].
  destruct (Z.ltb_spec (clock w - startTime) maxWaitMs) as [Hlt|Hge].
  - rewrite poll_step. cbv zeta.
    destruct (redis_up w).
    + destruct (find (clock w) LOCK_KEY _) eqn:Hf.
      * cbn [sleep].
        match goal with |- context [wait_loop _ _ _ _ _ _ ?W] => set (w2 := W) end.
        apply IH; [lia|]. subst w2. cbn [clock with_redis].
        pose proof (N2Z.is_nonneg (late env i)).
        Z.to_euclidean_division_equations. lia.
      * exists (Ok tt), (with_redis (others env i (redis w)) w). split; [reflexivity|exact Hf].
    + eexists _, _. split; [reflexivity|]. left. eauto.
  - eexists _, _. split; [reflexivity|]. right. split; [reflexivity|exact Hge].
Qed.

Lemma waitForLock_terminates env maxWaitMs fuel w :
  (Z.to_nat ((maxWaitMs + 99) / 100) + 1 <= fuel)%nat ->
  exists r w',
    _waitForLock env maxWaitMs fuel w = Some (r, w') /\
    ended (clock w) maxWaitMs r w'.
Proof.
  intros Hfuel. unfold _waitForLock. apply wait_loop_terminates; [lia|].
  replace (maxWaitMs - (clock w - clock w) + 99) with (maxWaitMs + 99) by lia.
  exact Hfuel.
Qed.

(** Claim C9.  A retrieval that finds the lease held waits in
    [_waitForLock], and that wait ends whatever the other workers do to
    the store and however late each round is: with fuel for nine loop
    tests it has returned or thrown after at most eight polls; the delays
    it asked of [setTimeout] are 100 ms doubling up to the cap of 1000 ms;
    it returns only on a poll that found the lock gone, and otherwise
    throws, the lock-timeout error once 5000 ms have elapsed (or the
    store's own error); [_refreshToken] passes that exception on and calls
    [getAccessToken] again only after a return. *)
Theorem lock_wait_ends env w fuel :
  (9 <= fuel)%nat ->
  exists r w' n,
    _waitForLock env 5000 fuel w = Some (r, w') /\
    (n <= 8)%nat /\
    timers w' = (rev (map backoff (seq 0 n)) ++ timers w)%list /\
    ended (clock w) 5000 r w' /\
    forall p again w0,
      send (SET_NX_EX LOCK_KEY "1" LOCK_TTL) w0 = (Ok RNil, w) ->
      _refreshToken p env fuel again w0 =
        match r with
        | Ok _ => again w'
        | Throw e => Some (Throw e, w')
        end.
Proof.
  intros Hfuel.
  destruct (wait_loop_bounded env (clock w) fuel 0 w) as (r & w' & n & Hrun & Hn & Ht & He).
  { lia. } { lia. } { simpl. lia. }
  exists r, w', n. change (backoff 0) with 100 in Hrun.
  repeat split; try assumption.
  intros p again w0 Hset. unfold _refreshToken. rewrite Hset.
  unfold _waitForLock. rewrite Hrun. destruct r; reflexivity.
Qed.

Lemma lock_wait_ends_witness :
  (9 <= 9)%nat /\
  exists r w' n,
    _waitForLock calm 5000 9 leased = Some (r, w') /\
    (n <= 8)%nat /\
    timers w' = (rev (map backoff (seq 0 n)) ++ timers leased)%list /\
    ended (clock leased) 5000 r w' /\
    forall p again w0,
      send (SET_NX_EX LOCK_KEY "1" LOCK_TTL) w0 = (Ok RNil, leased) ->
      _refreshToken p calm 9 again w0 =
        match r with
        | Ok _ => again w'
        | Throw e => Some (Throw e, w')
        end.
Proof.
  split; [lia|]. apply (lock_wait_ends calm leased 9). lia.
Defined.

(** A lease taken at instant 0 for its 10 seconds and never released,
    nothing late: the waiter polls eight times, sleeps 100, 200, 400, 800
    and four times 1000 ms, and throws the timeout at 5500 ms; a
    retrieval started then throws it too. *)
Example lease_held_throughout :
  exists w',
    _waitForLock calm 5000 9 leased = Some (Throw (JsError timeout_message), w') /\
    clock w' = 5500 /\
    timers w' = [1000; 1000; 1000; 1000; 800; 400; 200; 100] /\
    getAccessToken prompt (fun _ => calm) 9 1 0 leased
      = Some (Throw (JsError timeout_message), w').
Proof. eexists. vm_compute. repeat split. Qed.

End OAuthServiceProps.

(** ** The webhook route *)
Module WebhookProps.
Import Webhook.

Section Collated.
Context {collation : Collation}.

Lemma start_admitted b eid :
  body_event_id b = Some eid -> eid <> "" ->
  start b = {| req := incoming b; at_ := AtSelect |}.
Proof.
  intros Hb Hne. unfold start, falsy. rewrite Hb.
  destruct (String.eqb_spec eid ""); [contradiction|reflexivity].
Qed.

Lemma select_sightings b w :
  db_up w = true -> query_select (eventId (incoming b)) w = inr (sightings b w).
Proof. intros Hup. unfold query_select. rewrite Hup. reflexivity. Qed.

Lemma existsb_sightings b w :
  existsb (has_event_id (default "" (body_event_id b))) (table w)
  = match sightings b w with [] => false | _ => true end.
Proof.
  unfold sightings. induction (table w) as [|r rows IH]; [reflexivity|].
  rewrite filter_cons. cbn [existsb].
  destruct (decide (has_event_id (default "" (body_event_id b)) r = true)) as [Hr|Hr].
  - rewrite Hr. reflexivity.
  - apply not_true_is_false in Hr. rewrite Hr. exact IH.
Qed.

Lemma steps_S n t w :
  steps (S n) t w = let '(t1, w1) := step t w in steps n t1 w1.
Proof. reflexivity. Qed.

(** A worker that is done stays where it is. *)
Lemma steps_done n r resp w :
  steps n {| req := r; at_ := Done resp |} w = ({| req := r; at_ := Done resp |}, w).
Proof. induction n as [|n IH]; [reflexivity|]. simpl. exact IH. Qed.


(** Property X2.  A worker whose SELECT found no record and whose INSERT is
    then refused with ER_DUP_ENTRY, another admitter having inserted the
    record in between: the response is 200 with [success: true], "Event
    already processed (duplicate detected)"; the request ends there and the
    world stays as it was (no row written, the business logic not entered,
    nothing logged), however many more turns the worker gets. *)
Theorem lost_race_reports_duplicate r w w1 :
  query_insert (eventId r) (stored_event_type (req_body r))
               (body_json (req_body r)) w = (inl ER_DUP_ENTRY, w1) ->
  let answer := DuplicateDetected (eventId r) in
  (forall n, steps (S n) {| req := r; at_ := AtInsert |} w
             = ({| req := r; at_ := Done answer |}, w)) /\
  status_code answer = 200 /\ success answer = true /\
  message answer = "Event already processed (duplicate detected)".
Proof.
  intros Hins answer.
  assert (Hw : w1 = w).
  { unfold query_insert in Hins. destruct (db_up w); [|discriminate].
    destruct (negb _); [discriminate|].
    destruct (existsb _ _); [|discriminate]. congruence. }
  subst w1. repeat split.
  intros n. rewrite steps_S. cbn [step at_ req]. rewrite Hins.
  cbn [middleware_catch]. apply steps_done.
Qed.

Lemma map_where_none (set : webhook_event -> webhook_event) rows :
  map (fun r => if where_id None r then set r else r) rows = rows.
Proof. induction rows as [|r rows IH]; [reflexivity|]. cbn [map]. f_equal. exact IH. Qed.

(** An UPDATE keyed by [undefined] changes nothing. *)
Lemma query_update_none set w :
  db_up w = true -> query_update set None w = (inr tt, w).
Proof.
  intros Hup. unfold query_update. rewrite Hup.
  rewrite (map_where_none set (table w)). destruct w; reflexivity.
Qed.

(** The business logic touches neither the table nor the connection, and
    counts one run. *)
Lemma business_frame b w :
  let w1 := (business b w).2 in
  table w1 = table w /\ auto_increment w1 = auto_increment w /\
  db_up w1 = db_up w /\ now w1 = now w /\
  business_runs w1 = S (business_runs w).
Proof.
  unfold business. cbv zeta.
  destruct (body_event_type b) as [ty|]; [|repeat split].
  unfold _handleOrderCreated, _handleOrderUpdated, _handlePaymentCompleted.
  destruct (String.eqb ty "order.created");
    [destruct (body_data b); repeat split|].
  destruct (String.eqb ty "order.updated");
    [destruct (body_data b); repeat split|].
  destruct (String.eqb ty "payment.completed");
    [destruct (body_data b); repeat split|].
  repeat split.
Qed.

(** Property X3.  A delivery whose record has status failed is passed on for
    a retry: the middleware calls [next ()] with [isRetry] set and the
    record's id in [req.existingEventId], and leaves the world as it was.
    [handleCallback] reads [req.eventDbId], which this branch never sets, so
    every UPDATE of [processEvent] is keyed by [undefined] and matches no
    row: the request runs the business logic once and is answered, and the
    table is exactly what it was, retry counter and status included. *)
Theorem failed_event_retry_changes_no_row b w eid r rest :
  body_event_id b = Some eid -> eid <> "" -> db_up w = true ->
  sightings b w = r :: rest -> status r = failed ->
  idempotencyMiddleware b w =
    (next {| req_body := b; eventDbId := None; isRetry := true;
             existingEventId := Some (id r) |}, w) /\
  let w' := (serve b w).2 in
  business_runs w' = S (business_runs w) /\
  table w' = table w /\
  is_Some (response_of (serve b w).1).
Proof.
  intros Hb Hne Hup Hsome Hst.
  pose proof (start_admitted b eid Hb Hne) as Hstart.
  pose proof (select_sightings b w Hup) as Hsel.
  assert (H1 : step (start b) w =
               (next {| req_body := b; eventDbId := None; isRetry := true;
                        existingEventId := Some (id r) |}, w)).
  { rewrite Hstart. cbn [step at_ req]. rewrite Hsel, Hsome, Hst. reflexivity. }
  split.
  { unfold idempotencyMiddleware. rewrite H1. reflexivity. }
  unfold serve. rewrite steps_S, H1. unfold next. cbn [isRetry].
  rewrite steps_S. cbn [step at_ req eventDbId]. rewrite (query_update_none _ _ Hup).
  rewrite steps_S. cbn [step at_ req req_body].
  pose proof (business_frame b w) as (Ht & Ha & Hd & Hn & Hr). cbv zeta in *.
  destruct (business b w) as [[e|data] w1]; cbn [snd] in *;
    rewrite steps_S; cbn [step at_ req eventDbId];
    rewrite (query_update_none _ w1) by congruence;
    cbn [steps controller_catch log snd fst table business_runs response_of at_];
    rewrite Ht, Hr; repeat split; eauto.
Qed.

(** *** Concurrent deliveries of one event *)

Lemma tally_insert f l i t t' :
  l !! i = Some t -> (tally f (<[i := t']> l) + f t = tally f l + f t')%nat.
Proof.
  unfold tally. revert i. induction l as [|x l IH]; intros i Hi; [discriminate|].
  destruct i as [|i]; simpl in *.
  - injection Hi as ->. lia.
  - specialize (IH i Hi). lia.
Qed.

Lemma tally_le f g l : (forall t, (f t <= g t)%nat) -> (tally f l <= tally g l)%nat.
Proof.
  intros Hfg. unfold tally. induction l as [|x l IH]; simpl; [lia|].
  specialize (Hfg x). lia.
Qed.

Lemma finished_le_ran t : (finished t <= ran t)%nat.
Proof. unfold finished, ran. destruct (at_ t) as [| | | | | |[]]; lia. Qed.

Lemma ran_le_owner t : (ran t <= owner t)%nat.
Proof. unfold owner, ran. destruct (at_ t) as [| | | | | |[]]; lia. Qed.

Lemma sightings_table b w w' : table w' = table w -> sightings b w' = sightings b w.
Proof. unfold sightings. intros ->. reflexivity. Qed.

Lemma filter_map_comm {A} (P : A -> Prop) `{forall x, Decision (P x)} (f : A -> A) l :
  (forall x, P (f x) <-> P x) -> filter P (map f l) = map f (filter P l).
Proof.
  intros Hf. induction l as [|x l IH]; [reflexivity|].
  cbn [map]. rewrite !filter_cons.
  destruct (decide (P x)) as [Hx|Hx].
  - rewrite decide_True by (apply Hf; exact Hx). cbn [map]. f_equal. exact IH.
  - rewrite decide_False by (rewrite Hf; exact Hx). exact IH.
Qed.

(** An UPDATE that leaves [event_id] alone acts on the sightings row by
    row. *)
Lemma sightings_update b set key w :
  (forall r, event_id (set r) = event_id r) ->
  sightings b (with_table (map (fun r => if where_id key r then set r else r) (table w)) w)
  = map (fun r => if where_id key r then set r else r) (sightings b w).
Proof.
  intros Hset. unfold sightings. cbn [table with_table].
  apply filter_map_comm. intros r. unfold has_event_id.
  destruct (where_id key r); [rewrite Hset|]; reflexivity.
Qed.

Lemma sightings_insert b w :
  sightings b (inserted b w) = (sightings b w ++ [pending_row b w])%list.
Proof.
  unfold sightings, inserted. cbn [table]. rewrite filter_app. f_equal.
  rewrite filter_cons, decide_True; [reflexivity|].
  unfold has_event_id, pending_row. cbn [event_id]. apply String.eqb_refl.
Qed.

Lemma placed_first b sel t : placed b [] t -> placed b sel t.
Proof.
  unfold placed. destruct (at_ t) as [| | | | | |[]]; try tauto;
    try (intros (row & Hrow & _); discriminate); intros; exfalso; tauto.
Qed.

Lemma placed_same_ids b sel sel' t :
  map id sel' = map id sel -> placed b sel t -> placed b sel' t.
Proof.
  intros Hids.
  assert (Hne : sel <> [] -> sel' <> []).
  { intros Hs ->. destruct sel; [contradiction|discriminate]. }
  unfold placed. destruct (at_ t) as [| | | | | |[]]; try tauto.
  - intros (row & -> & Hreq). destruct sel' as [|row' [|? ?]]; try discriminate.
    injection Hids as Hid. exists row'. rewrite Hid. tauto.
  - intros (row & -> & Hreq). destruct sel' as [|row' [|? ?]]; try discriminate.
    injection Hids as Hid. exists row'. rewrite Hid. tauto.
Qed.

(** One worker moves from [t] to [t'] and the world to [w']: what it takes
    for the system to stay coherent. *)
Lemma coherent_move b runs s i t t' w' :
  coherent b runs s -> workers s !! i = Some t ->
  db_up w' = true ->
  (length (sightings b w') <= 1)%nat ->
  (owner t' + length (sightings b (shared s)) = owner t + length (sightings b w'))%nat ->
  (business_runs w' + ran t = business_runs (shared s) + ran t')%nat ->
  (forall n, (n + finished t = tally finished (workers s) + finished t')%nat ->
     Forall (fun row => status row = match n with O => pending | S _ => processed end)
            (sightings b w')) ->
  placed b (sightings b w') t' ->
  (forall u, placed b (sightings b (shared s)) u -> placed b (sightings b w') u) ->
  coherent b runs {| shared := w'; workers := <[i := t']> (workers s) |}.
Proof.
  intros [Hup Hrows Hown Hruns Hst Hw] Hi Hup' Hrows' Howner Hran Hstatus Hplaced Hkeep.
  pose proof (tally_insert owner _ i t t' Hi) as To.
  pose proof (tally_insert ran _ i t t' Hi) as Tr.
  pose proof (tally_insert finished _ i t t' Hi) as Tf.
  constructor; cbn [shared workers]; try assumption; try lia.
  - apply Hstatus. lia.
  - apply Forall_insert; [|exact Hplaced].
    eapply Forall_impl; [exact Hw|exact Hkeep].
Qed.

(** The steps of a worker delivering [b], one lemma per statement. *)
Lemma step_select b w :
  db_up w = true ->
  step {| req := incoming b; at_ := AtSelect |} w =
    match sightings b w with
    | [] => ({| req := incoming b; at_ := AtInsert |}, w)
    | row :: _ =>
        match status row with
        | processed =>
            ({| req := incoming b;
                at_ := Done (AlreadyProcessed (eventId (incoming b)) (processed_at row)) |}, w)
        | failed =>
            (next {| req_body := b; eventDbId := None; isRetry := true;
                     existingEventId := Some (id row) |}, w)
        | pending =>
            ({| req := incoming b; at_ := Done (BeingProcessed (eventId (incoming b))) |}, w)
        end
    end.
Proof. intros Hup. cbn [step at_ req]. rewrite (select_sightings b w Hup). reflexivity. Qed.

Lemma step_insert b w :
  storable b -> db_up w = true ->
  step {| req := incoming b; at_ := AtInsert |} w =
    match sightings b w with
    | [] => ({| req := claimed b (auto_increment w); at_ := AtBusiness |}, inserted b w)
    | _ :: _ =>
        ({| req := incoming b; at_ := Done (DuplicateDetected (eventId (incoming b))) |}, w)
    end.
Proof.
  intros Hfit Hup. cbn [step at_ req]. unfold query_insert, inserted. rewrite Hup.
  change (eventId (incoming b)) with (default "" (body_event_id b)).
  change (req_body (incoming b)) with b.
  unfold storable in Hfit. rewrite Hfit. cbn [negb].
  rewrite existsb_sightings. destruct (sightings b w); reflexivity.
Qed.

Lemma step_business b k w :
  step {| req := claimed b k; at_ := AtBusiness |} w =
    match business b w with
    | (inl e, w1) => ({| req := claimed b k; at_ := AtMarkFailed e |}, w1)
    | (inr data, w1) => ({| req := claimed b k; at_ := AtMarkProcessed data |}, w1)
    end.
Proof. reflexivity. Qed.

Lemma step_mark_processed b k data w :
  db_up w = true ->
  step {| req := claimed b k; at_ := AtMarkProcessed data |} w =
    ({| req := claimed b k; at_ := Done (Processed (body_event_id b) data) |},
     marked_processed k w).
Proof.
  intros Hup. cbn [step at_ req claimed eventDbId]. unfold query_update, marked_processed.
  rewrite Hup. reflexivity.
Qed.

Lemma sightings_marked b row w :
  sightings b w = [row] ->
  sightings b (marked_processed (id row) w) = [set_processed (now w) row].
Proof.
  intros Hsel. unfold marked_processed.
  rewrite sightings_update by reflexivity. rewrite Hsel. cbn [map where_id].
  rewrite Z.eqb_refl. reflexivity.
Qed.

(** Whichever worker runs next, the system stays coherent. *)
Lemma coherent_step b runs s i :
  storable b -> business_ok b -> coherent b runs s -> coherent b runs (sys_step i s).
Proof.
  intros Hfit Hok Hc. unfold sys_step.
  destruct (workers s !! i) as [t|] eqn:Hi; [|exact Hc].
  pose proof Hc as [Hup Hrows Hown Hruns Hst Hw].
  pose proof (proj1 (Forall_lookup _ _) Hw i t Hi) as Ht.
  pose proof (tally_le finished owner (workers s)
                (fun u => Nat.le_trans _ _ _ (finished_le_ran u) (ran_le_owner u))) as Hfo.
  assert (Hsame : forall n,
            n = tally finished (workers s) ->
            Forall (fun row => status row = match n with O => pending | S _ => processed end)
                   (sightings b (shared s))).
  { intros n ->. exact Hst. }
  destruct t as [r p]. unfold placed in Ht. cbn [at_ req] in Ht.
  destruct p as [ | | | | data | e | resp]; try contradiction.
  - (* SELECT *)
    subst r. rewrite (step_select b _ Hup).
    destruct (sightings b (shared s)) as [|row rest] eqn:Hsel.
    + apply (coherent_move b runs s i _ _ _ Hc Hi Hup); rewrite ?Hsel; cbn; try lia.
      * intros n Hn. constructor.
      * reflexivity.
      * tauto.
    + assert (rest = []) as -> by (destruct rest; [reflexivity|simpl in Hrows; lia]).
      pose proof (Forall_inv Hst) as Hrow. cbn beta in Hrow.
      destruct (status row) eqn:Hstatus.
      * apply (coherent_move b runs s i _ _ _ Hc Hi Hup); rewrite ?Hsel; cbn; try lia.
        -- intros n Hn. apply Hsame. lia.
        -- discriminate.
        -- tauto.
      * apply (coherent_move b runs s i _ _ _ Hc Hi Hup); rewrite ?Hsel; cbn; try lia.
        -- intros n Hn. apply Hsame. lia.
        -- discriminate.
        -- tauto.
      * destruct (tally finished (workers s)); discriminate.
  - (* INSERT *)
    subst r. rewrite (step_insert b _ Hfit Hup).
    destruct (sightings b (shared s)) as [|row rest] eqn:Hsel.
    + apply (coherent_move b runs s i _ _ _ Hc Hi); [exact Hup|..];
        rewrite ?sightings_insert, ?Hsel; cbn; try lia.
      * intros n Hn. simpl in Hown. constructor; [|constructor].
        cbn. destruct n; [reflexivity|lia].
      * exists (pending_row b (shared s)). split; reflexivity.
      * intros u. apply placed_first.
    + assert (rest = []) as -> by (destruct rest; [reflexivity|simpl in Hrows; lia]).
      apply (coherent_move b runs s i _ _ _ Hc Hi Hup); rewrite ?Hsel; cbn; try lia.
      * intros n Hn. apply Hsame. lia.
      * discriminate.
      * tauto.
  - (* the business logic *)
    destruct Ht as (row & Hsel & ->). rewrite step_business.
    pose proof (business_frame b (shared s)) as (Htab & _ & Hdb & _ & Hrun).
    destruct (Hok (shared s)) as (data & w1 & Hb). rewrite Hb in *. cbn [snd] in *.
    apply (coherent_move b runs s i _ _ _ Hc Hi); [congruence|..];
      rewrite ?(sightings_table b _ _ Htab), ?Hsel; cbn; try lia.
    * intros n Hn. rewrite <- Hsel. apply Hsame. lia.
    * exists row. split; reflexivity.
    * tauto.
  - (* UPDATE ... SET status = 'processed' *)
    destruct Ht as (row & Hsel & ->). rewrite (step_mark_processed b _ _ _ Hup).
    apply (coherent_move b runs s i _ _ _ Hc Hi); [exact Hup|..];
      rewrite ?(sightings_marked b row _ Hsel), ?Hsel; cbn; try lia.
    * intros n Hn. constructor; [|constructor]. cbn. destruct n; [lia|reflexivity].
    * split; [discriminate|reflexivity].
    * intros u. apply placed_same_ids. reflexivity.
  - (* done *)
    cbn [step at_]. rewrite list_insert_id by exact Hi. destruct s; exact Hc.
Qed.

Lemma run_schedule_cons i schedule s :
  run_schedule (i :: schedule) s = run_schedule schedule (sys_step i s).
Proof. reflexivity. Qed.

Lemma coherent_run b runs schedule :
  storable b -> business_ok b ->
  forall s, coherent b runs s -> coherent b runs (run_schedule schedule s).
Proof.
  intros Hfit Hok. induction schedule as [|i schedule IH]; intros s Hc; [exact Hc|].
  rewrite run_schedule_cons. apply IH, coherent_step; assumption.
Qed.

Lemma tally_replicate f n t : tally f (replicate n t) = (n * f t)%nat.
Proof. unfold tally. induction n as [|n IH]; simpl; [reflexivity|]. rewrite IH. lia. Qed.

(** The deliveries start from a coherent system. *)
Lemma coherent_submit b eid n w :
  body_event_id b = Some eid -> eid <> "" ->
  db_up w = true -> sightings b w = [] ->
  coherent b (business_runs w) (submit n b w).
Proof.
  intros Hb Hne Hup Hsel. unfold submit. rewrite (start_admitted b eid Hb Hne).
  constructor; cbn [shared workers]; rewrite ?Hsel, ?tally_replicate; cbn; try lia.
  - exact Hup.
  - constructor.
  - apply Forall_replicate. reflexivity.
Qed.

(** *** The uniqueness constraint *)

Lemma existsb_event_id eid rows :
  existsb (has_event_id eid) rows = false ->
  ~ In (weight eid) (map (fun r => weight (event_id r)) rows).
Proof.
  induction rows as [|r rows IH]; cbn [existsb map In]; [tauto|].
  intros H [Heq|Hin]; apply orb_false_elim in H as [H1 H2].
  - unfold has_event_id in H1. rewrite Heq, String.eqb_refl in H1. discriminate.
  - exact (IH H2 Hin).
Qed.

Lemma query_update_event_ids set key w :
  (forall r, event_id (set r) = event_id r) ->
  map (fun r => weight (event_id r)) (table (query_update set key w).2) =
  map (fun r => weight (event_id r)) (table w).
Proof.
  intros Hset. unfold query_update. destruct (db_up w); [|reflexivity].
  cbn [snd table with_table]. rewrite map_map. apply map_ext.
  intros r. destruct (where_id key r); [rewrite Hset|]; reflexivity.
Qed.

(** Whatever a worker does, the table keeps at most one row per event
    identifier: an UPDATE leaves the identifiers alone and the INSERT
    goes through only when no row has the identifier. *)
Lemma step_unique t w : unique (table w) -> unique (table (step t w).2).
Proof.
  unfold unique. intros Hu. destruct t as [r p].
  destruct p as [ | | | | data | e | resp]; cbn [step at_ req].
  - destruct (query_select (eventId r) w) as [[]|[|row rows]]; cbn; try assumption.
    destruct (status row); assumption.
  - unfold query_insert. destruct (db_up w); [|exact Hu].
    destruct (negb _); [exact Hu|].
    destruct (existsb _ (table w)) eqn:He; [exact Hu|].
    cbn [snd table]. rewrite map_app. cbn [map event_id].
    apply NoDup_app. repeat split; [exact Hu| |apply NoDup_singleton].
    intros x Hx Hin. apply list_elem_of_In in Hx.
    apply list_elem_of_singleton in Hin. subst x.
    exact (existsb_event_id _ _ He Hx).
  - pose proof (query_update_event_ids bump_retry (eventDbId r) w (fun _ => eq_refl)) as Hq.
    destruct (query_update bump_retry (eventDbId r) w) as [[|] w1];
      cbn [snd] in *; rewrite Hq; exact Hu.
  - pose proof (business_frame (req_body r) w) as (Ht & _).
    destruct (business (req_body r) w) as [[|] w1]; cbn [snd] in *; rewrite Ht; exact Hu.
  - pose proof (query_update_event_ids (set_processed (now w)) (eventDbId r) w
                  (fun _ => eq_refl)) as Hq.
    destruct (query_update _ (eventDbId r) w) as [[|] w1];
      cbn [snd] in *; rewrite Hq; exact Hu.
  - pose proof (query_update_event_ids set_failed (eventDbId r) w (fun _ => eq_refl)) as Hq.
    destruct (query_update set_failed (eventDbId r) w) as [[|] w1];
      cbn [snd controller_catch log table] in *; rewrite Hq; exact Hu.
  - exact Hu.
Qed.

Lemma run_unique schedule :
  forall s, unique (table (shared s)) -> unique (table (shared (run_schedule schedule s))).
Proof.
  induction schedule as [|i schedule IH]; intros s Hu; [exact Hu|].
  rewrite run_schedule_cons. apply IH. unfold sys_step.
  destruct (workers s !! i) as [t|]; [|exact Hu].
  pose proof (step_unique t (shared s) Hu) as Hs.
  destruct (step t (shared s)). exact Hs.
Qed.

Lemma run_length schedule :
  forall s, length (workers (run_schedule schedule s)) = length (workers s).
Proof.
  induction schedule as [|i schedule IH]; intros s; [reflexivity|].
  rewrite run_schedule_cons, IH. unfold sys_step.
  destruct (workers s !! i) as [t|]; [|reflexivity].
  destruct (step t (shared s)). cbn [workers]. apply length_insert.
Qed.

(** *** Every delivery is answered *)

(** A turn takes a worker of a coherent system one statement further. *)
Lemma todo_step b runs s i t :
  storable b -> business_ok b -> coherent b runs s -> workers s !! i = Some t ->
  exists t', workers (sys_step i s) !! i = Some t' /\ (todo t' <= todo t - 1)%nat.
Proof.
  intros Hfit Hok Hc Hi. pose proof Hc as [Hup _ _ _ _ Hw].
  pose proof (proj1 (Forall_lookup _ _) Hw i t Hi) as Ht.
  pose proof (lookup_lt_Some _ _ _ Hi) as Hlt.
  unfold sys_step. rewrite Hi.
  assert (Hgo : forall x, step t (shared s) = x -> (todo x.1 <= todo t - 1)%nat ->
     exists t', workers (let '(t1, w1) := step t (shared s) in
                         {| shared := w1; workers := <[i := t1]> (workers s) |}) !! i
                = Some t' /\ (todo t' <= todo t - 1)%nat).
  { intros [t1 w1] -> Hle. exists t1. cbn [workers].
    rewrite list_lookup_insert_eq by exact Hlt. split; [reflexivity|exact Hle]. }
  destruct t as [r p]. unfold placed in Ht. cbn [at_ req] in Ht.
  destruct p as [ | | | | data | e | resp]; try contradiction.
  - subst r. eapply Hgo; [apply (step_select b _ Hup)|].
    destruct (sightings b (shared s)) as [|row rest]; [cbn; lia|].
    destruct (status row); cbn; lia.
  - subst r. eapply Hgo; [apply (step_insert b _ Hfit Hup)|].
    destruct (sightings b (shared s)); cbn; lia.
  - destruct Ht as (row & _ & ->).
    destruct (Hok (shared s)) as (data & w1 & Hb).
    eapply Hgo; [rewrite step_business, Hb; reflexivity|]. cbn. lia.
  - destruct Ht as (row & _ & ->).
    eapply Hgo; [apply (step_mark_processed b _ _ _ Hup)|]. cbn. lia.
  - eapply Hgo; [reflexivity|]. cbn. lia.
Qed.

Lemma sys_step_other i j s :
  i <> j -> workers (sys_step j s) !! i = workers s !! i.
Proof.
  intros Hne. unfold sys_step. destruct (workers s !! j) as [t|]; [|reflexivity].
  destruct (step t (shared s)). cbn [workers].
  apply list_lookup_insert_ne. congruence.
Qed.

Lemma todo_run b runs schedule :
  storable b -> business_ok b ->
  forall s i t, coherent b runs s -> workers s !! i = Some t ->
    exists t', workers (run_schedule schedule s) !! i = Some t' /\
               (todo t' <= todo t - turns i schedule)%nat.
Proof.
  intros Hfit Hok. induction schedule as [|j schedule IH]; intros s i t Hc Hi.
  - exists t. split; [exact Hi|]. cbn. lia.
  - rewrite run_schedule_cons. unfold turns. cbn [count_occ].
    pose proof (coherent_step b runs s j Hfit Hok Hc) as Hc'.
    destruct (Nat.eq_dec j i) as [->|Hne].
    + destruct (todo_step b runs s i t Hfit Hok Hc Hi) as (t1 & Hi1 & Hle).
      destruct (IH _ i t1 Hc' Hi1) as (t' & Hi' & Hle').
      exists t'. split; [exact Hi'|]. unfold turns in Hle'. lia.
    + assert (Hi1 : workers (sys_step j s) !! i = Some t).
      { rewrite sys_step_other by congruence. exact Hi. }
      destruct (IH _ i t Hc' Hi1) as (t' & Hi' & Hle').
      exists t'. split; [exact Hi'|exact Hle'].
Qed.

Lemma todo_done t : todo t = 0%nat -> is_Some (response_of t).
Proof.
  unfold todo, response_of. destruct (at_ t); try discriminate. eauto.
Qed.

(** *** The answers *)

Lemma omap_cons {A B} (f : A -> option B) x l :
  omap f (x :: l) = match f x with Some y => y :: omap f l | None => omap f l end.
Proof. reflexivity. Qed.

Lemma responses_new l :
  length (filter (fun r => reports_new r = true) (omap response_of l)) = tally finished l.
Proof.
  unfold tally. induction l as [|t l IH]; [reflexivity|].
  rewrite omap_cons. cbn [map sum_list]. unfold response_of at 1, finished at 1.
  destruct (at_ t) as [| | | | | |resp]; try exact IH.
  rewrite filter_cons. destruct resp; cbn [reports_new];
    first [ rewrite decide_True by reflexivity; cbn [length]; f_equal; exact IH
          | rewrite decide_False by discriminate; exact IH ].
Qed.

Lemma responses_all l :
  Forall (fun t => is_Some (response_of t)) l -> length (omap response_of l) = length l.
Proof.
  induction 1 as [|t l [r Hr] _ IH]; [reflexivity|].
  rewrite omap_cons, Hr. cbn [length]. f_equal. exact IH.
Qed.

Lemma tally_ext f g l : Forall (fun t => f t = g t) l -> tally f l = tally g l.
Proof.
  unfold tally. induction 1 as [|t l Ht _ IH]; [reflexivity|]. cbn. rewrite Ht, IH. reflexivity.
Qed.

Lemma done_owner_finished t :
  is_Some (response_of t) -> owner t = finished t /\ ran t = finished t.
Proof.
  unfold response_of, owner, ran, finished. intros [r Hr].
  destruct (at_ t) as [| | | | | |[]]; try discriminate; split; reflexivity.
Qed.

Lemma placed_answer b sel t r :
  placed b sel t -> response_of t = Some r ->
  sel <> [] /\
  (reports_new r = true \/ reports_completed r = true \/ reports_in_flight r = true).
Proof.
  unfold placed, response_of. destruct (at_ t) as [| | | | | |resp]; try discriminate.
  intros Hp [= <-]. destruct resp; cbn; try contradiction; intuition.
Qed.


(** *** The route as a whole *)

Lemma serve_unfold b w :
  serve b w =
    let '(t1, w1) := step (start b) w in
    let '(t2, w2) := step t1 w1 in
    let '(t3, w3) := step t2 w2 in
    step t3 w3.
Proof.
  unfold serve. cbn [steps].
  destruct (step (start b) w) as [t1 w1]. destruct (step t1 w1) as [t2 w2].
  destruct (step t2 w2) as [t3 w3]. destruct (step t3 w3). reflexivity.
Qed.

Lemma step_done r resp w :
  step {| req := r; at_ := Done resp |} w = ({| req := r; at_ := Done resp |}, w).
Proof. reflexivity. Qed.

(** A statement of [processEvent] run while the server is within reach
    leaves it within reach. *)
Lemma query_update_up set key w :
  db_up w = true ->
  exists w1, query_update set key w = (inr tt, w1) /\ db_up w1 = true.
Proof.
  intros Hup. unfold query_update. rewrite Hup. eexists. split; [reflexivity|exact Hup].
Qed.

(** The last statements of a request, from the business logic on. *)
Lemma finish_from_business r w :
  db_up w = true ->
  is_Some (response_of (steps 2 {| req := r; at_ := AtBusiness |} w).1).
Proof.
  intros Hup. rewrite steps_S. cbn [step at_ req].
  pose proof (business_frame (req_body r) w) as (_ & _ & Hdb & _).
  destruct (business (req_body r) w) as [[e|data] w1]; cbn [snd] in Hdb;
    rewrite steps_S; cbn [step at_ req].
  - destruct (query_update_up set_failed (eventDbId r) w1 ltac:(congruence))
      as (w2 & -> & _). cbn; eauto.
  - destruct (query_update_up (set_processed (now w1)) (eventDbId r) w1 ltac:(congruence))
      as (w2 & -> & _). cbn; eauto.
Qed.

(** Property X5.  Every request is answered: served alone, whatever the
    body, the table and the state of the connection, the worker has sent its
    response after at most four statements. *)
Theorem serve_answers b w : is_Some (response_of (serve b w).1).
Proof.
  unfold serve, start.
  destruct (falsy (body_event_id b)); cbv beta zeta iota; [rewrite steps_done; cbn; eauto|].
  rewrite steps_S. cbn [step at_ req].
  unfold query_select. destruct (db_up w) eqn:Hup; [|cbn [middleware_catch]; rewrite steps_done; cbn; eauto].
  set (r0 := {| req_body := b; eventDbId := None; isRetry := false;
                existingEventId := None |}).
  destruct (filter _ (table w)) as [|row rows].
  - rewrite steps_S. cbn [step at_ req]. unfold query_insert. rewrite Hup.
    destruct (negb _); [cbn [middleware_catch]; rewrite steps_done; cbn; eauto|].
    destruct (existsb _ (table w)); [cbn [middleware_catch]; rewrite steps_done; cbn; eauto|].
    unfold next. cbn [isRetry r0]. apply finish_from_business. reflexivity.
  - destruct (status row); try (rewrite steps_done; cbn; eauto; fail).
    unfold next. cbn [isRetry]. rewrite steps_S. cbn [step at_ req].
    destruct (query_update_up bump_retry (eventDbId r0) w Hup) as (w1 & Hq & Hup1).
    cbn [eventDbId r0] in Hq |- *. rewrite Hq.
    apply finish_from_business. exact Hup1.
Qed.

(** Property X6.  The server out of reach: a delivery with an identifier is
    answered 500 "Failed to verify event idempotency" after the failed
    SELECT; the error is logged, the business logic is not entered and the
    table is not touched. *)
Theorem unreachable_table_answers_500 b eid w :
  body_event_id b = Some eid -> eid <> "" -> db_up w = false ->
  serve b w =
    ({| req := incoming b; at_ := Done IdempotencyFailed |},
     log "Idempotency check failed:" w) /\
  status_code IdempotencyFailed = 500 /\ success IdempotencyFailed = false.
Proof.
  intros Hb Hne Hdown. repeat split.
  unfold serve. rewrite (start_admitted b eid Hb Hne), steps_S.
  cbn [step at_ req]. unfold query_select. rewrite Hdown.
  cbn [middleware_catch]. apply steps_done.
Qed.

(** Property X7.  A delivery without an identifier (missing, null or the
    empty string) is answered 400 before any statement is sent: the world is
    what it was, whatever the state of the connection. *)
Theorem missing_event_id_answers_400 b w :
  falsy (body_event_id b) = true ->
  serve b w = ({| req := incoming b; at_ := Done MissingEventId |}, w) /\
  status_code MissingEventId = 400.
Proof.
  intros Hf. split; [|reflexivity]. unfold serve, start. rewrite Hf. apply steps_done.
Qed.

Lemma sightings_log b line w : sightings b (log line w) = sightings b w.
Proof. reflexivity. Qed.

Lemma sightings_set_failed b k w :
  sightings b (with_table (map (fun r => if where_id (Some k) r then set_failed r else r)
                               (table w)) w)
  = map (fun r => if where_id (Some k) r then set_failed r else r) (sightings b w).
Proof. apply sightings_update. reflexivity. Qed.

(** A first delivery served alone: the statements it runs and what they
    leave. *)
Lemma served_first b eid w :
  body_event_id b = Some eid -> eid <> "" -> storable b -> db_up w = true ->
  sightings b w = [] ->
  let '(t, w') := serve b w in
  business_runs w' = S (business_runs w) /\
  match (business b (inserted b w)).1 with
  | inr data =>
      response_of t = Some (Processed (Some eid) data) /\
      sightings b w' = [set_processed (now w) (pending_row b w)]
  | inl e =>
      response_of t = Some (ProcessingFailed (error_message e)) /\
      sightings b w' = [set_failed (pending_row b w)]
  end.
Proof.
  intros Hb Hne Hfit Hup Hsel.
  assert (Hup1 : db_up (inserted b w) = true) by exact Hup.
  assert (Hs1 : sightings b (inserted b w) = [pending_row b w]).
  { rewrite sightings_insert, Hsel. reflexivity. }
  rewrite serve_unfold, (start_admitted b eid Hb Hne).
  rewrite (step_select b w Hup), Hsel.
  rewrite (step_insert b w Hfit Hup), Hsel.
  rewrite step_business.
  pose proof (business_frame b (inserted b w)) as (Htab & Hai & Hdb & Hnow & Hrun).
  destruct (business b (inserted b w)) as [[e|data] w1]; cbn [fst snd] in *.
  - cbn [step at_ req claimed eventDbId]. unfold query_update.
    rewrite Hdb, Hup1. cbn [controller_catch response_of at_].
    split; [exact Hrun|]. split; [reflexivity|].
    rewrite sightings_log, sightings_set_failed, (sightings_table b _ _ Htab), Hs1.
    cbn [map where_id pending_row id]. rewrite Z.eqb_refl. reflexivity.
  - assert (Hup2 : db_up w1 = true) by congruence.
    rewrite (step_mark_processed b _ _ _ Hup2). cbn [response_of at_].
    split; [exact Hrun|]. rewrite Hb. split; [reflexivity|].
    assert (Hs2 : sightings b w1 = [pending_row b w])
      by (rewrite (sightings_table b _ _ Htab); exact Hs1).
    change (auto_increment w) with (id (pending_row b w)).
    rewrite (sightings_marked b _ _ Hs2), Hnow. reflexivity.
Qed.


(** No statement changes whether the server is within reach. *)
Lemma step_db_up t w : db_up (step t w).2 = db_up w.
Proof.
  destruct t as [r p]. destruct p as [ | | | | data | e | resp]; cbn [step at_ req].
  - unfold query_select. destruct (db_up w) eqn:Hup; [|cbn; exact Hup].
    destruct (filter _ (table w)) as [|row rows]; [cbn; exact Hup|].
    destruct (status row); cbn; exact Hup.
  - unfold query_insert. destruct (db_up w) eqn:Hup; [|cbn; exact Hup].
    destruct (negb _); [cbn; exact Hup|].
    destruct (existsb _ (table w)); cbn; congruence.
  - unfold query_update. destruct (db_up w) eqn:Hup; cbn; congruence.
  - pose proof (business_frame (req_body r) w) as (_ & _ & Hdb & _).
    destruct (business (req_body r) w) as [[|] w1]; exact Hdb.
  - unfold query_update. destruct (db_up w) eqn:Hup; cbn; congruence.
  - unfold query_update. destruct (db_up w) eqn:Hup; cbn; congruence.
  - reflexivity.
Qed.

Lemma steps_db_up n : forall t w, db_up (steps n t w).2 = db_up w.
Proof.
  induction n as [|n IH]; intros t w; [reflexivity|].
  rewrite steps_S. pose proof (step_db_up t w) as H.
  destruct (step t w) as [t1 w1]. rewrite IH. exact H.
Qed.

Lemma serve_up b w : db_up w = true -> db_up (serve b w).2 = true.
Proof. intros H. unfold serve. rewrite steps_db_up. exact H. Qed.

(** Property X9.  A delivery followed by the same delivery.  When the first
    one, served alone on a table without the identifier, was processed (its
    identifier and type fit their columns and the business logic returned),
    the second is answered 200 "Event already processed (idempotent
    response)" with the instant the first was processed at, and changes
    nothing: no statement but its SELECT is sent and the business logic is
    not entered again. *)
Theorem second_delivery_replays b eid w data :
  body_event_id b = Some eid -> eid <> "" -> storable b -> db_up w = true ->
  sightings b w = [] ->
  (business b (inserted b w)).1 = inr data ->
  let w1 := (serve b w).2 in
  serve b w1 =
    ({| req := incoming b; at_ := Done (AlreadyProcessed eid (Some (now w))) |}, w1).
Proof.
  intros Hb Hne Hfit Hup Hsel Hbus w1.
  pose proof (served_first b eid w Hb Hne Hfit Hup Hsel) as H.
  pose proof (serve_up b w Hup) as Hup1.
  subst w1. destruct (serve b w) as [t w1]. cbn [snd] in *.
  rewrite Hbus in H. destruct H as (_ & _ & Hs).
  unfold serve. rewrite (start_admitted b eid Hb Hne), steps_S.
  rewrite (step_select b w1 Hup1), Hs. cbn [status set_processed processed_at].
  assert (He : eventId (incoming b) = eid) by (unfold eventId; cbn; rewrite Hb; reflexivity).
  rewrite He. apply steps_done.
Qed.

(** Property X10.  Whatever workers run, on whatever requests and in
    whatever order, a table with at most one row per event identifier keeps
    at most one: the INSERT goes through only when no row has the
    identifier, and no UPDATE touches an identifier. *)
Theorem every_schedule_keeps_one_row_per_event schedule s :
  unique (table (shared s)) -> unique (table (shared (run_schedule schedule s))).
Proof. apply run_unique. Qed.

End Collated.

(** *** The sample event, under the collation of the examples *)
Section Samples.
#[local] Existing Instance ascii_ci.


(** The three admissions on the sample event: first sighting,
    a processed record, a pending record. *)
Example admit_evt_1 :
  idempotencyMiddleware evt_1 empty_table
    = ({| req := {| req_body := evt_1; eventDbId := Some 1; isRetry := false;
                    existingEventId := None |};
          at_ := AtBusiness |},
       evt_1_in pending) /\
  serve evt_1 (evt_1_in processed)
    = ({| req := incoming evt_1; at_ := Done (AlreadyProcessed "evt_1" None) |},
       evt_1_in processed) /\
  serve evt_1 (evt_1_in pending)
    = ({| req := incoming evt_1; at_ := Done (BeingProcessed "evt_1") |},
       evt_1_in pending).
Proof. repeat split. Qed.

Lemma lost_race_reports_duplicate_witness :
  let r := incoming evt_1 in
  let w := evt_1_in pending in
  query_insert (eventId r) (stored_event_type (req_body r))
               (body_json (req_body r)) w = (inl ER_DUP_ENTRY, w) /\
  let answer := DuplicateDetected (eventId r) in
  (forall n, steps (S n) {| req := r; at_ := AtInsert |} w
             = ({| req := r; at_ := Done answer |}, w)) /\
  status_code answer = 200 /\ success answer = true /\
  message answer = "Event already processed (duplicate detected)".
Proof.
  intros r w. split; [reflexivity|].
  exact (lost_race_reports_duplicate r w w eq_refl).
Defined.

(** That race on the sample event: both workers SELECT before
    either INSERTs; the second INSERT is refused. *)
Example two_deliveries_race :
  let s := run_schedule [0; 1; 0; 1; 0; 0]%nat (submit 2 evt_1 empty_table) in
  responses s =
    [ Processed (Some "evt_1")
        [("order_id", JStr "ORD-001"); ("status", JStr "confirmed");
         ("processed", JBool true)];
      DuplicateDetected "evt_1" ] /\
  business_runs (shared s) = 1%nat /\
  table (shared s) =
    [ {| id := 1; event_id := "evt_1"; event_type := "order.created";
         payload := "{...}"; status := processed; retry_count := 0;
         processed_at := Some 1000 |} ].
Proof. repeat split. Qed.

Lemma failed_event_retry_changes_no_row_witness :
  body_event_id evt_1 = Some "evt_1" /\ "evt_1" <> "" /\ db_up evt_1_failed = true /\
  sightings evt_1 evt_1_failed = [evt_1_row failed] /\
  status (evt_1_row failed) = failed /\
  idempotencyMiddleware evt_1 evt_1_failed =
    (next {| req_body := evt_1; eventDbId := None; isRetry := true;
             existingEventId := Some (id (evt_1_row failed)) |}, evt_1_failed) /\
  let w' := (serve evt_1 evt_1_failed).2 in
  business_runs w' = S (business_runs evt_1_failed) /\
  table w' = table evt_1_failed /\
  is_Some (response_of (serve evt_1 evt_1_failed).1).
Proof.
  assert (Hne : "evt_1" <> "") by discriminate.
  split; [reflexivity|]. split; [exact Hne|]. split; [reflexivity|].
  split; [reflexivity|]. split; [reflexivity|].
  exact (failed_event_retry_changes_no_row evt_1 evt_1_failed "evt_1"
           (evt_1_row failed) [] eq_refl Hne eq_refl eq_refl eq_refl).
Defined.

(** The sample event resubmitted twice while its record is failed, with a
    body on which the business logic succeeds: both times the answer is
    200 "Webhook processed successfully" and the business logic runs, and
    the record keeps its retry counter of 0 and its status failed. *)
Example resubmitted_twice :
  let '(t1, w1) := serve evt_1 evt_1_failed in
  let '(t2, w2) := serve evt_1 w1 in
  response_of t1 =
    Some (Processed (Some "evt_1")
            [("order_id", JStr "ORD-001"); ("status", JStr "confirmed");
             ("processed", JBool true)]) /\
  eventDbId (req t1) = None /\ existingEventId (req t1) = Some 1 /\
  table w1 = [evt_1_row failed] /\
  business_runs w1 = 1%nat /\
  response_of t2 = response_of t1 /\
  table w2 = [evt_1_row failed] /\
  business_runs w2 = 2%nat.
Proof. repeat split. Qed.

Lemma unreachable_table_answers_500_witness :
  let w := {| table := []; auto_increment := 1; db_up := false; now := 1000;
              console := []; business_runs := 0%nat |} in
  body_event_id evt_1 = Some "evt_1" /\ "evt_1" <> "" /\ db_up w = false /\
  serve evt_1 w =
    ({| req := incoming evt_1; at_ := Done IdempotencyFailed |},
     log "Idempotency check failed:" w) /\
  status_code IdempotencyFailed = 500 /\ success IdempotencyFailed = false.
Proof.
  intros w. assert (Hne : "evt_1" <> "") by discriminate.
  split; [reflexivity|]. split; [exact Hne|]. split; [reflexivity|].
  exact (unreachable_table_answers_500 evt_1 "evt_1" w eq_refl Hne eq_refl).
Defined.

Lemma missing_event_id_answers_400_witness :
  let b := {| body_event_id := Some ""; body_event_type := Some "order.created";
              body_data := DataAbsent; body_json := "{...}" |} in
  falsy (body_event_id b) = true /\
  serve b empty_table = ({| req := incoming b; at_ := Done MissingEventId |}, empty_table) /\
  status_code MissingEventId = 400.
Proof.
  intros b. split; [reflexivity|].
  exact (missing_event_id_answers_400 b empty_table eq_refl).
Defined.


(** The same first delivery when [data] is missing: the handler throws on
    [data.order_id], the answer is 500 and the record is failed. *)
Example first_delivery_without_data :
  let '(t, w') := serve evt_1_no_data empty_table in
  response_of t =
    Some (ProcessingFailed "Cannot read properties of undefined (reading 'order_id')") /\
  table w' = [evt_1_row failed].
Proof. repeat split. Qed.

(** And when [data] is null. *)
Example first_delivery_with_null_data :
  let '(t, w') := serve evt_1_null_data empty_table in
  response_of t =
    Some (ProcessingFailed "Cannot read properties of null (reading 'order_id')") /\
  table w' = [evt_1_row failed].
Proof. repeat split. Qed.

(** A first delivery whose [event_type] is the empty string: the record is
    stored with the type ['unknown'], and no handler runs. *)
Example first_delivery_with_empty_type :
  let b := {| body_event_id := Some "evt_2"; body_event_type := Some "";
              body_data := DataNull; body_json := "{...}" |} in
  let '(t, w') := serve b empty_table in
  response_of t =
    Some (Processed (Some "evt_2")
            [("message", JStr "Event type not handled"); ("data", JNull)]) /\
  table w' =
    [ {| id := 1; event_id := "evt_2"; event_type := "unknown"; payload := "{...}";
         status := processed; retry_count := 0; processed_at := Some 1000 |} ].
Proof. repeat split. Qed.

(** The identifier of a stored record in another case: the SELECT finds the
    record, as the collation of the column does not tell the two apart. *)
Example delivery_in_another_case :
  let b := {| body_event_id := Some "EVT_1"; body_event_type := Some "order.created";
              body_data := DataNull; body_json := "{...}" |} in
  serve b (evt_1_in processed) =
    ({| req := incoming b; at_ := Done (AlreadyProcessed "EVT_1" None) |},
     evt_1_in processed).
Proof. repeat split. Qed.

Lemma business_ok_evt_1 : business_ok evt_1.
Proof. intros w. eexists _, _. reflexivity. Qed.

Lemma second_delivery_replays_witness :
  body_event_id evt_1 = Some "evt_1" /\ "evt_1" <> "" /\ storable evt_1 /\
  db_up empty_table = true /\ sightings evt_1 empty_table = [] /\
  (business evt_1 (inserted evt_1 empty_table)).1
    = inr [("order_id", JStr "ORD-001"); ("status", JStr "confirmed");
           ("processed", JBool true)] /\
  let w1 := (serve evt_1 empty_table).2 in
  serve evt_1 w1 =
    ({| req := incoming evt_1;
        at_ := Done (AlreadyProcessed "evt_1" (Some (now empty_table))) |}, w1).
Proof.
  assert (Hne : "evt_1" <> "") by discriminate.
  assert (Hfit : storable evt_1) by reflexivity.
  split; [reflexivity|]. split; [exact Hne|]. split; [exact Hfit|].
  split; [reflexivity|]. split; [reflexivity|]. split; [reflexivity|].
  exact (second_delivery_replays evt_1 "evt_1" empty_table _ eq_refl Hne Hfit eq_refl
           eq_refl eq_refl).
Defined.


Lemma every_schedule_keeps_one_row_per_event_witness :
  let s := submit 3 evt_1_no_data (evt_1_in failed) in
  let schedule := [2; 0; 1; 1; 0; 2; 2; 0; 1; 0; 1; 2]%nat in
  unique (table (shared s)) /\
  unique (table (shared (run_schedule schedule s))).
Proof.
  intros s schedule.
  assert (Hu : unique (table (shared s))).
  { apply NoDup_cons. split; [apply not_elem_of_nil|constructor]. }
  split; [exact Hu|].
  exact (every_schedule_keeps_one_row_per_event schedule s Hu).
Defined.

(** Two deliveries of an event whose business logic throws, the second
    served after the first: the first answers 500 and leaves the record
    failed; the second is a retry, enters the business logic again and
    answers 500 as well. *)
Example failed_deliveries_both_run :
  let s := run_schedule [0; 0; 0; 0; 1; 1; 1; 1]%nat
             (submit 2 evt_1_no_data empty_table) in
  responses s =
    [ ProcessingFailed "Cannot read properties of undefined (reading 'order_id')";
      ProcessingFailed "Cannot read properties of undefined (reading 'order_id')" ] /\
  business_runs (shared s) = 2%nat /\
  table (shared s) = [evt_1_row failed].
Proof. repeat split. Qed.

(** Two deliveries that find the record failed and take their turns one
    after the other both enter the business logic and both answer 200
    "Webhook processed successfully". *)
Example retries_both_run :
  let s := run_schedule [0; 1; 0; 1; 0; 1; 0; 1]%nat (submit 2 evt_1 evt_1_failed) in
  map reports_new (responses s) = [true; true] /\
  business_runs (shared s) = 2%nat /\
  table (shared s) = [evt_1_row failed].
Proof. repeat split. Qed.

End Samples.

End WebhookProps.

(** ** utils/circuitBreaker.js: the calls the breaker lets through *)
Module CircuitBreakerMore.
Import Proc CircuitBreaker CircuitBreakerStats RedisFacts JsFacts ProcFacts
  CircuitBreakerProps.

Lemma stable_canAttemptReset cb : stable invoked (canAttemptReset cb).
Proof.
  unfold canAttemptReset. apply stable_bind; [auto with stable|].
  intros [s|]; [|auto with stable].
  destruct (String.eqb s ""); auto with stable.
Qed.

Lemma stable_gate cb : stable invoked (gate cb).
Proof.
  unfold gate. apply stable_bind; [apply stable_getState|]. intros state.
  apply stable_bind; [|auto with stable].
  destruct (String.eqb state "OPEN"); [|auto with stable].
  apply stable_bind; [apply stable_canAttemptReset|].
  intros []; [apply stable_setState; reflexivity|auto with stable].
Qed.

(** Property X11.  Whatever the store holds, [execute] calls the wrapped
    operation at most once: exactly once when the gate lets the call
    through, and not at all when the gate throws, in which case [execute]
    throws what the gate threw. *)
Theorem execute_invokes_at_most_once cb fn w :
  (invoked (execute cb fn w).2 <= S (invoked w))%nat /\
  match gate cb w with
  | (Ok _, _) => invoked (execute cb fn w).2 = S (invoked w)
  | (Throw e, w1) => execute cb fn w = (Throw e, w1) /\ invoked w1 = invoked w
  end.
Proof.
  pose proof (stable_gate cb w) as Hg. unfold execute, bind.
  destruct (gate cb w) as [[st|e] w1]; cbn [snd] in *.
  - rewrite attempt_invokes_once, Hg. split; [lia|reflexivity].
  - rewrite Hg. split; [lia|]. split; reflexivity.
Qed.

(** Property X12.  The store out of reach:  [execute] throws the store's
    error without calling the wrapped operation, and so does [getStats];
    nothing is changed. *)
Theorem execute_surfaces_store_failure cb fn w :
  redis_up w = false ->
  execute cb fn w = (Throw (ReplyError CONNECTION_CLOSED), w) /\
  getStats cb w = (Throw (ReplyError CONNECTION_CLOSED), w).
Proof.
  intros Hdown.
  assert (Hs : getState cb w = (Throw (ReplyError CONNECTION_CLOSED), w)).
  { unfold getState, get, bind, send. rewrite Hdown. reflexivity. }
  split.
  - unfold execute, gate, bind. rewrite Hs. reflexivity.
  - unfold getStats, bind. rewrite Hs. reflexivity.
Qed.

Lemma execute_surfaces_store_failure_witness :
  let w := {| redis := opened_at_1000; redis_up := false; clock := 61000;
              console := []; invoked := 0%nat; timers := [] |} in
  redis_up w = false /\
  execute cb0 op_ok w = (Throw (ReplyError CONNECTION_CLOSED), w) /\
  getStats cb0 w = (Throw (ReplyError CONNECTION_CLOSED), w).
Proof.
  intros w. split; [reflexivity|].
  exact (execute_surfaces_store_failure cb0 op_ok w eq_refl).
Defined.

(** Property X13.  [getStats] only reads: whatever the store holds and
    whether or not it can be reached, the world after the call is the world
    before.  On a store in which the breaker is in state [v] with [n]
    failures counted and the last one recorded at [t0], it returns these
    with the breaker's settings. *)
Theorem getStats_only_reads cb w :
  (getStats cb w).2 = w /\
  forall v n t0,
    redis_up w = true -> v <> "" ->
    holds (clock w) (stateKey cb) v (redis w) ->
    holds (clock w) (failureKey cb) (Js.toString n) (redis w) ->
    holds (clock w) (lastFailureKey cb) (Js.toString t0) (redis w) ->
    getStats cb w = (Ok (make_stats cb v (Some n) (Some t0)), w).
Proof.
  split.
  - unfold getStats, bind.
    pose proof (getState_frame cb w) as H1.
    destruct (getState cb w) as [[st|e] w1]; cbn [snd] in H1; subst w1; [|reflexivity].
    pose proof (getFailureCount_frame cb w) as H2.
    destruct (getFailureCount cb w) as [[c|e] w1]; cbn [snd] in H2; subst w1; [|reflexivity].
    pose proof (get_frame (lastFailureKey cb) w) as H3.
    destruct (get (lastFailureKey cb) w) as [[l|e] w1]; cbn [snd] in H3; subst w1;
      [|reflexivity].
    destruct l as [s|]; [|reflexivity].
    destruct (String.eqb s ""); [reflexivity|].
    destruct (Js.parseInt s); reflexivity.
  - intros v n t0 Hup Hv Hs Hf Hl. unfold getStats, bind.
    rewrite (getState_holds _ _ _ Hup Hs Hv).
    rewrite (getFailureCount_holds _ _ _ Hup Hf).
    rewrite (get_holds _ _ _ Hup Hl).
    rewrite toString_nonempty, parseInt_toString. reflexivity.
Qed.


(** Property X14.  A call that reads a state other than OPEN and HALF_OPEN
    (CLOSED, or no state stored at all) always reaches the operation.  When
    the operation returns, [execute] returns its result and deletes the
    failure counter, touching no other key.  When it throws, [execute]
    rethrows the same error, the counter goes from [n] to [n + 1], the
    instant of the failure is recorded, and the breaker opens (the next call
    at that instant is refused) exactly when [n + 1] reaches the threshold;
    below the threshold no key but the counter and the recorded instant
    changes. *)
Theorem closed_call_outcome cb fn w v r db' t' :
  redis_up w = true -> 0 < monitoringPeriod cb -> 0 < resetTimeout cb ->
  getState cb w = (Ok v, w) -> v <> "OPEN" -> v <> "HALF_OPEN" ->
  fn (redis w) (clock w) = (r, db', t') ->
  match r with
  | Ok res =>
      exists w',
        execute cb fn w = (Ok res, w') /\ clock w' = t' /\
        find t' (failureKey cb) (redis w') = None /\
        forall k, k <> failureKey cb -> find t' k (redis w') = find t' k db'
  | Throw e =>
      forall n, stored_count t' (failureKey cb) db' = Some n ->
      exists w',
        execute cb fn w = (Throw e, w') /\ clock w' = t' /\
        stored_count t' (failureKey cb) (redis w') = Some (n + 1) /\
        holds t' (lastFailureKey cb) (Js.toString t') (redis w') /\
        if failureThreshold cb <=? n + 1 then
          holds t' (stateKey cb) "OPEN" (redis w') /\
          forall fn', execute cb fn' w' = (Throw (JsError (open_message cb)), w')
        else
          forall k, k <> failureKey cb -> k <> lastFailureKey cb ->
                    find t' k (redis w') = find t' k db'
  end.
Proof.
  intros Hup Hmp Hrt Hs Hno Hnh Hfn.
  assert (Hex : execute cb fn w = attempt cb v fn w).
  { unfold execute, bind. rewrite (gate_passes_read _ _ _ Hup Hs Hno). reflexivity. }
  rewrite Hex. clear Hex.
  destruct r as [res|e].
  - destruct (attempt_success cb v fn w res db' t' Hup Hnh Hfn)
      as (w' & He & _ & Hc & Hr).
    exists w'. rewrite Hr. repeat split; try assumption.
    + apply find_delete_eq.
    + intros k Hk. apply find_delete_ne. congruence.
  - intros n Hn.
    destruct (attempt_failure cb v fn w e db' t' n Hup Hmp Hfn Hn)
      as (w' & He & Hup' & Hc & Hfk & Hlk & Hrest).
    exists w'. split; [exact He|]. split; [exact Hc|].
    split; [apply stored_count_holds; eexists; exact Hfk|]. split; [exact Hlk|].
    destruct (failureThreshold cb <=? n + 1); [|exact Hrest].
    destruct Hrest as [Hop _]. split; [exact Hop|].
    intros fn'. apply (gate_blocks _ t'); rewrite ?Hc; try assumption. lia.
Qed.

Lemma closed_call_outcome_witness :
  let w := world_at 5000 ∅ in
  redis_up w = true /\ getState cb0 w = (Ok "CLOSED", w) /\
  forall n, stored_count 5010 (failureKey cb0) ∅ = Some n ->
  exists w',
    execute cb0 op_fail w = (Throw (JsError "boom"), w') /\ clock w' = 5010 /\
    stored_count 5010 (failureKey cb0) (redis w') = Some (n + 1) /\
    holds 5010 (lastFailureKey cb0) (Js.toString 5010) (redis w') /\
    if failureThreshold cb0 <=? n + 1 then
      holds 5010 (stateKey cb0) "OPEN" (redis w') /\
      forall fn', execute cb0 fn' w' = (Throw (JsError (open_message cb0)), w')
    else
      forall k, k <> failureKey cb0 -> k <> lastFailureKey cb0 ->
                find 5010 k (redis w') = find 5010 k ∅.
Proof.
  intros w. split; [reflexivity|]. split; [reflexivity|].
  exact (closed_call_outcome cb0 op_fail w "CLOSED" (Throw (JsError "boom")) ∅ 5010
           eq_refl eq_refl eq_refl eq_refl ltac:(discriminate) ltac:(discriminate)
           eq_refl).
Defined.

(** Property X15.  The trial call, which finds OPEN once [resetTimeout] has
    elapsed and stores HALF_OPEN.  Its bookkeeping tests the state read on
    entry, OPEN, not the HALF_OPEN it has just stored.  So when the
    operation returns, the failure counter is deleted but CLOSED is never
    written: unless the operation itself changed the state key, the breaker
    is left HALF_OPEN.  When the operation throws, the counter goes from [n]
    to [n + 1] and OPEN is stored again only if [n + 1] reaches the
    threshold; otherwise the state stays as the operation left it. *)
Theorem trial_call_outcome cb fn w t0 r db' t' :
  redis_up w = true -> 0 < monitoringPeriod cb ->
  holds (clock w) (stateKey cb) "OPEN" (redis w) ->
  holds (clock w) (lastFailureKey cb) (Js.toString t0) (redis w) ->
  resetTimeout cb <= clock w - t0 ->
  fn (redis (half_open cb w)) (clock w) = (r, db', t') ->
  match r with
  | Ok res =>
      exists w',
        execute cb fn w = (Ok res, w') /\ clock w' = t' /\
        find t' (failureKey cb) (redis w') = None /\
        (holds t' (stateKey cb) "HALF_OPEN" db' ->
         getState cb w' = (Ok "HALF_OPEN", w'))
  | Throw e =>
      forall n, stored_count t' (failureKey cb) db' = Some n ->
      exists w',
        execute cb fn w = (Throw e, w') /\ clock w' = t' /\
        stored_count t' (failureKey cb) (redis w') = Some (n + 1) /\
        if failureThreshold cb <=? n + 1 then
          getState cb w' = (Ok "OPEN", w')
        else
          holds t' (stateKey cb) "HALF_OPEN" db' ->
          getState cb w' = (Ok "HALF_OPEN", w')
  end.
Proof.
  intros Hup Hmp Hs Hl Hge Hfn.
  assert (Hg : gate cb w = (Ok "OPEN", half_open cb w)).
  { rewrite (gate_open _ _ _ Hup Hs Hl).
    destruct (Z.leb_spec (resetTimeout cb) (clock w - t0)); [reflexivity|lia]. }
  assert (Hex : execute cb fn w = attempt cb "OPEN" fn (half_open cb w)).
  { unfold execute, bind. rewrite Hg. reflexivity. }
  rewrite Hex. clear Hex.
  assert (Hup1 : redis_up (half_open cb w) = true) by exact Hup.
  destruct r as [res|e].
  - destruct (attempt_success cb "OPEN" fn (half_open cb w) res db' t' Hup1
                ltac:(discriminate) Hfn) as (w' & He & Hup' & Hc & Hr).
    exists w'. split; [exact He|]. split; [exact Hc|]. rewrite Hr.
    split; [apply find_delete_eq|].
    intros [ttl Hh]. apply getState_holds; [exact Hup'| |discriminate].
    exists ttl. rewrite Hc, Hr, find_delete_ne by (apply not_eq_sym, state_ne_failure).
    exact Hh.
  - intros n Hn.
    destruct (attempt_failure cb "OPEN" fn (half_open cb w) e db' t' n Hup1 Hmp Hfn Hn)
      as (w' & He & Hup' & Hc & Hfk & Hlk & Hrest).
    exists w'. split; [exact He|]. split; [exact Hc|].
    split; [apply stored_count_holds; eexists; exact Hfk|].
    destruct (failureThreshold cb <=? n + 1).
    + destruct Hrest as [Hop _].
      apply getState_holds; [exact Hup'|rewrite Hc; exact Hop|discriminate].
    + intros [ttl Hh]. apply getState_holds; [exact Hup'| |discriminate].
      exists ttl. rewrite Hc, Hrest; [exact Hh|apply state_ne_failure|apply state_ne_last].
Qed.

Lemma trial_call_outcome_witness :
  let w := world_at 61000 opened_at_1000 in
  redis_up w = true /\
  holds (clock w) (stateKey cb0) "OPEN" (redis w) /\
  holds (clock w) (lastFailureKey cb0) (Js.toString 1000) (redis w) /\
  resetTimeout cb0 <= clock w - 1000 /\
  exists w',
    execute cb0 op_ok w = (Ok "res", w') /\ clock w' = 61010 /\
    find 61010 (failureKey cb0) (redis w') = None /\
    (holds 61010 (stateKey cb0) "HALF_OPEN" (redis (half_open cb0 w)) ->
     getState cb0 w' = (Ok "HALF_OPEN", w')).
Proof.
  intros w.
  assert (H1 : holds (clock w) (stateKey cb0) "OPEN" (redis w)).
  { exists None. vm_compute. reflexivity. }
  assert (H2 : holds (clock w) (lastFailureKey cb0) (Js.toString 1000) (redis w)).
  { exists None. vm_compute. reflexivity. }
  assert (H3 : resetTimeout cb0 <= clock w - 1000).
  { change (60000 <= 61000 - 1000). lia. }
  split; [reflexivity|]. split; [exact H1|]. split; [exact H2|]. split; [exact H3|].
  exact (trial_call_outcome cb0 op_ok w 1000 (Ok "res") (redis (half_open cb0 w)) 61010
           eq_refl eq_refl H1 H2 H3 eq_refl).
Defined.


(** The statistics of the breaker that opened at instant 1000 after
    five failures, read at instant 2000. *)
Example getStats_of_opened_breaker :
  let w := world_at 2000 opened_at_1000 in
  getStats cb0 w =
    (Ok {| stats_name := "api"; stats_state := "OPEN"; stats_failureCount := Some 5;
           stats_failureThreshold := 5; stats_lastFailure := Some 1000;
           stats_resetTimeout := 60000; stats_monitoringPeriod := 120000 |}, w).
Proof. vm_compute. reflexivity. Qed.

(** *** Failures in a row *)

Lemma find_none_later now now' k (db : store) :
  now <= now' -> find now k db = None -> find now' k db = None.
Proof.
  intros Hle. unfold find. destruct (db !! k) as [en|]; [|reflexivity].
  unfold live. destruct (expires_at en) as [t|]; [|discriminate].
  destruct (Z.ltb_spec now t); [discriminate|]. intros _.
  destruct (Z.ltb_spec now' t); [lia|reflexivity].
Qed.

Lemma find_at now now' k en (db : store) :
  find now k db = Some en ->
  find now' k db = if live now' en then Some en else None.
Proof.
  unfold find. destruct (db !! k) as [en'|]; [|discriminate].
  destruct (live now en'); [|discriminate]. intros [= ->]. reflexivity.
Qed.

Lemma next_count_pos cb d k : 0 <= k -> 1 <= next_count cb d k.
Proof. unfold next_count. destruct (_ <? _); lia. Qed.

(** What a reader finds in the counter [d] milliseconds after a count of
    [k] was recorded. *)
Lemma counted_later cb d k w :
  counted cb k w -> 0 <= k -> 0 <= d ->
  exists n, stored_count (clock w + d) (failureKey cb) (redis w) = Some n /\
            n + 1 = next_count cb d k.
Proof.
  intros (_ & _ & Hf) Hk Hd. unfold stored_count, next_count.
  destruct (Z.eqb_spec k 0) as [->|Hne].
  - rewrite (find_none_later (clock w) (clock w + d) _ _ ltac:(lia) Hf).
    exists 0. split; [reflexivity|]. destruct (_ <? _); reflexivity.
  - rewrite (find_at _ (clock w + d) _ _ _ Hf). unfold live. cbn [expires_at].
    destruct (Z.ltb_spec (clock w + d)
                (clock w + Js.ceil_div (monitoringPeriod cb) 1000 * 1000));
      destruct (Z.ltb_spec d (Js.ceil_div (monitoringPeriod cb) 1000 * 1000));
      try lia.
    + exists k. split; [apply parseInt_toString|reflexivity].
    + exists 0. split; reflexivity.
Qed.

Lemma failing_step cb d e k w :
  counted cb k w -> 0 <= k -> 0 <= d -> 0 < monitoringPeriod cb ->
  exists w',
    execute cb (failing d e) w = (Throw e, w') /\
    redis_up w' = true /\ clock w' = clock w + d /\ invoked w' = S (invoked w) /\
    holds (clock w') (failureKey cb) (Js.toString (next_count cb d k)) (redis w') /\
    holds (clock w') (lastFailureKey cb) (Js.toString (clock w')) (redis w') /\
    if failureThreshold cb <=? next_count cb d k then
      holds (clock w') (stateKey cb) "OPEN" (redis w')
    else counted cb (next_count cb d k) w'.
Proof.
  intros Hcnt Hk Hd Hmp.
  destruct (counted_later cb d k w Hcnt Hk Hd) as (n & Hn & Hnext).
  destruct Hcnt as (Hup & Hs & Hf).
  assert (Hex : execute cb (failing d e) w = attempt cb "CLOSED" (failing d e) w).
  { unfold execute, bind.
    rewrite (gate_passes_read cb "CLOSED" w Hup (getState_absent _ _ Hup Hs))
      by discriminate.
    reflexivity. }
  destruct (attempt_failure cb "CLOSED" (failing d e) w e (redis w) (clock w + d) n
              Hup Hmp eq_refl Hn) as (w' & He & Hup' & Hc & Hfk & Hlk & Hrest).
  pose proof (attempt_invokes_once cb "CLOSED" (failing d e) w) as Hi.
  rewrite He in Hi. cbn [snd] in Hi.
  rewrite Hnext in *.
  exists w'. rewrite Hex, Hc.
  split; [exact He|]. split; [exact Hup'|]. split; [reflexivity|]. split; [exact Hi|].
  split; [eexists; exact Hfk|]. split; [exact Hlk|].
  destruct (failureThreshold cb <=? next_count cb d k); [apply Hrest|].
  split; [exact Hup'|]. rewrite Hc. split.
  - rewrite Hrest by (apply state_ne_failure || apply state_ne_last).
    apply (find_none_later (clock w)); [lia|exact Hs].
  - pose proof (next_count_pos cb d k Hk).
    destruct (Z.eqb_spec (next_count cb d k) 0); [lia|exact Hfk].
Qed.

Lemma execute_times_add cb fn a b w :
  execute_times cb fn (a + b) w =
    let '(r1, w1) := execute_times cb fn a w in
    let '(r2, w2) := execute_times cb fn b w1 in
    ((r1 ++ r2)%list, w2).
Proof.
  revert w. induction a as [|a IH]; intros w; cbn [execute_times Nat.add].
  - destruct (execute_times cb fn b w) as [r2 w2]. reflexivity.
  - destruct (execute_times cb fn 1 w) as [x y] eqn:E. clear E x y.
    destruct (execute cb fn w) as [r w1]. rewrite IH.
    destruct (execute_times cb fn a w1) as [r1 w2].
    destruct (execute_times cb fn b w2) as [r2 w3]. reflexivity.
Qed.

(** Failures that never bring the count to the threshold leave the
    breaker closed, each rethrowing the operation's own error. *)
Lemma failing_run cb d e calls : forall k w,
  counted cb k w -> 0 <= k -> 0 <= d -> 0 < monitoringPeriod cb ->
  (forall j, (1 <= j <= calls)%nat ->
             Nat.iter j (next_count cb d) k < failureThreshold cb) ->
  exists w',
    execute_times cb (failing d e) calls w = (replicate calls (Throw e), w') /\
    counted cb (Nat.iter calls (next_count cb d) k) w' /\
    clock w' = clock w + Z.of_nat calls * d /\
    invoked w' = (invoked w + calls)%nat.
Proof.
  induction calls as [|calls IH]; intros k w Hcnt Hk Hd Hmp Hlow.
  - exists w. cbn. repeat split; try apply Hcnt; try lia.
  - destruct (failing_step cb d e k w Hcnt Hk Hd Hmp)
      as (w1 & He & _ & Hc & Hi & _ & _ & Hst).
    pose proof (Hlow 1%nat ltac:(lia)) as H1. cbn [Nat.iter nat_rect] in H1.
    destruct (Z.leb_spec (failureThreshold cb) (next_count cb d k)); [lia|].
    destruct (IH (next_count cb d k) w1 Hst
                ltac:(pose proof (next_count_pos cb d k Hk); lia) Hd Hmp)
      as (w' & He' & Hcnt' & Hc' & Hi').
    { intros j Hj. rewrite <- Nat.iter_succ_r. apply Hlow. lia. }
    exists w'. cbn [execute_times]. rewrite He, He'.
    split; [reflexivity|]. rewrite Nat.iter_succ_r.
    split; [exact Hcnt'|]. split; lia.
Qed.

Lemma iter_next_close cb d k j :
  d < Js.ceil_div (monitoringPeriod cb) 1000 * 1000 ->
  Nat.iter j (next_count cb d) k = k + Z.of_nat j.
Proof.
  intros Hd. induction j as [|j IH]; [cbn; lia|].
  rewrite Nat.iter_succ, IH. unfold next_count.
  destruct (Z.ltb_spec d (Js.ceil_div (monitoringPeriod cb) 1000 * 1000)); lia.
Qed.

Lemma iter_next_spaced cb d k j :
  Js.ceil_div (monitoringPeriod cb) 1000 * 1000 <= d ->
  Nat.iter (S j) (next_count cb d) k = 1.
Proof.
  intros Hd. rewrite Nat.iter_succ. unfold next_count.
  destruct (Z.ltb_spec d (Js.ceil_div (monitoringPeriod cb) 1000 * 1000)); lia.
Qed.

Lemma untouched_counted cb w :
  redis_up w = true -> untouched cb (clock w) (redis w) -> counted cb 0 w.
Proof. intros Hup (Hs & Hf & _). repeat split; assumption. Qed.

Lemma counted_count cb k w :
  counted cb k w -> 0 <= k ->
  stored_count (clock w) (failureKey cb) (redis w) = Some k.
Proof.
  intros (_ & _ & Hf) Hk. unfold stored_count. rewrite Hf.
  destruct (Z.eqb_spec k 0) as [->|]; [reflexivity|apply parseInt_toString].
Qed.

(** Property X16.  Starting from a store without the breaker's keys, an
    operation that fails every time, each failure less than
    [monitoringPeriod] after the one before.  Every such call reaches the
    operation and rethrows its error; after [calls] of them the counter
    stands at [calls].  While that is below the threshold the breaker still
    reads CLOSED; with the call that reaches the threshold it reads OPEN and
    the next call is refused.  The counter's expiry is renewed at every
    failure, so this holds however long the whole run takes. *)
Theorem failures_in_a_row cb d e calls w :
  redis_up w = true -> 0 < monitoringPeriod cb -> 0 < resetTimeout cb ->
  0 <= d < monitoringPeriod cb ->
  untouched cb (clock w) (redis w) ->
  1 <= failureThreshold cb -> Z.of_nat calls <= failureThreshold cb ->
  exists w',
    execute_times cb (failing d e) calls w = (replicate calls (Throw e), w') /\
    clock w' = clock w + Z.of_nat calls * d /\
    invoked w' = (invoked w + calls)%nat /\
    stored_count (clock w') (failureKey cb) (redis w') = Some (Z.of_nat calls) /\
    if Z.of_nat calls <? failureThreshold cb then
      getState cb w' = (Ok "CLOSED", w')
    else
      getState cb w' = (Ok "OPEN", w') /\
      forall fn', execute cb fn' w' = (Throw (JsError (open_message cb)), w').
Proof.
  intros Hup Hmp Hrt [Hd0 Hd] Hun Hth Hcalls.
  pose proof (RateLimiterProps.ceil_div_covers (monitoringPeriod cb)) as Hcov.
  assert (Hclose : d < Js.ceil_div (monitoringPeriod cb) 1000 * 1000) by lia.
  pose proof (untouched_counted cb w Hup Hun) as H0.
  destruct (Z.ltb_spec (Z.of_nat calls) (failureThreshold cb)) as [Hlt|Hge].
  - destruct (failing_run cb d e calls 0 w H0 ltac:(lia) Hd0 Hmp)
      as (w' & He & Hcnt & Hc & Hi).
    { intros j Hj. rewrite iter_next_close by exact Hclose. lia. }
    rewrite iter_next_close in Hcnt by exact Hclose. cbn [Z.add] in Hcnt.
    exists w'. split; [exact He|]. split; [exact Hc|]. split; [exact Hi|].
    split; [apply counted_count; [exact Hcnt|lia]|].
    destruct Hcnt as (Hup' & Hs' & _). apply getState_absent; assumption.
  - destruct calls as [|c]; [lia|].
    destruct (failing_run cb d e c 0 w H0 ltac:(lia) Hd0 Hmp)
      as (w1 & He1 & Hcnt1 & Hc1 & Hi1).
    { intros j Hj. rewrite iter_next_close by exact Hclose. lia. }
    rewrite iter_next_close in Hcnt1 by exact Hclose. cbn [Z.add] in Hcnt1.
    destruct (failing_step cb d e (Z.of_nat c) w1 Hcnt1 ltac:(lia) Hd0 Hmp)
      as (w' & He & Hup' & Hc & Hi & Hfk & Hlk & Hst).
    assert (Hn : next_count cb d (Z.of_nat c) = Z.of_nat (S c)).
    { unfold next_count.
      destruct (Z.ltb_spec d (Js.ceil_div (monitoringPeriod cb) 1000 * 1000)); lia. }
    rewrite Hn in *.
    destruct (Z.leb_spec (failureThreshold cb) (Z.of_nat (S c))); [|lia].
    exists w'. replace (S c) with (c + 1)%nat at 1 2 by lia.
    rewrite execute_times_add, He1. cbn [execute_times]. rewrite He.
    rewrite replicate_add. cbn [replicate].
    split; [reflexivity|]. split; [lia|]. split; [lia|].
    split; [apply stored_count_holds; exact Hfk|].
    split; [apply getState_holds; [exact Hup'|exact Hst|discriminate]|].
    intros fn'. apply (gate_blocks _ (clock w')); try assumption. lia.
Qed.

Lemma failures_in_a_row_witness :
  let w := world_at 5000 ∅ in
  redis_up w = true /\ 0 < monitoringPeriod cb0 /\ 0 < resetTimeout cb0 /\
  0 <= 100000 < monitoringPeriod cb0 /\ untouched cb0 (clock w) (redis w) /\
  1 <= failureThreshold cb0 /\ Z.of_nat 5 <= failureThreshold cb0 /\
  exists w',
    execute_times cb0 (failing 100000 (JsError "boom")) 5 w =
      (replicate 5 (Throw (JsError "boom")), w') /\
    clock w' = clock w + Z.of_nat 5 * 100000 /\
    invoked w' = (invoked w + 5)%nat /\
    stored_count (clock w') (failureKey cb0) (redis w') = Some (Z.of_nat 5) /\
    if Z.of_nat 5 <? failureThreshold cb0 then
      getState cb0 w' = (Ok "CLOSED", w')
    else
      getState cb0 w' = (Ok "OPEN", w') /\
      forall fn', execute cb0 fn' w' = (Throw (JsError (open_message cb0)), w').
Proof.
  intros w.
  assert (Hd : 0 <= 100000 < monitoringPeriod cb0).
  { change (0 <= 100000 < 120000). lia. }
  assert (Hun : untouched cb0 (clock w) (redis w)).
  { split; [|split]; reflexivity. }
  assert (H1 : 1 <= failureThreshold cb0) by (change (1 <= 5); lia).
  assert (H5 : Z.of_nat 5 <= failureThreshold cb0) by (change (5 <= 5); lia).
  split; [reflexivity|]. split; [reflexivity|]. split; [reflexivity|].
  split; [exact Hd|]. split; [exact Hun|]. split; [exact H1|]. split; [exact H5|].
  exact (failures_in_a_row cb0 100000 (JsError "boom") 5 w eq_refl eq_refl eq_refl
           Hd Hun H1 H5).
Defined.



End CircuitBreakerMore.

(** ** middlewares/rateLimiter.middleware.js: runs of requests *)
Module RateLimiterMore.
Import Proc RateLimiter RedisFacts JsFacts RateLimiterProps.

Lemma serve_cons o req t ts w :
  serve o req (t :: ts) w =
    let '(r, w1) := rateLimiter o req (with_clock t w) in
    let '(rs, w2) := serve o req ts w1 in
    (r :: rs, w2).
Proof. reflexivity. Qed.

Lemma find_lookup now k en (db : store) :
  db !! k = Some en -> live now en = true -> find now k db = Some en.
Proof. intros H Hl. unfold find. rewrite H, Hl. reflexivity. Qed.

(** A window whose members are all inside the window at [t] and older
    than [t] grows by one. *)
Lemma slide_fresh rl t last (m : gmap string Z) :
  (forall member score, m !! member = Some score ->
     member = Js.toString score /\ score <= last /\ t - windowMs rl < score) ->
  last < t ->
  size (slide rl t m) = S (size m) /\
  forall member score, slide rl t m !! member = Some score ->
    member = Js.toString score /\ score <= t /\
    (score = t \/ m !! member = Some score).
Proof.
  intros Hm Hlt. unfold slide, zremrange.
  rewrite map_filter_id.
  2:{ intros member score H. destruct (Hm _ _ H) as (_ & _ & ?).
      unfold in_range. simpl. lia. }
  assert (Hnew : m !! Js.toString t = None).
  { destruct (m !! Js.toString t) as [s|] eqn:E; [|reflexivity].
    destruct (Hm _ _ E) as (He & Hle & _). apply toString_inj in He. lia. }
  split.
  - rewrite map_size_insert, Hnew. reflexivity.
  - intros member score H.
    destruct (decide (Js.toString t = member)) as [<-|Hne].
    + rewrite lookup_insert_eq in H. injection H as <-. split; [reflexivity|]. lia.
    + rewrite lookup_insert_ne in H by exact Hne.
      destruct (Hm _ _ H) as (He & Hle & _). repeat split; [exact He|lia|tauto].
Qed.

Lemma serve_window o req : forall ts m last w j,
  let rl := configure o in
  redis_up w = true ->
  redis w !! key rl req =
    Some {| data := RZSet m;
            expires_at := Some (last + Js.ceil_div (windowMs rl) 1000 * 1000) |} ->
  size m = j ->
  (forall member score, m !! member = Some score ->
     member = Js.toString score /\ score <= last /\
     forall t, t ∈ ts -> t - windowMs rl < score) ->
  StronglySorted Z.lt (last :: ts) ->
  (forall t t', t ∈ last :: ts -> t' ∈ ts -> t' - windowMs rl < t) ->
  (serve o req ts w).1 =
    imap (fun i t => Ok (verdict rl t (Z.of_nat (S (j + i))))) ts.
Proof.
  induction ts as [|t ts IH]; intros m last w j rl Hup Hk Hsz Hm Hsort Hwin;
    [reflexivity|].
  pose proof (ceil_div_covers (windowMs rl)) as Hcov.
  apply StronglySorted_inv in Hsort as [Hsort Hall].
  assert (Hlt : last < t) by (apply Forall_cons in Hall; tauto).
  assert (Hin : t - windowMs rl < last).
  { apply Hwin; [apply list_elem_of_here|apply list_elem_of_here]. }
  assert (Hf : find t (key rl req) (redis w) =
            Some {| data := RZSet m;
                    expires_at := Some (last + Js.ceil_div (windowMs rl) 1000 * 1000) |}).
  { apply find_lookup; [exact Hk|]. unfold live. cbn [expires_at]. apply Z.ltb_lt. lia. }
  assert (Hup1 : redis_up (with_clock t w) = true) by exact Hup.
  assert (Hz : zset_or_absent (clock (with_clock t w)) (key rl req)
                 (redis (with_clock t w))).
  { unfold zset_or_absent. cbn [clock redis with_clock]. rewrite Hf. exact I. }
  pose proof (rateLimiter_admission o req (with_clock t w) Hup1 Hz) as Hadm.
  fold rl in Hadm. cbv zeta in Hadm. cbn [clock redis with_clock] in Hadm.
  unfold window_of in Hadm. rewrite Hf in Hadm.
  destruct (slide_fresh rl t last m) as [Hsize Hmem]; [|exact Hlt|].
  { intros member score H. destruct (Hm _ _ H) as (He & Hle & Hw).
    repeat split; [exact He|exact Hle|apply Hw, list_elem_of_here]. }
  rewrite serve_cons, Hadm.
  match goal with |- context [serve o req ts ?W] =>
    specialize (IH (slide rl t m) t W (S j)) end.
  destruct (serve o req ts _) as [rs w2] eqn:Hs. cbn [fst] in *.
  rewrite imap_cons. f_equal.
  - rewrite Hsize, Hsz, Nat.add_0_r. reflexivity.
  - rewrite IH.
    + apply imap_ext. intros i x _. cbn. do 4 f_equal. lia.
    + exact Hup.
    + cbn [redis with_redis]. apply lookup_insert_eq.
    + rewrite Hsize, Hsz. reflexivity.
    + intros member score H. destruct (Hmem _ _ H) as (He & Hle & Hor).
      repeat split; [exact He|exact Hle|]. intros t' Ht'.
      destruct Hor as [->|Hold].
      * apply Hwin; [apply list_elem_of_further, list_elem_of_here
                    |apply list_elem_of_further, Ht'].
      * destruct (Hm _ _ Hold) as (_ & _ & Hw). apply Hw, list_elem_of_further, Ht'.
    + exact Hsort.
    + intros a b Ha Hb. apply Hwin; apply list_elem_of_further; assumption.
Qed.

(** Property X18.  A client with no window stored sends requests at strictly
    increasing instants that all lie within one window length of each other.
    The request number [i + 1] is judged on a count of [i + 1]: it is let
    through exactly when [i + 1] does not exceed [maxRequests], and answered
    429 otherwise. *)
Theorem requests_at_distinct_instants o req ts w :
  let rl := configure o in
  redis_up w = true ->
  redis w !! key rl req = None ->
  StronglySorted Z.lt ts ->
  (forall t t', t ∈ ts -> t' ∈ ts -> t' - windowMs rl < t) ->
  (serve o req ts w).1 = imap (fun i t => Ok (verdict rl t (Z.of_nat (S i)))) ts.
Proof.
  intros rl Hup Hk Hsort Hwin. destruct ts as [|t ts]; [reflexivity|].
  assert (Hup1 : redis_up (with_clock t w) = true) by exact Hup.
  assert (Hf : find t (key rl req) (redis w) = None).
  { unfold find. rewrite Hk. reflexivity. }
  assert (Hz : zset_or_absent (clock (with_clock t w)) (key rl req)
                 (redis (with_clock t w))).
  { unfold zset_or_absent. cbn [clock redis with_clock]. rewrite Hf. exact I. }
  pose proof (rateLimiter_admission o req (with_clock t w) Hup1 Hz) as Hadm.
  fold rl in Hadm. cbv zeta in Hadm. cbn [clock redis with_clock] in Hadm.
  unfold window_of in Hadm. rewrite Hf in Hadm.
  assert (Hs : slide rl t ∅ = {[ Js.toString t := t ]}).
  { unfold slide, zremrange. rewrite map_filter_empty. reflexivity. }
  rewrite Hs in Hadm. rewrite map_size_singleton in Hadm.
  rewrite serve_cons, Hadm.
  match goal with |- context [serve o req ts ?W] =>
    pose proof (serve_window o req ts {[ Js.toString t := t ]} t W 1%nat) as Hrest end.
  fold rl in Hrest. cbv zeta in Hrest.
  destruct (serve o req ts _) as [rs w2] eqn:Hserve. cbn [fst] in *.
  rewrite imap_cons. f_equal. rewrite Hrest; [reflexivity|exact Hup| | | | |].
  - cbn [redis with_redis]. apply lookup_insert_eq.
  - apply map_size_singleton.
  - intros member score H. apply lookup_singleton_Some in H as [<- <-].
    split; [reflexivity|]. split; [lia|]. intros t' Ht'.
    apply Hwin; [apply list_elem_of_here|apply list_elem_of_further, Ht'].
  - exact Hsort.
  - intros a b Ha Hb. apply Hwin; [exact Ha|apply list_elem_of_further, Hb].
Qed.


Lemma requests_at_distinct_instants_witness :
  let rl := configure strict in
  redis_up fresh = true /\ redis fresh !! key rl client = None /\
  StronglySorted Z.lt [5; 6; 9] /\
  (serve strict client [5; 6; 9] fresh).1 =
    imap (fun i t => Ok (verdict rl t (Z.of_nat (S i)))) [5; 6; 9].
Proof.
  intros rl.
  assert (Hs : StronglySorted Z.lt [5; 6; 9]).
  { repeat constructor; lia. }
  assert (Hw : forall t t', t ∈ [5; 6; 9] -> t' ∈ [5; 6; 9] -> t' - windowMs rl < t).
  { intros t t' Ht Ht'. change (windowMs rl) with 60000.
    rewrite !elem_of_cons, elem_of_nil in Ht, Ht'. lia. }
  split; [reflexivity|]. split; [reflexivity|]. split; [exact Hs|].
  exact (requests_at_distinct_instants strict client [5; 6; 9] fresh eq_refl eq_refl
           Hs Hw).
Defined.

(** Property X19.  A request that arrives when every stored timestamp of the
    client has left the window (scores between 0 and [now - windowMs]) is
    judged on a count of 1, and the stored window afterwards holds that
    request alone. *)
Theorem idle_window_restarts o req w :
  let rl := configure o in
  let k := key rl req in
  redis_up w = true -> 0 < windowMs rl ->
  zset_or_absent (clock w) k (redis w) ->
  (forall member score, window_of (clock w) k (redis w) !! member = Some score ->
     0 <= score <= clock w - windowMs rl) ->
  exists w',
    rateLimiter o req w = (Ok (verdict rl (clock w) 1), w') /\
    window_of (clock w) k (redis w') = {[ Js.toString (clock w) := clock w ]}.
Proof.
  intros rl k Hup Hpos Hz Hold.
  pose proof (rateLimiter_admission o req w Hup Hz) as Hadm.
  fold rl k in Hadm. cbv zeta in Hadm.
  assert (Hs : slide rl (clock w) (window_of (clock w) k (redis w)) =
               {[ Js.toString (clock w) := clock w ]}).
  { unfold slide, zremrange. rewrite map_empty_filter_2; [apply insert_empty|].
    intros member score H Hnot. apply Hnot. unfold in_range. cbn [snd].
    exact (Hold _ _ H). }
  rewrite Hs, map_size_singleton in Hadm.
  eexists. split; [exact Hadm|]. cbn [redis with_redis].
  apply window_of_insert. unfold live. cbn [expires_at]. apply Z.ltb_lt.
  pose proof (ceil_div_pos _ 1000 Hpos ltac:(lia)). lia.
Qed.

Lemma idle_window_restarts_witness :
  let o := {| opt_windowMs := Some 1500; opt_maxRequests := Some 1;
              opt_keyPrefix := None |} in
  let rl := configure o in
  let k := key rl client in
  let w := with_clock 1800 (serve o client [1] fresh).2 in
  redis_up w = true /\ 0 < windowMs rl /\ zset_or_absent (clock w) k (redis w) /\
  window_of (clock w) k (redis w) = {[ Js.toString 1 := 1 ]} /\
  exists w',
    rateLimiter o client w = (Ok (verdict rl (clock w) 1), w') /\
    window_of (clock w) k (redis w') = {[ Js.toString (clock w) := clock w ]}.
Proof.
  intros o rl k w.
  assert (Hz : zset_or_absent (clock w) k (redis w)) by (vm_compute; exact I).
  assert (Hp : 0 < windowMs rl) by reflexivity.
  assert (He : window_of (clock w) k (redis w) = {[ Js.toString 1 := 1 ]}).
  { vm_compute. reflexivity. }
  assert (Hold : forall member score,
            window_of (clock w) k (redis w) !! member = Some score ->
            0 <= score <= clock w - windowMs rl).
  { intros member score H. rewrite He in H.
    apply lookup_singleton_Some in H as [_ <-].
    change (clock w - windowMs rl) with 300. lia. }
  split; [reflexivity|]. split; [exact Hp|]. split; [exact Hz|]. split; [exact He|].
  exact (idle_window_restarts o client w eq_refl Hp Hz Hold).
Defined.

(** *** One client's requests and another client's window *)

Ltac local_run H :=
  unfold run, find; rewrite H; repeat case_match; simplify_eq; cbn [fst snd];
  rewrite ?lookup_insert_eq, ?lookup_delete_eq; auto; try (split; congruence).

Ltac frame_run H :=
  unfold run; repeat case_match; cbn [snd];
  rewrite ?lookup_insert_ne, ?lookup_delete_ne by exact H; reflexivity.

(** Each command of the block reads and writes its own key only. *)
Lemma window_local rl req now (db1 db2 : store) :
  db1 !! key rl req = db2 !! key rl req ->
  (run_all now (window_commands rl req now) db1).1 =
  (run_all now (window_commands rl req now) db2).1.
Proof.
  intros H0. unfold window_commands, run_all.
  set (k := key rl req) in *.
  assert (H1 : (run now (ZREMRANGEBYSCORE k 0 (now - windowMs rl)) db1).1 =
               (run now (ZREMRANGEBYSCORE k 0 (now - windowMs rl)) db2).1 /\
               (run now (ZREMRANGEBYSCORE k 0 (now - windowMs rl)) db1).2 !! k =
               (run now (ZREMRANGEBYSCORE k 0 (now - windowMs rl)) db2).2 !! k).
  { local_run H0. }
  destruct (run now (ZREMRANGEBYSCORE k 0 (now - windowMs rl)) db1) as [r1 d1].
  destruct (run now (ZREMRANGEBYSCORE k 0 (now - windowMs rl)) db2) as [r1' d1'].
  cbn [fst snd] in H1. destruct H1 as [<- H1].
  assert (H2 : (run now (ZADD k now (Js.toString now)) d1).1 =
               (run now (ZADD k now (Js.toString now)) d1').1 /\
               (run now (ZADD k now (Js.toString now)) d1).2 !! k =
               (run now (ZADD k now (Js.toString now)) d1').2 !! k).
  { local_run H1. }
  destruct (run now (ZADD k now (Js.toString now)) d1) as [r2 d2].
  destruct (run now (ZADD k now (Js.toString now)) d1') as [r2' d2'].
  cbn [fst snd] in H2. destruct H2 as [<- H2].
  assert (H3 : (run now (ZCARD k) d2).1 = (run now (ZCARD k) d2').1 /\
               (run now (ZCARD k) d2).2 !! k = (run now (ZCARD k) d2').2 !! k).
  { local_run H2. }
  destruct (run now (ZCARD k) d2) as [r3 d3].
  destruct (run now (ZCARD k) d2') as [r3' d3'].
  cbn [fst snd] in H3. destruct H3 as [<- H3].
  assert (H4 : (run now (EXPIRE k (Js.ceil_div (windowMs rl) 1000)) d3).1 =
               (run now (EXPIRE k (Js.ceil_div (windowMs rl) 1000)) d3').1).
  { local_run H3. }
  destruct (run now (EXPIRE k (Js.ceil_div (windowMs rl) 1000)) d3) as [r4 d4].
  destruct (run now (EXPIRE k (Js.ceil_div (windowMs rl) 1000)) d3') as [r4' d4'].
  cbn [fst] in *. subst. reflexivity.
Qed.

Lemma window_frame rl req now (db : store) k' :
  key rl req <> k' ->
  (run_all now (window_commands rl req now) db).2 !! k' = db !! k'.
Proof.
  intros Hne. unfold window_commands, run_all.
  set (k := key rl req) in *.
  assert (H1 : (run now (ZREMRANGEBYSCORE k 0 (now - windowMs rl)) db).2 !! k' = db !! k').
  { frame_run Hne. }
  destruct (run now (ZREMRANGEBYSCORE k 0 (now - windowMs rl)) db) as [r1 d1].
  assert (H2 : (run now (ZADD k now (Js.toString now)) d1).2 !! k' = d1 !! k').
  { frame_run Hne. }
  destruct (run now (ZADD k now (Js.toString now)) d1) as [r2 d2].
  assert (H3 : (run now (ZCARD k) d2).2 !! k' = d2 !! k').
  { frame_run Hne. }
  destruct (run now (ZCARD k) d2) as [r3 d3].
  assert (H4 : (run now (EXPIRE k (Js.ceil_div (windowMs rl) 1000)) d3).2 !! k' = d3 !! k').
  { frame_run Hne. }
  destruct (run now (EXPIRE k (Js.ceil_div (windowMs rl) 1000)) d3) as [r4 d4].
  cbn [snd] in *. congruence.
Qed.

Lemma rateLimiter_local o req wa wb :
  redis_up wa = redis_up wb -> clock wa = clock wb ->
  redis wa !! key (configure o) req = redis wb !! key (configure o) req ->
  (rateLimiter o req wa).1 = (rateLimiter o req wb).1.
Proof.
  intros Hup Hc Hk. unfold rateLimiter, try_catch, bind, dateNow, exec.
  rewrite Hup, Hc. destruct (redis_up wb); [|reflexivity].
  pose proof (window_local (configure o) req (clock wb) _ _ Hk) as Hl.
  destruct (run_all _ _ (redis wa)) as [rsa dba].
  destruct (run_all _ _ (redis wb)) as [rsb dbb].
  cbn [fst] in Hl. subst rsb. destruct (first_error rsa); reflexivity.
Qed.

Lemma rateLimiter_frame o req w k' :
  key (configure o) req <> k' ->
  redis (rateLimiter o req w).2 !! k' = redis w !! k' /\
  redis_up (rateLimiter o req w).2 = redis_up w.
Proof.
  intros Hne. unfold rateLimiter, try_catch, bind, dateNow, exec.
  destruct (redis_up w) eqn:Hup; [|split; [reflexivity|exact Hup]].
  pose proof (window_frame (configure o) req (clock w) (redis w) k' Hne) as Hf.
  destruct (run_all _ _ (redis w)) as [rs db]. cbn [snd] in Hf.
  destruct (first_error rs); cbn; split; assumption.
Qed.

(** Property X20.  Clients with different addresses have different keys, and
    a check reads and writes the key of its own client only: whatever the
    store holds, what a client is answered at an instant is the same whether
    or not another client was checked before. *)
Theorem clients_do_not_interfere o req1 req2 w t2 :
  clientId req1 <> clientId req2 ->
  (rateLimiter o req2 (with_clock t2 (rateLimiter o req1 w).2)).1 =
  (rateLimiter o req2 (with_clock t2 w)).1.
Proof.
  intros Hne.
  assert (Hk : key (configure o) req1 <> key (configure o) req2).
  { unfold key. intros H. apply append_cancel in H. contradiction. }
  destruct (rateLimiter_frame o req1 w _ Hk) as [Hf Hup].
  apply rateLimiter_local; cbn [redis_up clock redis with_clock]; auto.
Qed.

Lemma clients_do_not_interfere_witness :
  let other := {| ip := Some "10.0.0.8"; remoteAddress := "10.0.0.8" |} in
  clientId client <> clientId other /\
  (rateLimiter strict other (with_clock 12 (rateLimiter strict client busy).2)).1 =
  (rateLimiter strict other (with_clock 12 busy)).1.
Proof.
  intros other.
  assert (Hne : clientId client <> clientId other) by discriminate.
  split; [exact Hne|].
  exact (clients_do_not_interfere strict client other busy 12 Hne).
Defined.

End RateLimiterMore.

(** ** services/oauth.service.js: the cache and the refresh *)
Module OAuthServiceMore.
Import Proc OAuthService RedisFacts JsFacts OAuthServiceProps.

Lemma get_insert_eq k s (db : store) w :
  redis_up w = true ->
  get k (with_redis (<[k := {| data := RString s; expires_at := None |}]> db) w) =
    (Ok (Some s), with_redis (<[k := {| data := RString s; expires_at := None |}]> db) w).
Proof.
  intros Hup. unfold get, bind, send, ret. cbn [redis_up with_redis redis clock run].
  rewrite Hup, find_insert_eq by reflexivity. reflexivity.
Qed.

(** The test of line 24 on a stored token and a stored expiry instant. *)
Lemma cached_stored tok exp w :
  get TOKEN_KEY w = (Ok (Some tok), w) ->
  get TOKEN_EXPIRY_KEY w = (Ok (Some (Js.toString exp)), w) ->
  tok <> "" ->
  cached w = (Ok (if clock w <? exp then Some tok else None), w).
Proof.
  intros Ht He Hne. unfold cached, bind. rewrite Ht, He. unfold dateNow, ret.
  destruct (String.eqb_spec tok ""); [contradiction|].
  rewrite toString_nonempty, parseInt_toString. reflexivity.
Qed.

(** Property X21.  A stored token whose stored expiry instant lies ahead is
    returned as it is: the store is only read, no lock is taken and the
    provider is not asked.  Once the instant is reached the token is no
    longer taken from the cache. *)
Theorem cached_token_is_returned p envs fuel depth n tok exp w :
  get TOKEN_KEY w = (Ok (Some tok), w) ->
  get TOKEN_EXPIRY_KEY w = (Ok (Some (Js.toString exp)), w) ->
  tok <> "" ->
  (clock w < exp ->
     getAccessToken p envs fuel (S depth) n w = Some (Ok tok, w)) /\
  (exp <= clock w -> cached w = (Ok None, w)).
Proof.
  intros Ht He Hne. pose proof (cached_stored tok exp w Ht He Hne) as Hc.
  split; intros Hlt.
  - cbn [getAccessToken]. rewrite Hc.
    destruct (Z.ltb_spec (clock w) exp); [reflexivity|lia].
  - rewrite Hc. destruct (Z.ltb_spec (clock w) exp); [lia|reflexivity].
Qed.

Lemma cached_token_is_returned_witness :
  let w := {| redis :=
                <[TOKEN_KEY := {| data := RString "tok"; expires_at := None |}]>
                  (<[TOKEN_EXPIRY_KEY :=
                       {| data := RString (Js.toString 3540000); expires_at := None |}]> ∅);
              redis_up := true; clock := 1000; console := []; invoked := 0%nat;
              timers := [] |} in
  get TOKEN_KEY w = (Ok (Some "tok"), w) /\
  get TOKEN_EXPIRY_KEY w = (Ok (Some (Js.toString 3540000)), w) /\
  (clock w < 3540000 ->
     getAccessToken prompt (fun _ => calm) 9 1 0 w = Some (Ok "tok", w)) /\
  (3540000 <= clock w -> cached w = (Ok None, w)).
Proof.
  intros w. split; [reflexivity|]. split; [reflexivity|].
  exact (cached_token_is_returned prompt (fun _ => calm) 9 0 0 "tok" 3540000 w
           eq_refl eq_refl ltac:(discriminate)).
Defined.

Lemma token_ne_expiry : TOKEN_KEY <> TOKEN_EXPIRY_KEY.
Proof. discriminate. Qed.

Lemma lock_ne_token : LOCK_KEY <> TOKEN_KEY.
Proof. discriminate. Qed.

Lemma lock_ne_expiry : LOCK_KEY <> TOKEN_EXPIRY_KEY.
Proof. discriminate. Qed.

Lemma send_set k v w :
  redis_up w = true ->
  send (SET k v) w =
    (Ok ROk, with_redis (<[k := {| data := RString v; expires_at := None |}]> (redis w)) w).
Proof. intros Hup. unfold send. rewrite Hup. reflexivity. Qed.

Lemma send_del k w :
  redis_up w = true ->
  exists r, send (DEL k) w = (Ok r, with_redis (delete k (redis w)) w).
Proof.
  intros Hup. unfold send. rewrite Hup. cbn [run].
  destruct (find (clock w) k (redis w)); eexists; reflexivity.
Qed.

Lemma get_string k s ttl w :
  redis_up w = true ->
  find (clock w) k (redis w) = Some {| data := RString s; expires_at := ttl |} ->
  get k w = (Ok (Some s), w).
Proof.
  intros Hup Hf. unfold get, bind, send, ret. rewrite Hup. cbn [run]. rewrite Hf.
  destruct w; reflexivity.
Qed.

(** [_fetchTokenFromProvider] never throws: it returns the provider's
    token data, or the mock token stamped with the instant of the
    failure; the store is not touched. *)
Lemma fetch_outcome p w answer took :
  p (clock w) = (answer, took) ->
  let now := clock w + Z.of_N took in
  exists w1,
    _fetchTokenFromProvider p w =
      (Ok match answer with
          | Some d => d
          | None => {| access_token := "mock_token_" ++ Js.toString now;
                       expires_in := 3600; token_type := "Bearer" |}
          end, w1) /\
    redis w1 = redis w /\ redis_up w1 = redis_up w /\ clock w1 = now.
Proof.
  intros Hp now. unfold _fetchTokenFromProvider. rewrite Hp.
  destruct answer as [d|]; eexists; (split; [reflexivity|]); cbn; auto.
Qed.

(** Property X22.  A retrieval that finds no usable token and the lock
    free, with the store in reach.  It takes the lock, asks the provider
    (which answers with token data, or fails, in which case the mock token
    of the [catch] block stands in), stores the token and the expiry
    instant [now + (expires_in - 60) * 1000], releases the lock and returns
    the token.  Every retrieval after that and before the stored instant
    returns the same token from the cache.  The instant of the answer,
    the lifetime in milliseconds and the expiry instant are safe integers,
    so that the stored string is the decimal of the instant. *)
Theorem refresh_stores_token p envs fuel depth n w answer took :
  redis_up w = true ->
  cached w = (Ok None, w) ->
  find (clock w) LOCK_KEY (redis w) = None ->
  p (clock w) = (answer, took) ->
  let now := clock w + Z.of_N took in
  let data :=
    match answer with
    | Some d => d
    | None => {| access_token := "mock_token_" ++ Js.toString now;
                 expires_in := 3600; token_type := "Bearer" |}
    end in
  let expiry := now + (expires_in data - 60) * 1000 in
  access_token data <> "" ->
  Js.safe now -> Js.safe ((expires_in data - 60) * 1000) -> Js.safe expiry ->
  exists w',
    getAccessToken p envs fuel (S depth) n w = Some (Ok (access_token data), w') /\
    clock w' = now /\
    redis w' !! LOCK_KEY = None /\
    get TOKEN_KEY w' = (Ok (Some (access_token data)), w') /\
    get TOKEN_EXPIRY_KEY w' = (Ok (Some (Js.toString expiry)), w') /\
    forall p' envs' fuel' depth' n' t2,
      t2 < expiry ->
      getAccessToken p' envs' fuel' (S depth') n' (with_clock t2 w') =
        Some (Ok (access_token data), with_clock t2 w').
Proof.
  intros Hup Hc Hlock Hp now data expiry Hne _ _ _.
  set (db1 := <[LOCK_KEY := {| data := RString "1";
                               expires_at := Some (clock w + LOCK_TTL * 1000) |}]> (redis w)).
  set (db3 := <[TOKEN_EXPIRY_KEY := {| data := RString (Js.toString expiry);
                                       expires_at := None |}]>
                (<[TOKEN_KEY := {| data := RString (access_token data);
                                   expires_at := None |}]> db1)).
  assert (Hrun : exists w',
    getAccessToken p envs fuel (S depth) n w = Some (Ok (access_token data), w') /\
    redis w' = delete LOCK_KEY db3 /\ redis_up w' = true /\ clock w' = now).
  { cbn [getAccessToken]. rewrite Hc. unfold _refreshToken.
    assert (Hset : send (SET_NX_EX LOCK_KEY "1" LOCK_TTL) w = (Ok ROk, with_redis db1 w)).
    { unfold send. rewrite Hup. cbn [run]. rewrite Hlock. reflexivity. }
    rewrite Hset.
    destruct (fetch_outcome p (with_redis db1 w) answer took Hp)
      as (w1 & Hfetch & Hr1 & Hu1 & Hc1).
    cbv zeta in Hfetch. cbn [clock redis redis_up with_redis] in Hfetch, Hr1, Hu1, Hc1.
    fold now in Hfetch, Hc1. fold data in Hfetch. rewrite Hup in Hu1.
    unfold try_finally, bind. rewrite Hfetch.
    rewrite (send_set _ _ w1 Hu1). unfold dateNow.
    rewrite send_set by exact Hu1. cbn [clock redis with_redis]. unfold ret.
    rewrite Hc1, Hr1. fold expiry. fold db3.
    match goal with |- context [send (DEL LOCK_KEY) ?W] =>
      destruct (send_del LOCK_KEY W Hu1) as [r Hdel]; rewrite Hdel end.
    eexists. split; [reflexivity|]. cbn [clock redis redis_up with_redis]. auto. }
  destruct Hrun as (w' & Hrun & Hr & Hu & Hcl). exists w'. split; [exact Hrun|].
  split; [exact Hcl|]. split; [rewrite Hr; apply lookup_delete_eq|].
  assert (Ht : forall t2, get TOKEN_KEY (with_clock t2 w') =
                          (Ok (Some (access_token data)), with_clock t2 w')).
  { intros t2. apply (get_string _ _ None); [exact Hu|]. cbn [clock redis with_clock].
    rewrite Hr, find_delete_ne by apply lock_ne_token. unfold db3.
    rewrite find_insert_ne by (apply not_eq_sym, token_ne_expiry).
    apply find_insert_eq. reflexivity. }
  assert (He : forall t2, get TOKEN_EXPIRY_KEY (with_clock t2 w') =
                          (Ok (Some (Js.toString expiry)), with_clock t2 w')).
  { intros t2. apply (get_string _ _ None); [exact Hu|]. cbn [clock redis with_clock].
    rewrite Hr, find_delete_ne by apply lock_ne_expiry. unfold db3.
    apply find_insert_eq. reflexivity. }
  assert (Hsame : with_clock (clock w') w' = w') by (destruct w'; reflexivity).
  split; [pose proof (Ht (clock w')) as H; rewrite Hsame in H; exact H|].
  split; [pose proof (He (clock w')) as H; rewrite Hsame in H; exact H|].
  intros p' envs' fuel' depth' n' t2 Hlt. cbn [getAccessToken].
  rewrite (cached_stored (access_token data) expiry _ (Ht t2) (He t2) Hne).
  cbn [clock with_clock]. destruct (Z.ltb_spec t2 expiry); [reflexivity|lia].
Qed.

Lemma refresh_stores_token_witness :
  let w := {| redis := ∅; redis_up := true; clock := 1000; console := [];
              invoked := 0%nat; timers := [] |} in
  let down : provider := fun _ => (None, 5000%N) in
  redis_up w = true /\ cached w = (Ok None, w) /\
  find (clock w) LOCK_KEY (redis w) = None /\
  Js.safe 6000 /\ Js.safe ((3600 - 60) * 1000) /\ Js.safe (6000 + (3600 - 60) * 1000) /\
  exists w',
    getAccessToken down (fun _ => calm) 9 1 0 w =
      Some (Ok ("mock_token_" ++ Js.toString 6000), w') /\
    clock w' = 6000 /\
    redis w' !! LOCK_KEY = None /\
    get TOKEN_KEY w' = (Ok (Some ("mock_token_" ++ Js.toString 6000)), w') /\
    get TOKEN_EXPIRY_KEY w' = (Ok (Some (Js.toString 3546000)), w') /\
    forall p' envs' fuel' depth' n' t2,
      t2 < 3546000 ->
      getAccessToken p' envs' fuel' (S depth') n' (with_clock t2 w') =
        Some (Ok ("mock_token_" ++ Js.toString 6000), with_clock t2 w').
Proof.
  intros w down. split; [reflexivity|]. split; [reflexivity|]. split; [reflexivity|].
  assert (H1 : Js.safe 6000) by (unfold Js.safe; lia).
  assert (H2 : Js.safe ((3600 - 60) * 1000)) by (unfold Js.safe; lia).
  assert (H3 : Js.safe (6000 + (3600 - 60) * 1000)) by (unfold Js.safe; lia).
  split; [exact H1|]. split; [exact H2|]. split; [exact H3|].
  exact (refresh_stores_token down (fun _ => calm) 9 0 0 w None 5000%N
           eq_refl eq_refl eq_refl eq_refl ltac:(discriminate) H1 H2 H3).
Defined.


(** Property X23.  A retrieval that finds no usable token and the lock taken
    waits in [_waitForLock].  When the wait throws (the timeout, or the
    store's error) the retrieval throws the same.  When the wait returns and
    the holder of the lock has stored a token whose expiry instant lies
    ahead, the retrieval returns that token: it takes no lock, asks no
    provider and leaves the store as the wait left it. *)
Theorem waiter_takes_stored_token p envs fuel depth n w en r w' :
  redis_up w = true ->
  cached w = (Ok None, w) ->
  find (clock w) LOCK_KEY (redis w) = Some en ->
  _waitForLock (envs n) 5000 fuel w = Some (r, w') ->
  match r with
  | Throw e => getAccessToken p envs fuel (S depth) n w = Some (Throw e, w')
  | Ok _ =>
      forall tok exp,
        get TOKEN_KEY w' = (Ok (Some tok), w') ->
        get TOKEN_EXPIRY_KEY w' = (Ok (Some (Js.toString exp)), w') ->
        tok <> "" -> clock w' < exp ->
        getAccessToken p envs fuel (S (S depth)) n w = Some (Ok tok, w')
  end.
Proof.
  intros Hup Hc Hlock Hwait.
  assert (Hset : send (SET_NX_EX LOCK_KEY "1" LOCK_TTL) w = (Ok RNil, w)).
  { unfold send. rewrite Hup. cbn [run]. rewrite Hlock. destruct w; reflexivity. }
  destruct r as [[]|e].
  - intros tok exp Ht He Hne Hlt.
    change (getAccessToken p envs fuel (S (S depth)) n w)
      with (match cached w with
            | (Throw e, w1) => Some (Throw e, w1)
            | (Ok (Some token), w1) => Some (Ok token, w1)
            | (Ok None, w1) =>
                _refreshToken p (envs n) fuel
                  (getAccessToken p envs fuel (S depth) (S n)) w1
            end).
    rewrite Hc. unfold _refreshToken. rewrite Hset, Hwait.
    cbn [getAccessToken]. rewrite (cached_stored tok exp w' Ht He Hne).
    destruct (Z.ltb_spec (clock w') exp); [reflexivity|lia].
  - cbn [getAccessToken]. rewrite Hc. unfold _refreshToken. rewrite Hset, Hwait.
    reflexivity.
Qed.

Lemma waiter_takes_stored_token_witness :
  let holder : surroundings :=
    {| others := fun i db =>
         if (i =? 2)%nat then
           <[TOKEN_KEY := {| data := RString "tok"; expires_at := None |}]>
             (<[TOKEN_EXPIRY_KEY :=
                  {| data := RString (Js.toString 3540000); expires_at := None |}]>
                (delete LOCK_KEY db))
         else db;
       late := fun _ => 3%N |} in
  let w' := (default (Ok tt, leased) (_waitForLock holder 5000 9 leased)).2 in
  redis_up leased = true /\ cached leased = (Ok None, leased) /\
  _waitForLock holder 5000 9 leased = Some (Ok tt, w') /\
  clock w' = 306 /\
  getAccessToken prompt (fun _ => holder) 9 2 0 leased = Some (Ok "tok", w').
Proof.
  intros holder w'.
  assert (Hw : _waitForLock holder 5000 9 leased = Some (Ok tt, w')).
  { vm_compute. reflexivity. }
  split; [reflexivity|]. split; [reflexivity|]. split; [exact Hw|].
  split; [reflexivity|].
  refine (waiter_takes_stored_token prompt (fun _ => holder) 9 0 0 leased _ (Ok tt) w'
            eq_refl eq_refl _ Hw "tok" 3540000 _ _ _ _).
  - vm_compute. reflexivity.
  - vm_compute. reflexivity.
  - vm_compute. reflexivity.
  - discriminate.
  - vm_compute. reflexivity.
Defined.

(** Property X24.  [_waitForLock (maxWaitMs)] ends for every limit, whatever
    the other workers do to the store and however late each round is: each
    round sleeps at least 100 ms, so fuel for one loop test per started 100
    ms of the limit, and one more, is enough.  It returns only on a poll
    that found the lock gone, and throws the timeout error only once
    [maxWaitMs] has elapsed since it started. *)
Theorem wait_ends_for_every_limit env maxWaitMs fuel w :
  (Z.to_nat ((maxWaitMs + 99) / 100) + 1 <= fuel)%nat ->
  exists r w',
    _waitForLock env maxWaitMs fuel w = Some (r, w') /\
    ended (clock w) maxWaitMs r w'.
Proof.
  intros Hfuel. unfold _waitForLock. apply wait_loop_terminates; [lia|].
  replace (maxWaitMs - (clock w - clock w) + 99) with (maxWaitMs + 99) by lia.
  exact Hfuel.
Qed.

Lemma wait_ends_for_every_limit_witness :
  (Z.to_nat ((250 + 99) / 100) + 1 <= 4)%nat /\
  exists r w',
    _waitForLock calm 250 4 leased = Some (r, w') /\
    ended (clock leased) 250 r w'.
Proof.
  assert (H : (Z.to_nat ((250 + 99) / 100) + 1 <= 4)%nat).
  { change (3 + 1 <= 4)%nat. lia. }
  split; [exact H|].
  exact (wait_ends_for_every_limit calm 250 4 leased H).
Defined.

End OAuthServiceMore.

(** ** utils/axiosRetry.js *)
Module AxiosRetryProps.
Import AxiosRetry.

Lemma delays_S i : delays (S i) = (delays i ++ [2 ^ Z.of_nat i * 1000])%list.
Proof. unfold delays. rewrite seq_S, map_app. reflexivity. Qed.

(** The loop entered at [attempt], when the next [i] calls fail with
    errors that are retried and the call after them is the last. *)
Lemma attempts_prefix cfg maxRetries i : forall fuel attempt lastError s,
  (i < fuel)%nat -> 0 <= attempt -> attempt + Z.of_nat i < maxRetries ->
  (forall j, (j < i)%nat ->
     exists e, cfg (calls s + j)%nat = inr e /\ is_client_error e = false) ->
  last_call maxRetries (attempt + Z.of_nat i) (cfg (calls s + i)%nat) ->
  exists s',
    attempts cfg maxRetries fuel attempt lastError s =
      Some (passed_on (cfg (calls s + i)%nat), s') /\
    calls s' = S (calls s + i) /\
    timers s' =
      (rev (map (fun j => 2 ^ (attempt + Z.of_nat j) * 1000) (seq 0 i)) ++ timers s)%list.
Proof.
  induction i as [|i IH]; intros fuel attempt lastError s Hfuel Ha Hmax Hpre Hlast.
  - destruct fuel as [|fuel]; [lia|]. cbn [attempts].
    destruct (Z.ltb_spec attempt maxRetries); [|lia].
    rewrite Nat.add_0_r in *. rewrite Z.add_0_r in Hlast.
    destruct (cfg (calls s)) as [r|e]; cbn [passed_on].
    + eexists. split; [reflexivity|]. split; reflexivity.
    + assert (Hb : is_client_error e || (attempt =? maxRetries - 1) = true).
      { destruct Hlast as [H4|H4]; rewrite H4; [reflexivity|].
        rewrite Z.eqb_refl. apply orb_true_r. }
      rewrite Hb. eexists. split; [reflexivity|]. split; reflexivity.
  - destruct fuel as [|fuel]; [lia|]. cbn [attempts].
    destruct (Z.ltb_spec attempt maxRetries); [|lia].
    destruct (Hpre 0%nat ltac:(lia)) as (e & He & H4). rewrite Nat.add_0_r in He.
    rewrite He, H4.
    destruct (Z.eqb_spec attempt (maxRetries - 1)); [lia|]. cbn [orb].
    match goal with |- context [attempts _ _ _ _ _ ?S1] => set (s1 := S1) end.
    assert (Hc1 : calls s1 = S (calls s)) by reflexivity.
    destruct (IH fuel (attempt + 1) (Some e) s1) as (s' & Hrun & Hcalls & Htimers).
    + lia.
    + lia.
    + lia.
    + intros j Hj. rewrite Hc1.
      replace (S (calls s) + j)%nat with (calls s + S j)%nat by lia.
      apply Hpre. lia.
    + rewrite Hc1. replace (S (calls s) + i)%nat with (calls s + S i)%nat by lia.
      replace (attempt + 1 + Z.of_nat i) with (attempt + Z.of_nat (S i)) by lia.
      exact Hlast.
    + rewrite Hc1 in Hrun, Hcalls.
      replace (S (calls s) + i)%nat with (calls s + S i)%nat in Hrun, Hcalls by lia.
      exists s'. split; [exact Hrun|]. split; [exact Hcalls|].
      rewrite Htimers. subst s1. cbn [timers retrying called].
      cbn [seq map rev]. rewrite <- seq_shift, map_map, Z.add_0_r.
      rewrite <- app_assoc. cbn [app]. f_equal.
      * f_equal. apply map_ext. intros j. do 2 f_equal. lia.
Qed.

(** Property X25.  The first [i] calls fail with errors that are retried (no
    4xx status), [i] being less than [maxRetries], and the call after them
    succeeds, or fails with a 4xx status, or is attempt number [maxRetries].
    Then the wrapper makes exactly [i + 1] calls and passes on the outcome
    of the last: the response is returned, the error thrown.  Between the
    calls it sleeps 1000, 2000, ..., [2 ^ (i - 1) * 1000] ms, and it does
    not sleep after the last call. *)
Theorem retry_outcome cfg maxRetries i fuel s :
  (i < fuel)%nat -> Z.of_nat i < default 3 maxRetries ->
  (forall j, (j < i)%nat ->
     exists e, cfg (calls s + j)%nat = inr e /\ is_client_error e = false) ->
  last_call (default 3 maxRetries) (Z.of_nat i) (cfg (calls s + i)%nat) ->
  exists s',
    axiosWithRetry cfg maxRetries fuel s = Some (passed_on (cfg (calls s + i)%nat), s') /\
    calls s' = S (calls s + i) /\
    timers s' = (rev (delays i) ++ timers s)%list.
Proof.
  intros Hfuel Hmax Hpre Hlast. unfold axiosWithRetry.
  exact (attempts_prefix cfg (default 3 maxRetries) i fuel 0 None s Hfuel
           ltac:(lia) Hmax Hpre Hlast).
Qed.

Lemma retry_outcome_witness :
  (2 < 4)%nat /\ Z.of_nat 2 < default 3 None /\
  last_call (default 3 None) (Z.of_nat 2) (recovering (calls idle + 2)%nat) /\
  exists s',
    axiosWithRetry recovering None 4 idle = Some (inl "products", s') /\
    calls s' = 3%nat /\
    timers s' = [2000; 1000].
Proof.
  assert (H1 : (2 < 4)%nat) by lia.
  assert (H2 : Z.of_nat 2 < default 3 None) by (change (2 < 3); lia).
  assert (H3 : last_call (default 3 None) (Z.of_nat 2) (recovering (calls idle + 2)%nat)).
  { exact I. }
  assert (Hpre : forall j, (j < 2)%nat ->
            exists e, recovering (calls idle + j)%nat = inr e /\
                      is_client_error e = false).
  { intros [|[|j]] Hj; [eexists; split; reflexivity..|lia]. }
  split; [exact H1|]. split; [exact H2|]. split; [exact H3|].
  exact (retry_outcome recovering None 2 4 idle H1 H2 Hpre H3).
Defined.

(** Property X26.  With [maxRetries] of 0 or less the loop body never runs:
    no call is made, and the wrapper throws [lastError] as it was declared,
    [undefined]. *)
Theorem no_attempt_throws_undefined cfg maxRetries fuel s :
  maxRetries <= 0 ->
  axiosWithRetry cfg (Some maxRetries) (S fuel) s = Some (inr None, s).
Proof.
  intros Hle. unfold axiosWithRetry.
  change (default 3 (Some maxRetries)) with maxRetries. cbn [attempts].
  destruct (Z.ltb_spec 0 maxRetries); [lia|reflexivity].
Qed.

Lemma no_attempt_throws_undefined_witness :
  0 <= 0 /\ axiosWithRetry recovering (Some 0) 1 idle = Some (inr None, idle).
Proof.
  split; [lia|].
  exact (no_attempt_throws_undefined recovering 0 0 idle ltac:(lia)).
Defined.

Lemma attempts_bounded cfg maxRetries : forall fuel attempt lastError s,
  0 <= attempt < maxRetries ->
  (Z.to_nat (maxRetries - attempt) <= fuel)%nat ->
  exists o s',
    attempts cfg maxRetries fuel attempt lastError s = Some (o, s') /\
    (calls s < calls s')%nat /\
    Z.of_nat (calls s') <= Z.of_nat (calls s) + (maxRetries - attempt) /\
    o = passed_on (cfg (pred (calls s'))) /\
    (length (timers s') + calls s + 1 = length (timers s) + calls s')%nat.
Proof.
  induction fuel as [|fuel IH]; intros attempt lastError s Ha Hfuel; [lia|].
  cbn [attempts]. destruct (Z.ltb_spec attempt maxRetries); [|lia].
  destruct (cfg (calls s)) as [r|e] eqn:Hcfg.
  - eexists _, _. split; [reflexivity|]. cbn [calls called timers pred].
    rewrite Hcfg. repeat split; lia.
  - destruct (is_client_error e || (attempt =? maxRetries - 1)) eqn:Hb.
    + eexists _, _. split; [reflexivity|]. cbn [calls called timers pred].
      rewrite Hcfg. repeat split; lia.
    + apply orb_false_iff in Hb as [_ Hb]. apply Z.eqb_neq in Hb.
      match goal with |- context [attempts _ _ _ _ _ ?S1] => set (s1 := S1) end.
      destruct (IH (attempt + 1) (Some e) s1) as (o & s' & Hrun & Hlt & Hle & Ho & Hd).
      { lia. } { lia. }
      exists o, s'. split; [exact Hrun|].
      assert (Hc1 : calls s1 = S (calls s)) by reflexivity.
      assert (Ht1 : timers s1 = 2 ^ attempt * 1000 :: timers s) by reflexivity.
      rewrite Hc1 in Hlt, Hle, Hd. rewrite Ht1 in Hd. cbn [length] in Hd.
      split; [lia|]. split; [lia|]. split; [exact Ho|]. lia.
Qed.

(** Property X27.  Whatever the calls do, with [maxRetries] of 1 or more the
    wrapper ends: it makes at least one call and at most [maxRetries],
    sleeps once between two calls and never after the last, and what it
    returns or throws is the outcome of the last call it made. *)
Theorem retry_ends cfg maxRetries fuel s :
  1 <= default 3 maxRetries ->
  (Z.to_nat (default 3%Z maxRetries) <= fuel)%nat ->
  exists o s',
    axiosWithRetry cfg maxRetries fuel s = Some (o, s') /\
    (calls s < calls s')%nat /\
    Z.of_nat (calls s') <= Z.of_nat (calls s) + default 3 maxRetries /\
    o = passed_on (cfg (pred (calls s'))) /\
    (length (timers s') + calls s + 1 = length (timers s) + calls s')%nat.
Proof.
  intros H1 Hfuel. unfold axiosWithRetry.
  destruct (attempts_bounded cfg (default 3 maxRetries) fuel 0 None s)
    as (o & s' & Hrun & Hlt & Hle & Ho & Hd); [lia|rewrite Z.sub_0_r; exact Hfuel|].
  exists o, s'. rewrite Z.sub_0_r in Hle. auto.
Qed.

Lemma retry_ends_witness :
  let down : request := fun _ => inr unavailable in
  1 <= default 3 None /\ (Z.to_nat (default 3%Z None) <= 3)%nat /\
  exists o s',
    axiosWithRetry down None 3 idle = Some (o, s') /\
    (calls idle < calls s')%nat /\
    Z.of_nat (calls s') <= Z.of_nat (calls idle) + default 3 None /\
    o = passed_on (down (pred (calls s'))) /\
    (length (timers s') + calls idle + 1 = length (timers idle) + calls s')%nat.
Proof.
  intros down.
  assert (H1 : 1 <= default 3 None) by (change (1 <= 3); lia).
  assert (H2 : (Z.to_nat (default 3%Z None) <= 3)%nat) by (change (3 <= 3)%nat; lia).
  split; [exact H1|]. split; [exact H2|].
  exact (retry_ends down None 3 idle H1 H2).
Defined.

(** The header of the file announces delays of 1 s, 2 s and 4 s.  With
    the default of three attempts a service that keeps failing is called
    three times with sleeps of 1 s and 2 s only: the third failure is
    thrown at once. *)
Example three_attempts_two_sleeps :
  axiosWithRetry (fun _ => inr unavailable) None 3 idle =
    Some (inr (Some unavailable),
          {| calls := 3; timers := [2000; 1000];
             console := [ "Retry attempt 2/3 after 2000ms";
                          "Retry attempt 1/3 after 1000ms" ] |}).
Proof. vm_compute. reflexivity. Qed.

(** A 404 is thrown after the one call, without a retry. *)
Example client_error_is_not_retried :
  axiosWithRetry (fun _ => inr not_found) None 3 idle =
    Some (inr (Some not_found), {| calls := 1; timers := []; console := [] |}).
Proof. vm_compute. reflexivity. Qed.

End AxiosRetryProps.
